(** * Claude Agent Desktop: credentials, OAuth handlers and the chat view

  A shallow embedding of the parts of the desktop client that its
  specification makes promises about:

  - [src/main/lib/oauth.ts]: the authorization URL, the token refresh and
    [getValidAccessToken];
  - [src/main/handlers/oauth-handlers.ts] and the config handlers: the
    IPC handlers of the main process;
  - [src/renderer/pages/Chat.tsx]: attachment selection, turn submission
    and the debounced auto-save effect.

  Conventions.  A JavaScript string is a [string] holding its UTF-8
  bytes.  A JavaScript number that holds a size or an epoch timestamp is
  a [Z].  [null] and [undefined] are [None].  Console logging is not
  modelled.  Everything the code obtains from outside the process (the
  clock, the token endpoint, the file reader, the IPC peer) is an
  explicit environment argument. *)

From Stdlib Require Import String Ascii ZArith List Bool Lia.
From Stdlib Require Import DecimalString.
From Stdlib Require QArith_base.
Import ListNotations.

Local Open Scope string_scope.
Local Open Scope Z_scope.

(** ** JavaScript built-ins used by the sources *)

Module JS.

Definition bytes (l : list nat) : string :=
  string_of_list_ascii (map ascii_of_nat l).

(** The double quote, U+0022. *)
Definition dquote : string := bytes [34%nat].

(** [Boolean(s)] for a string: the empty string is the only falsy one. *)
Definition truthy (s : string) : bool :=
  match s with EmptyString => false | String _ _ => true end.

(** [x || null] for a string that may be absent. *)
Definition or_null (s : option string) : option string :=
  match s with
  | Some v => if truthy v then Some v else None
  | None => None
  end.

(** [n || null] for a number that may be absent: [0] is falsy. *)
Definition num_or_null (n : option Z) : option Z :=
  match n with
  | Some v => if v =? 0 then None else Some v
  | None => None
  end.

(** [s.startsWith(p)], returning the rest of [s] as well. *)
Fixpoint strip_prefix (p s : string) : option string :=
  match p with
  | EmptyString => Some s
  | String a p' =>
      match s with
      | String b s' => if Ascii.eqb a b then strip_prefix p' s' else None
      | EmptyString => None
      end
  end.

Definition startsWith (s p : string) : bool :=
  match strip_prefix p s with Some _ => true | None => false end.

(** [s.includes(p)]. *)
Fixpoint includes (s p : string) : bool :=
  startsWith s p
  || match s with
     | EmptyString => false
     | String _ s' => includes s' p
     end.

(** ECMAScript WhiteSpace and LineTerminator code points, each as its
    UTF-8 encoding: TAB, LF, VT, FF, CR, SP, NBSP, U+1680,
    U+2000..U+200A, U+2028, U+2029, U+202F, U+205F, U+3000, U+FEFF. *)
Definition whiteSpace : list string :=
  map bytes
    [ [9]; [10]; [11]; [12]; [13]; [32]; [194; 160]; [225; 154; 128];
      [226; 128; 128]; [226; 128; 129]; [226; 128; 130]; [226; 128; 131];
      [226; 128; 132]; [226; 128; 133]; [226; 128; 134]; [226; 128; 135];
      [226; 128; 136]; [226; 128; 137]; [226; 128; 138]; [226; 128; 168];
      [226; 128; 169]; [226; 128; 175]; [226; 129; 159]; [227; 128; 128];
      [239; 187; 191] ]%nat.

Definition srev (s : string) : string :=
  string_of_list_ascii (rev (list_ascii_of_string s)).

Fixpoint strip_any (ps : list string) (s : string) : option string :=
  match ps with
  | [] => None
  | p :: ps' =>
      match strip_prefix p s with
      | Some r => Some r
      | None => strip_any ps' s
      end
  end.

Fixpoint strip_all (fuel : nat) (ps : list string) (s : string) : string :=
  match fuel with
  | O => s
  | S fuel' =>
      match strip_any ps s with
      | Some r => strip_all fuel' ps r
      | None => s
      end
  end.

Definition trimStart (s : string) : string :=
  strip_all (String.length s) whiteSpace s.

Definition trimEnd (s : string) : string :=
  srev (strip_all (String.length s) (map srev whiteSpace) (srev s)).

(** [s.trim()]. *)
Definition trim (s : string) : string := trimEnd (trimStart s).

(** [s.split(sep)] for a one-character separator. *)
Fixpoint split (sep : ascii) (s : string) : list string :=
  match s with
  | EmptyString => [EmptyString]
  | String c s' =>
      if Ascii.eqb c sep then EmptyString :: split sep s'
      else match split sep s' with
           | [] => [String c EmptyString]
           | w :: ws => String c w :: ws
           end
  end.

(** [a.pop()] read as an expression: the last element. *)
Definition pop (l : list string) : option string := List.last (map Some l) None.

(** [s.toLowerCase()] on the ASCII letters.  No code point outside ASCII
    lowers to an ASCII letter other than [k] (U+212A), so membership in a
    set of ASCII words without [k] is decided alike. *)
Definition lower (c : ascii) : ascii :=
  let n := nat_of_ascii c in
  if ((65 <=? n) && (n <=? 90))%nat then ascii_of_nat (n + 32) else c.

Fixpoint toLowerCase (s : string) : string :=
  match s with
  | EmptyString => EmptyString
  | String c s' => String (lower c) (toLowerCase s')
  end.

(** [n.toString()] for an integer. *)
Definition toString (n : Z) : string := NilZero.string_of_int (Z.to_int n).

(** What a [catch] clause receives: an [Error] with a message, or some
    other thrown value. *)
Inductive Thrown := ErrorObject (message : string) | OtherValue.

(** [error instanceof Error ? error.message : 'Unknown error']. *)
Definition messageOf (fallback : string) (e : Thrown) : string :=
  match e with
  | ErrorObject m => m
  | OtherValue => fallback
  end.

End JS.

(** ** A state monad with exceptions, for the main process *)

Module Eff.

Inductive Res (A : Type) : Type :=
| Ok (a : A)
| Throw (e : JS.Thrown).
Arguments Ok {A} a.
Arguments Throw {A} e.

Definition M (S A : Type) : Type := S -> Res A * S.

Definition ret {S A} (a : A) : M S A := fun s => (Ok a, s).

Definition bind {S A B} (c : M S A) (k : A -> M S B) : M S B :=
  fun s =>
    match c s with
    | (Ok a, s') => k a s'
    | (Throw e, s') => (Throw e, s')
    end.

Definition throw {S A} (e : JS.Thrown) : M S A := fun s => (Throw e, s).

(** [try { c } catch (error) { h error }]. *)
Definition try_catch {S A} (c : M S A) (h : JS.Thrown -> M S A) : M S A :=
  fun s =>
    match c s with
    | (Ok a, s') => (Ok a, s')
    | (Throw e, s') => h e s'
    end.

Definition get {S} : M S S := fun s => (Ok s, s).
Definition modify {S} (f : S -> S) : M S unit := fun s => (Ok tt, f s).

End Eff.

Notation "x <- c ;; k" := (Eff.bind c (fun x => k))
(at level 61, c at next level, right associativity).
Notation "c ;;; k" := (Eff.bind c (fun _ => k))
(at level 61, right associativity).

(** ** The persisted configuration ([src/main/lib/config.ts]) *)

Module Config.

(** [OAuthTokens] of oauth.ts; its [type] field is the constant ['oauth']. *)
Record OAuthTokens : Type := mkTokens {
  refresh : string;
  access : string;
  expires : Z
}.

(** Modelled from the spec: [AppConfig] is declared in config.ts, which is
    not among the sources.  The spec gives the recognized keys of the flat
    key/value document: [workspaceDir], [debugMode], [apiKey],
    [anthropicBaseUrl] and [oauthTokens]. *)
Record AppConfig : Type := mkConfig {
  workspaceDir : option string;
  debugMode : option bool;
  apiKey : option string;
  anthropicBaseUrl : option string;
  oauthTokens : option OAuthTokens
}.

Definition set_oauthTokens (v : option OAuthTokens) (c : AppConfig) : AppConfig :=
  mkConfig (workspaceDir c) (debugMode c) (apiKey c) (anthropicBaseUrl c) v.

Definition set_apiKey (v : option string) (c : AppConfig) : AppConfig :=
  mkConfig (workspaceDir c) (debugMode c) v (anthropicBaseUrl c) (oauthTokens c).

(** Modelled from the spec: the environment variables that override the
    stored values, [ANTHROPIC_API_KEY] and [ANTHROPIC_BASE_URL]; config.ts,
    which reads them, is not among the sources. *)
Record ProcessEnv : Type := mkEnv {
  ANTHROPIC_API_KEY : option string;
  ANTHROPIC_BASE_URL : option string
}.

End Config.
Import Config.

(** ** The main process *)

Module Main.

(** Requests that leave the process. *)
Inductive Request : Type :=
| AuthorizationCodeGrant
    (code : string) (state : option string)
    (client_id redirect_uri code_verifier : string)
| RefreshTokenGrant (refresh_token client_id : string)
| CreateApiKeyRequest (bearer : string).

(** What the process does to the outside, in order. *)
Inductive Effect : Type :=
| LoadConfig
| SaveConfig (c : AppConfig)
| Fetch (r : Request)
| OpenExternal (url : string).

(** The module-level state of the handlers ([currentPKCEVerifier]), the
    config document on disk and the process environment. *)
Record State : Type := mkState {
  config : AppConfig;
  currentPKCEVerifier : option string;
  processEnv : ProcessEnv;
  trace : list Effect
}.

Definition M := Eff.M State.

Definition emit (e : Effect) : M unit :=
  Eff.modify (fun s =>
    mkState (config s) (currentPKCEVerifier s) (processEnv s) (trace s ++ [e])).

Definition set_verifier (v : option string) : M unit :=
  Eff.modify (fun s => mkState (config s) v (processEnv s) (trace s)).

Definition get_verifier : M (option string) :=
  s <- Eff.get ;; Eff.ret (currentPKCEVerifier s).

(** Modelled from the spec: [loadConfig] is defined in config.ts, which is
    not among the sources.  The config is one persisted document: loading
    returns it. *)
Definition loadConfig : M AppConfig :=
  emit LoadConfig ;;;
  s <- Eff.get ;; Eff.ret (config s).

(** Modelled from the spec: [saveConfig] of config.ts, which is not among
    the sources, replaces the persisted document. *)
Definition saveConfig (c : AppConfig) : M unit :=
  emit (SaveConfig c) ;;;
  Eff.modify (fun s =>
    mkState c (currentPKCEVerifier s) (processEnv s) (trace s)).

End Main.
Import Main.

(** ** [src/main/lib/oauth.ts] *)

Module OAuth.

Definition CLIENT_ID := "9d1c250a-e61b-44d9-88ed-5944d1962f5e".
Definition AUTHORIZATION_ENDPOINT_MAX := "https://claude.ai/oauth/authorize".
Definition AUTHORIZATION_ENDPOINT_CONSOLE :=
  "https://console.anthropic.com/oauth/authorize".
Definition REDIRECT_URI := "https://console.anthropic.com/oauth/code/callback".
Definition SCOPES := "org:create_api_key user:profile user:inference".

Record PKCEChallenge : Type := mkPKCE {
  challenge : string;
  verifier : string
}.

Inductive AuthMode : Type := max | console.

(** *** [URL] and [URLSearchParams] *)

(** Bytes the application/x-www-form-urlencoded serializer leaves as they
    are: ASCII letters and digits and [*], [-], [.], [_]. *)
Definition urlencoded_plain (c : ascii) : bool :=
  let n := nat_of_ascii c in
  (((48 <=? n) && (n <=? 57)) || ((65 <=? n) && (n <=? 90))
   || ((97 <=? n) && (n <=? 122))
   || (n =? 42) || (n =? 45) || (n =? 46) || (n =? 95))%nat.

Definition hex_digit (n : nat) : ascii :=
  if (n <? 10)%nat then ascii_of_nat (48 + n) else ascii_of_nat (55 + n).

Definition percent_encode (c : ascii) : string :=
  let n := nat_of_ascii c in
  String "%" (String (hex_digit (n / 16)) (String (hex_digit (n mod 16)) "")).

Fixpoint urlencode (s : string) : string :=
  match s with
  | EmptyString => EmptyString
  | String c s' =>
      (if urlencoded_plain c then String c ""
       else if Ascii.eqb c " " then "+"
       else percent_encode c) ++ urlencode s'
  end.

Definition SearchParams := list (string * string).

(** [params.set(name, value)]: the first pair of that name takes the value
    and the later ones go; without one the pair is appended. *)
Fixpoint searchParams_set (name value : string) (ps : SearchParams) : SearchParams :=
  match ps with
  | [] => [(name, value)]
  | (n, v) :: ps' =>
      if String.eqb n name
      then (name, value) :: filter (fun p => negb (String.eqb (fst p) name)) ps'
      else (n, v) :: searchParams_set name value ps'
  end.

Fixpoint searchParams_toString (ps : SearchParams) : string :=
  match ps with
  | [] => ""
  | [(n, v)] => urlencode n ++ "=" ++ urlencode v
  | (n, v) :: ps' => urlencode n ++ "=" ++ urlencode v ++ "&" ++ searchParams_toString ps'
  end.

(** A parsed URL without a query of its own, and its [toString()]. *)
Record URL : Type := mkURL { base : string; searchParams : SearchParams }.

Definition url_set (name value : string) (u : URL) : URL :=
  mkURL (base u) (searchParams_set name value (searchParams u)).

Definition url_toString (u : URL) : string :=
  match searchParams u with
  | [] => base u
  | ps => base u ++ "?" ++ searchParams_toString ps
  end.

Definition getAuthorizationUrl (mode : AuthMode) (pkce : PKCEChallenge) : string :=
  let baseUrl :=
    match mode with
    | max => AUTHORIZATION_ENDPOINT_MAX
    | console => AUTHORIZATION_ENDPOINT_CONSOLE
    end in
  let url := mkURL baseUrl [] in
  let url := url_set "code" "true" url in
  let url := url_set "client_id" CLIENT_ID url in
  let url := url_set "response_type" "code" url in
  let url := url_set "redirect_uri" REDIRECT_URI url in
  let url := url_set "scope" SCOPES url in
  let url := url_set "code_challenge" (challenge pkce) url in
  let url := url_set "code_challenge_method" "S256" url in
  let url := url_set "state" (verifier pkce) url in
  url_toString url.

(** *** The token endpoint *)

(** The fields the code reads off a token response. *)
Record TokenJson : Type := mkTokenJson {
  refresh_token : string;
  access_token : string;
  expires_in : Z
}.

Record KeyJson : Type := mkKeyJson { raw_key : string }.

(** How an awaited [fetch] ends: the promise rejects, or a response
    arrives; [json = None] is a body that [response.json()] throws on. *)
Inductive FetchResult (J : Type) : Type :=
| FetchRejected (e : JS.Thrown)
| FetchResponse (ok : bool) (json : option J).
Arguments FetchRejected {J} e.
Arguments FetchResponse {J} ok json.

(** The world as one operation of the main process sees it: [now] is what
    [Date.now()] returns when the operation starts, [latency] how much
    later a [fetch] resolves. *)
Record Env : Type := mkEnv {
  now : Z;
  latency : Z;
  tokenEndpoint : Request -> FetchResult TokenJson;
  createKeyEndpoint : Request -> FetchResult KeyJson
}.

Definition tokensOfResponse (e : Env) (r : FetchResult TokenJson) : option OAuthTokens :=
  match r with
  | FetchRejected _ => None
  | FetchResponse false _ => None
  | FetchResponse true None => None
  | FetchResponse true (Some json) =>
      Some (mkTokens (refresh_token json) (access_token json)
              (now e + latency e + expires_in json * 1000))
  end.

Definition exchangeCodeForTokens (e : Env) (code verifier : string)
  : M (option OAuthTokens) :=
  let splits := JS.split "#" code in
  let authCode := hd "" splits in
  let state := nth_error splits 1 in
  let request :=
    AuthorizationCodeGrant authCode state CLIENT_ID REDIRECT_URI verifier in
  emit (Fetch request) ;;;
  Eff.ret (tokensOfResponse e (tokenEndpoint e request)).

Definition refreshAccessToken (e : Env) (refreshToken : string)
  : M (option OAuthTokens) :=
  let request := RefreshTokenGrant refreshToken CLIENT_ID in
  emit (Fetch request) ;;;
  Eff.ret (tokensOfResponse e (tokenEndpoint e request)).

Definition createApiKey (e : Env) (accessToken : string) : M (option string) :=
  let request := CreateApiKeyRequest accessToken in
  emit (Fetch request) ;;;
  Eff.ret
    match createKeyEndpoint e request with
    | FetchRejected _ => None
    | FetchResponse false _ => None
    | FetchResponse true None => None
    | FetchResponse true (Some json) => Some (raw_key json)
    end.

(** *** Tokens in the config *)

Definition saveOAuthTokens (tokens : OAuthTokens) : M unit :=
  config <- loadConfig ;;
  saveConfig (set_oauthTokens (Some tokens) config).

Definition getOAuthTokens : M (option OAuthTokens) :=
  config <- loadConfig ;;
  Eff.ret (oauthTokens config).

Definition clearOAuthTokens : M unit :=
  config <- loadConfig ;;
  saveConfig (set_oauthTokens None config).

Definition isTokenExpired (e : Env) (tokens : OAuthTokens) : bool :=
  let fiveMinutes := 5 * 60 * 1000 in
  expires tokens <? now e + fiveMinutes.

Definition getValidAccessToken (e : Env) : M (option string) :=
  tokens <- getOAuthTokens ;;
  match tokens with
  | None => Eff.ret None
  | Some tokens =>
      if isTokenExpired e tokens then
        newTokens <- refreshAccessToken e (refresh tokens) ;;
        match newTokens with
        | None => Eff.ret None
        | Some newTokens =>
            saveOAuthTokens newTokens ;;;
            Eff.ret (Some (access newTokens))
        end
      else Eff.ret (Some (access tokens))
  end.

End OAuth.
Import OAuth.

(** ** [src/main/handlers/oauth-handlers.ts] *)

Module OAuthHandlers.

(** The environment of a handler: the oauth.ts environment, what
    [generatePKCE()] of @openauthjs/openauth resolves to, and how
    [shell.openExternal] ends. *)
Record HandlerEnv : Type := mkHandlerEnv {
  env : Env;
  generatePKCE : JS.Thrown + PKCEChallenge;
  openExternalResult : option JS.Thrown
}.

Definition generatePKCEChallenge (h : HandlerEnv) : M PKCEChallenge :=
  match generatePKCE h with
  | inl e => Eff.throw e
  | inr pkce => Eff.ret (mkPKCE (challenge pkce) (verifier pkce))
  end.

Definition openExternal (h : HandlerEnv) (url : string) : M unit :=
  emit (OpenExternal url) ;;;
  match openExternalResult h with
  | Some e => Eff.throw e
  | None => Eff.ret tt
  end.

Record StartLoginResponse : Type := mkStartLogin {
  start_success : bool;
  authUrl : option string;
  start_error : option string
}.

Inductive LoginMode : Type := mode_oauth | mode_api_key.

Record CompleteLoginResponse : Type := mkCompleteLogin {
  complete_success : bool;
  mode : option LoginMode;
  created_apiKey : option string;
  complete_error : option string
}.

Record StatusResponse : Type := mkStatus {
  authenticated : bool;
  expiresAt : option Z
}.

Record AccessTokenResponse : Type := mkAccessToken {
  token_success : bool;
  accessToken : option string;
  token_error : option string
}.

Record SuccessResponse : Type := mkSuccess {
  success : bool;
  error : option string
}.

(** ['oauth:start-login']. *)
Definition start_login (h : HandlerEnv) (mode : AuthMode) : M StartLoginResponse :=
  Eff.try_catch
    (pkce <- generatePKCEChallenge h ;;
     set_verifier (Some (verifier pkce)) ;;;
     let authUrl := getAuthorizationUrl mode pkce in
     openExternal h authUrl ;;;
     Eff.ret (mkStartLogin true (Some authUrl) None))
    (fun error =>
       Eff.ret (mkStartLogin false None (Some (JS.messageOf "Unknown error" error)))).

(** ['oauth:complete-login'].  [!currentPKCEVerifier] also holds of an empty
    verifier, [!apiKey] of an empty key. *)
Definition complete_login (h : HandlerEnv) (code : string) (createKey : bool)
  : M CompleteLoginResponse :=
  Eff.try_catch
    (current <- get_verifier ;;
     match JS.or_null current with
     | None =>
         Eff.ret (mkCompleteLogin false None None
           (Some "No active OAuth flow. Please start the login process again."))
     | Some currentVerifier =>
         tokens <- exchangeCodeForTokens (env h) code currentVerifier ;;
         match tokens with
         | None =>
             Eff.ret (mkCompleteLogin false None None
               (Some "Failed to exchange authorization code for tokens"))
         | Some tokens =>
             if createKey then
               apiKey <- createApiKey (env h) (access tokens) ;;
               match JS.or_null apiKey with
               | None =>
                   Eff.ret (mkCompleteLogin false None None
                     (Some "Failed to create API key"))
               | Some apiKey =>
                   set_verifier None ;;;
                   Eff.ret (mkCompleteLogin true (Some mode_api_key) (Some apiKey) None)
               end
             else
               saveOAuthTokens tokens ;;;
               set_verifier None ;;;
               Eff.ret (mkCompleteLogin true (Some mode_oauth) None None)
         end
     end)
    (fun error =>
       set_verifier None ;;;
       Eff.ret (mkCompleteLogin false None None
         (Some (JS.messageOf "Unknown error" error)))).

(** ['oauth:cancel']. *)
Definition cancel : M SuccessResponse :=
  set_verifier None ;;;
  Eff.ret (mkSuccess true None).

(** ['oauth:get-status']: [!!tokens] and [tokens?.expires || null]. *)
Definition get_status : M StatusResponse :=
  tokens <- getOAuthTokens ;;
  Eff.ret
    (mkStatus
       (match tokens with Some _ => true | None => false end)
       (JS.num_or_null (option_map expires tokens))).

(** ['oauth:logout']. *)
Definition logout : M SuccessResponse :=
  Eff.try_catch
    (clearOAuthTokens ;;;
     Eff.ret (mkSuccess true None))
    (fun error =>
       Eff.ret (mkSuccess false (Some (JS.messageOf "Unknown error" error)))).

(** ['oauth:get-access-token']: [success] is [!!accessToken]. *)
Definition get_access_token (e : Env) : M AccessTokenResponse :=
  Eff.try_catch
    (accessToken <- getValidAccessToken e ;;
     Eff.ret
       (mkAccessToken
          (match JS.or_null accessToken with Some _ => true | None => false end)
          accessToken None))
    (fun error =>
       Eff.ret (mkAccessToken false None (Some (JS.messageOf "Unknown error" error)))).

End OAuthHandlers.

(** ** The config handlers and the status they report *)

Module ConfigHandlers.

Inductive Source : Type := source_env | source_local.

(** The two fields of the status the spec speaks of.  The settings page
    declares a third, [lastFour]; the spec does not say what it holds. *)
Record ApiKeyStatus : Type := mkApiKeyStatus {
  configured : bool;
  source : option Source
}.

(** Modelled from the spec: [setApiKey] is defined in config.ts, which is
    not among the sources.  By the spec it sets or clears the [apiKey] key
    of the persisted config. *)
Definition setApiKey (key : option string) : M unit :=
  config <- loadConfig ;;
  saveConfig (set_apiKey key config).

(** Modelled from the spec: [getApiKeyStatus] is defined in config.ts, which
    is not among the sources.  By the spec the status is a function of the
    environment and the stored value: the environment layer is consulted
    first and always wins, the persisted layer is the fallback, and the
    status says which of them is active. *)
Definition getApiKeyStatus : M ApiKeyStatus :=
  s <- Eff.get ;;
  match ANTHROPIC_API_KEY (processEnv s) with
  | Some _ => Eff.ret (mkApiKeyStatus true (Some source_env))
  | None =>
      config <- loadConfig ;;
      match apiKey config with
      | Some _ => Eff.ret (mkApiKeyStatus true (Some source_local))
      | None => Eff.ret (mkApiKeyStatus false None)
      end
  end.

Record SetApiKeyResponse : Type := mkSetApiKey {
  set_success : bool;
  status : ApiKeyStatus
}.

(** ['config:get-api-key-status']. *)
Definition get_api_key_status : M ApiKeyStatus := getApiKeyStatus.

(** ['config:set-api-key']: [apiKey?.trim() || null]. *)
Definition set_api_key (apiKey : option string) : M SetApiKeyResponse :=
  let normalized := JS.or_null (option_map JS.trim apiKey) in
  setApiKey normalized ;;;
  status <- getApiKeyStatus ;;
  Eff.ret (mkSetApiKey true status).

End ConfigHandlers.

(** ** [src/renderer/pages/Chat.tsx] *)

Module Chat.

(** *** Data *)

(** A DOM [File]: what the code reads of it. *)
Record File : Type := mkFile {
  file_name : string;
  file_size : Z;
  file_type : string
}.

Record PendingAttachment : Type := mkPending {
  pending_id : string;
  pending_file : File;
  previewUrl : option string;
  previewIsBlobUrl : bool;
  pending_isImage : bool
}.

(** [MessageAttachment] and [Message] of [@/types/chat], as Chat.tsx builds
    and reads them.  A [Date] is the [Z] of its time value. *)
Record MessageAttachment : Type := mkAttachment {
  att_id : string;
  att_name : string;
  att_size : Z;
  att_mimeType : string;
  att_previewUrl : option string;
  att_isImage : bool;
  att_savedPath : option string;
  att_relativePath : option string
}.

Inductive Role : Type := user | assistant.

Record Message : Type := mkMessage {
  msg_id : string;
  msg_role : Role;
  msg_content : string;
  msg_timestamp : Z;
  msg_attachments : option (list MessageAttachment)
}.

(** [PersistedMessage]: the preview URL of every attachment is dropped and
    the timestamp is an ISO string. *)
Record PersistedAttachment : Type := mkPersistedAttachment {
  p_att_id : string;
  p_att_name : string;
  p_att_size : Z;
  p_att_mimeType : string;
  p_att_isImage : bool;
  p_att_savedPath : option string;
  p_att_relativePath : option string
}.

Record PersistedMessage : Type := mkPersisted {
  p_id : string;
  p_role : Role;
  p_content : string;
  p_timestamp : string;
  p_attachments : option (list PersistedAttachment)
}.

Record SerializedAttachmentPayload : Type := mkPayload {
  payload_name : string;
  payload_mimeType : string;
  payload_size : Z;
  payload_data : string
}.

Record SendMessagePayload : Type := mkSend {
  send_text : string;
  send_attachments : option (list SerializedAttachmentPayload)
}.

Record SavedAttachmentInfo : Type := mkSaved {
  saved_name : string;
  saved_mimeType : string;
  saved_size : Z;
  savedPath : string;
  relativePath : string
}.

Record SendMessageResponse : Type := mkResponse {
  response_success : bool;
  response_error : option string;
  response_attachments : option (list SavedAttachmentInfo)
}.

(** What the view asks of the outside, in order. *)
Inductive Effect : Type :=
| ChatSendMessage (payload : SendMessagePayload)
| ConversationUpdate
    (id : string) (messages : list PersistedMessage) (sessionId : option string)
| ConversationCreate (messages : list PersistedMessage) (sessionId : option string)
| RevokeObjectURL (url : string).

(** *** [Date.prototype.toISOString] *)

Definition pad (width : nat) (n : Z) : string :=
  let digits := JS.toString n in
  String.concat "" (repeat "0" (width - String.length digits)) ++ digits.

(** Year, month and day of a count of days since 1970-01-01. *)
Definition civil_from_days (days : Z) : Z * Z * Z :=
  let z := days + 719468 in
  let era := z / 146097 in
  let doe := z - era * 146097 in
  let yoe := (doe - doe / 1460 + doe / 36524 - doe / 146096) / 365 in
  let doy := doe - (365 * yoe + yoe / 4 - yoe / 100) in
  let mp := (5 * doy + 2) / 153 in
  let d := doy - (153 * mp + 2) / 5 + 1 in
  let m := if mp <? 10 then mp + 3 else mp - 9 in
  let y := yoe + era * 400 in
  (if m <=? 2 then y + 1 else y, m, d).

Definition toISOString (t : Z) : string :=
  let '(y, m, d) := civil_from_days (t / 86400000) in
  let ms := t mod 86400000 in
  let year :=
    if (0 <=? y) && (y <=? 9999) then pad 4 y
    else if y <? 0 then "-" ++ pad 6 (- y) else "+" ++ pad 6 y in
  year ++ "-" ++ pad 2 m ++ "-" ++ pad 2 d ++ "T"
  ++ pad 2 (ms / 3600000) ++ ":" ++ pad 2 (ms / 60000 mod 60) ++ ":"
  ++ pad 2 (ms / 1000 mod 60) ++ "." ++ pad 3 (ms mod 1000) ++ "Z".

(** *** Helpers of the module *)

Definition WORKSPACE_FALLBACK_LABEL :=
  "the configured claude-agent workspace directory".

Definition IMAGE_FILE_EXTENSIONS : list string :=
  [ "png"; "apng"; "avif"; "gif"; "jpg"; "jpeg"; "jfif"; "pjpeg"; "pjp"; "svg";
    "webp"; "bmp"; "ico"; "cur"; "heic"; "heif"; "tif"; "tiff" ].

Definition isLikelyImageFile (file : File) : bool :=
  if JS.startsWith (file_type file) "image/" then true
  else
    let extension :=
      match JS.pop (JS.split "." (file_name file)) with
      | Some e => JS.toLowerCase e
      | None => ""
      end in
    existsb (String.eqb extension) IMAGE_FILE_EXTENSIONS.

(** The URLs [releaseAttachmentPreviews] revokes. *)
Definition releaseAttachmentPreviews (attachments : list PendingAttachment)
  : list Effect :=
  flat_map
    (fun attachment =>
       match previewUrl attachment with
       | Some url =>
           if JS.truthy url && previewIsBlobUrl attachment
           then [RevokeObjectURL url] else []
       | None => []
       end)
    attachments.

Definition serializeAttachment (a : MessageAttachment) : PersistedAttachment :=
  mkPersistedAttachment (att_id a) (att_name a) (att_size a) (att_mimeType a)
    (att_isImage a) (att_savedPath a) (att_relativePath a).

Definition serializeMessagesForStorage (messages : list Message)
  : list PersistedMessage :=
  map
    (fun msg =>
       mkPersisted (msg_id msg) (msg_role msg) (msg_content msg)
         (toISOString (msg_timestamp msg))
         (option_map (map serializeAttachment) (msg_attachments msg)))
    messages.

(** *** The view: attachments and submission *)

(** The React state of [Chat] that the two handlers below read or set. *)
Record View : Type := mkView {
  inputValue : string;
  pendingAttachments : list PendingAttachment;
  attachmentError : option string;
  workspaceDir : option string;
  messages : list Message;
  isLoading : bool
}.

(** What reading a file gives: the [k]-th [crypto.randomUUID()] of a
    selection, [FileReader.readAsDataURL] and [URL.createObjectURL]. *)
Record FileEnv : Type := mkFileEnv {
  randomUUID : nat -> string;
  readFileAsDataUrl : File -> JS.Thrown + string;
  createObjectURL : File -> option string
}.

Definition createImagePreview (e : FileEnv) (file : File) : option (string * bool) :=
  match readFileAsDataUrl e file with
  | inr dataUrl => if JS.truthy dataUrl then Some (dataUrl, false) else None
  | inl _ =>
      match createObjectURL e file with
      | Some objectUrl => Some (objectUrl, true)
      | None => None
      end
  end.

Section Attachments.

(** [MAX_ATTACHMENT_BYTES] is imported from [shared/constants], which is not
    among the sources: it is a parameter here. *)
Variable MAX_ATTACHMENT_BYTES : Z.

Definition MAX_ATTACHMENT_SIZE_MB : Z := MAX_ATTACHMENT_BYTES / (1024 * 1024).

Definition rejectionFor (workspaceDir : option string) (file : File) : string :=
  let workspaceLabel :=
    match workspaceDir with
    | Some dir => dir
    | None => WORKSPACE_FALLBACK_LABEL
    end in
  JS.dquote ++ file_name file ++ JS.dquote ++ " is larger than "
  ++ JS.toString MAX_ATTACHMENT_SIZE_MB ++ " MB. "
  ++ "Please drop it directly into the Claude Agent workspace at "
  ++ workspaceLabel ++ ".".

Definition acceptFile (e : FileEnv) (index : nat) (file : File) : PendingAttachment :=
  let isImage := isLikelyImageFile file in
  let preview := if isImage then createImagePreview e file else None in
  match preview with
  | Some (url, isBlob) =>
      if JS.truthy url then mkPending (randomUUID e index) file (Some url) isBlob isImage
      else mkPending (randomUUID e index) file None false isImage
  | None => mkPending (randomUUID e index) file None false isImage
  end.

(** The [for] loop of [processFiles], with its two accumulators. *)
Fixpoint processFiles (e : FileEnv) (workspaceDir : option string) (files : list File)
    (accepted : list PendingAttachment) (rejectionMessage : option string)
  : list PendingAttachment * option string :=
  match files with
  | [] => (accepted, rejectionMessage)
  | file :: rest =>
      if MAX_ATTACHMENT_BYTES <? file_size file then
        processFiles e workspaceDir rest accepted
          (Some (rejectionFor workspaceDir file))
      else
        processFiles e workspaceDir rest
          (accepted ++ [acceptFile e (length accepted) file]) rejectionMessage
  end.

Definition handleFilesSelected (e : FileEnv) (fileList : list File) (v : View) : View :=
  match fileList with
  | [] => v
  | _ =>
      let '(accepted, rejectionMessage) :=
        processFiles e (workspaceDir v) fileList [] None in
      let pending :=
        match accepted with
        | [] => pendingAttachments v
        | _ => (pendingAttachments v ++ accepted)%list
        end in
      let error :=
        match JS.or_null rejectionMessage with
        | Some message => Some message
        | None =>
            match accepted with
            | [] => attachmentError v
            | _ => None
            end
        end in
      mkView (inputValue v) pending error (workspaceDir v) (messages v) (isLoading v)
  end.

End Attachments.

(** What a submission meets: [Date.now()] when it starts and when the reply
    is handled, [File.arrayBuffer()] and the [chat.sendMessage] call. *)
Record SendEnv : Type := mkSendEnv {
  dateNow : Z;
  arrayBuffer : File -> JS.Thrown + string;
  dateNow_reply : Z;
  sendMessage : SendMessagePayload -> JS.Thrown + SendMessageResponse
}.

Definition mimeTypeOf (file : File) : string :=
  if JS.truthy (file_type file) then file_type file else "application/octet-stream".

(** [Promise.all] over the attachments: the payloads, or a rejection. *)
Fixpoint serializeAttachments (e : SendEnv) (attachments : list PendingAttachment)
  : JS.Thrown + list SerializedAttachmentPayload :=
  match attachments with
  | [] => inr []
  | attachment :: rest =>
      let file := pending_file attachment in
      match arrayBuffer e file with
      | inl error => inl error
      | inr data =>
          match serializeAttachments e rest with
          | inl error => inl error
          | inr payloads =>
              inr (mkPayload (file_name file) (mimeTypeOf file) (file_size file) data
                     :: payloads)
          end
      end
  end.

Definition messageAttachmentOf (attachment : PendingAttachment) : MessageAttachment :=
  let file := pending_file attachment in
  mkAttachment (pending_id attachment) (file_name file) (file_size file)
    (mimeTypeOf file)
    (if previewIsBlobUrl attachment then None else previewUrl attachment)
    (pending_isImage attachment) None None.

Definition errorMessage (e : SendEnv) (content : string) : Message :=
  mkMessage (JS.toString (dateNow_reply e + 1)) assistant content (dateNow_reply e) None.

Definition some_if_nonempty {A} (l : list A) : option (list A) :=
  match l with [] => None | _ => Some l end.

(** [msg.attachments.map((attachment, index) => ...)] against the saved
    infos of the response. *)
Fixpoint applySaved (attachments : list MessageAttachment)
    (saved : list SavedAttachmentInfo) : list MessageAttachment :=
  match attachments, saved with
  | [], _ => []
  | _, [] => attachments
  | a :: attachments', s :: saved' =>
      mkAttachment (att_id a) (att_name a) (att_size a) (att_mimeType a)
        (att_previewUrl a) (att_isImage a) (Some (savedPath s)) (Some (relativePath s))
      :: applySaved attachments' saved'
  end.

Definition updateSaved (userId : string) (saved : list SavedAttachmentInfo)
    (msg : Message) : Message :=
  match msg_attachments msg with
  | Some ((_ :: _) as attachments) =>
      if String.eqb (msg_id msg) userId then
        mkMessage (msg_id msg) (msg_role msg) (msg_content msg) (msg_timestamp msg)
          (Some (applySaved attachments saved))
      else msg
  | _ => msg
  end.

Definition handleSendMessage (e : SendEnv) (v : View) : View * list Effect :=
  let trimmedMessage := JS.trim (inputValue v) in
  let hasSendableContent :=
    (0 <? String.length trimmedMessage)%nat
    || (0 <? List.length (pendingAttachments v))%nat in
  if negb hasSendableContent || isLoading v then (v, [])
  else
    let attachmentsToSend := pendingAttachments v in
    let messageAttachments := map messageAttachmentOf attachmentsToSend in
    let userMessage :=
      mkMessage (JS.toString (dateNow e)) user trimmedMessage (dateNow e)
        (some_if_nonempty messageAttachments) in
    let shown := (messages v ++ [userMessage])%list in
    let failed (content : string) :=
      mkView "" [] None (workspaceDir v) (shown ++ [errorMessage e content])%list false in
    let released := releaseAttachmentPreviews attachmentsToSend in
    match serializeAttachments e attachmentsToSend with
    | inl error =>
        (failed ("Error preparing attachments: "
                 ++ JS.messageOf "Unknown error occurred" error),
         released)
    | inr serializedAttachments =>
        let payload :=
          mkSend trimmedMessage (some_if_nonempty serializedAttachments) in
        let effects := (released ++ [ChatSendMessage payload])%list in
        match sendMessage e payload with
        | inl error =>
            (failed ("Error: " ++ JS.messageOf "Unknown error occurred" error),
             effects)
        | inr response =>
            let immediateError :=
              if response_success response then None
              else JS.or_null (response_error response) in
            match immediateError with
            | Some error => (failed ("Error: " ++ error), effects)
            | None =>
                match response_attachments response with
                | Some ((_ :: _) as saved) =>
                    (mkView "" [] None (workspaceDir v)
                       (map (updateSaved (msg_id userMessage) saved) shown) true,
                     effects)
                | _ => (mkView "" [] None (workspaceDir v) shown true, effects)
                end
            end
        end
    end.

(** *** The auto-save effect *)

(** What the callback of a save timer closed over: the dependencies of the
    effect as they were in the render that started it. *)
Record Snapshot : Type := mkSnapshot {
  snap_messages : list Message;
  snap_conversationId : option string;
  snap_sessionId : option string
}.

Record Timer : Type := mkTimer {
  timer_id : nat;
  deadline : Z;
  closure : Snapshot
}.

(** The dependencies of the effect as last rendered, the two refs it uses,
    whether its last run returned a cleanup, and the browser: its clock,
    its pending timers and the handle the next [setTimeout] returns (handles
    are positive, so a handle in [saveTimeoutRef] is truthy). *)
Record Saver : Type := mkSaver {
  rendered : Snapshot;
  saveTimeoutRef : option nat;
  isInitialLoadRef : bool;
  hasCleanup : bool;
  clock : Z;
  timers : list Timer;
  nextTimerId : nat;
  writes : list Effect
}.

Definition SAVE_DELAY : Z := 2000.

Definition clearTimeout (id : nat) (s : Saver) : Saver :=
  mkSaver (rendered s) (saveTimeoutRef s) (isInitialLoadRef s) (hasCleanup s) (clock s)
    (filter (fun t => negb (Nat.eqb (timer_id t) id)) (timers s))
    (nextTimerId s) (writes s).

(** [if (saveTimeoutRef.current) clearTimeout(saveTimeoutRef.current)]. *)
Definition clearSaveTimeout (s : Saver) : Saver :=
  match saveTimeoutRef s with
  | Some id => clearTimeout id s
  | None => s
  end.

(** [saveTimeoutRef.current = setTimeout(callback, delay)]. *)
Definition scheduleSave (delay : Z) (s : Saver) : Saver :=
  let id := nextTimerId s in
  mkSaver (rendered s) (Some id) (isInitialLoadRef s) (hasCleanup s) (clock s)
    (timers s ++ [mkTimer id (clock s + delay) (rendered s)])
    (S id) (writes s).

Definition set_flags (initialLoad cleanup : bool) (s : Saver) : Saver :=
  mkSaver (rendered s) (saveTimeoutRef s) initialLoad cleanup (clock s) (timers s)
    (nextTimerId s) (writes s).

(** The body of the effect. *)
Definition autoSaveEffect (s : Saver) : Saver :=
  if isInitialLoadRef s then set_flags false false s
  else
    match snap_messages (rendered s) with
    | [] => set_flags false false s
    | _ => set_flags false true (scheduleSave SAVE_DELAY (clearSaveTimeout s))
    end.

(** A render whose dependencies changed: the cleanup of the last run, if it
    returned one, then the body. *)
Definition runEffect (s : Saver) : Saver :=
  autoSaveEffect (if hasCleanup s then clearSaveTimeout s else s).

Definition set_rendered (r : Snapshot) (s : Saver) : Saver :=
  mkSaver r (saveTimeoutRef s) (isInitialLoadRef s) (hasCleanup s) (clock s) (timers s)
    (nextTimerId s) (writes s).

Definition option_string_eqb (a b : option string) : bool :=
  match a, b with
  | Some x, Some y => String.eqb x y
  | None, None => true
  | _, _ => false
  end.

(** [setMessages(...)]: every call site passes a fresh array, so the
    dependency always changes. *)
Definition setMessages (ms : list Message) (s : Saver) : Saver :=
  let r := rendered s in
  runEffect (set_rendered (mkSnapshot ms (snap_conversationId r) (snap_sessionId r)) s).

(** [setCurrentConversationId(id)]: a render only when the value changes. *)
Definition setCurrentConversationId (id : option string) (s : Saver) : Saver :=
  let r := rendered s in
  if option_string_eqb (snap_conversationId r) id then s
  else runEffect (set_rendered (mkSnapshot (snap_messages r) id (snap_sessionId r)) s).

(** [setCurrentSessionId(id)], as [onSessionUpdated] calls it. *)
Definition setCurrentSessionId (id : option string) (s : Saver) : Saver :=
  let r := rendered s in
  if option_string_eqb (snap_sessionId r) id then s
  else runEffect (set_rendered (mkSnapshot (snap_messages r) (snap_conversationId r) id) s).

Definition record_write (w : Effect) (s : Saver) : Saver :=
  mkSaver (rendered s) (saveTimeoutRef s) (isInitialLoadRef s) (hasCleanup s) (clock s)
    (timers s) (nextTimerId s) (writes s ++ [w]).

(** What [conversation.create] answers: the id of the new conversation when
    [response.success && response.conversation], nothing otherwise (also
    when the call throws). *)
Definition Store : Type := list PersistedMessage -> option string -> option string.

(** The callback of the save timer. *)
Definition saveCallback (store : Store) (c : Snapshot) (s : Saver) : Saver :=
  let messagesToSave := serializeMessagesForStorage (snap_messages c) in
  match JS.or_null (snap_conversationId c) with
  | Some currentConversationId =>
      record_write
        (ConversationUpdate currentConversationId messagesToSave (snap_sessionId c)) s
  | None =>
      let s := record_write (ConversationCreate messagesToSave (snap_sessionId c)) s in
      match store messagesToSave (snap_sessionId c) with
      | Some id => setCurrentConversationId (Some id) s
      | None => s
      end
  end.

(** The pending timer that is due first at time [t], if one is. *)
Fixpoint nextDue (t : Z) (ts : list Timer) : option Timer :=
  match ts with
  | [] => None
  | x :: ts' =>
      match nextDue t ts' with
      | Some y =>
          if (deadline x <=? t) && (deadline x <=? deadline y) then Some x else Some y
      | None => if deadline x <=? t then Some x else None
      end
  end.

Definition set_clock (t : Z) (s : Saver) : Saver :=
  mkSaver (rendered s) (saveTimeoutRef s) (isInitialLoadRef s) (hasCleanup s)
    (Z.max (clock s) t) (timers s) (nextTimerId s) (writes s).

(** The event loop up to time [t]: the timers that are due run in the order
    of their deadlines, each at its deadline. *)
Fixpoint runTimers (fuel : nat) (store : Store) (t : Z) (s : Saver) : Saver :=
  match fuel with
  | O => set_clock t s
  | S fuel' =>
      match nextDue t (timers s) with
      | Some x =>
          runTimers fuel' store t
            (saveCallback store (closure x)
               (clearTimeout (timer_id x) (set_clock (deadline x) s)))
      | None => set_clock t s
      end
  end.

(** A timer that creates a conversation may start one more timer, which
    then updates it: twice the number of pending timers is fuel enough. *)
Definition advance (store : Store) (t : Z) (s : Saver) : Saver :=
  runTimers (2 * List.length (timers s)) store t s.

(** The component once mounted: the effect has run on the first render and
    has consumed the initial-load flag. *)
Definition mounted (clock : Z) : Saver :=
  runEffect (mkSaver (mkSnapshot [] None None) None true false clock [] 1%nat []).

Inductive Event : Type :=
| Mutate (at_time : Z) (ms : list Message)
| SessionUpdated (at_time : Z) (sessionId : option string)
| MarkInitialLoad
| Wait (until : Z).

(** [MarkInitialLoad] is the assignment [isInitialLoadRef.current = true]
    that [handleNewChat] and [handleLoadConversation] make next to their
    [setMessages]. *)
Definition step (store : Store) (s : Saver) (ev : Event) : Saver :=
  match ev with
  | Mutate t ms => setMessages ms (advance store t s)
  | SessionUpdated t id => setCurrentSessionId id (advance store t s)
  | MarkInitialLoad => set_flags true (hasCleanup s) s
  | Wait t => advance store t s
  end.

Definition run (store : Store) (s : Saver) (evs : list Event) : Saver :=
  fold_left (step store) evs s.

End Chat.

(** ** [src/main/lib/updater.ts] *)

Module Updater.

(** A JavaScript number that holds a percentage, as the rational it is. *)
Definition Number : Type := QArith_base.Q.

Definition zero : Number := QArith_base.Qmake 0 1.
Definition hundred : Number := QArith_base.Qmake 100 1.

Record UpdateInfo : Type := mkUpdateInfo {
  version : string;
  releaseDate : string;
  releaseNotes : option string
}.

Record UpdateStatus : Type := mkStatus {
  checking : bool;
  updateAvailable : bool;
  downloading : bool;
  downloadProgress : Number;
  readyToInstall : bool;
  error : option string;
  updateInfo : option UpdateInfo;
  lastCheckComplete : bool
}.

Definition initialStatus : UpdateStatus :=
  mkStatus false false false zero false None None false.

(** The constants the module computes when it is loaded: the environment
    variables [UPDATE_FEED_URL] and [ELECTRON_RENDERER_URL], and
    [app.isPackaged]. *)
Record Setup : Type := mkSetup {
  UPDATE_FEED_URL : option string;
  isPackaged : bool;
  ELECTRON_RENDERER_URL : option string
}.

Definition hasCustomFeed (c : Setup) : bool :=
  match UPDATE_FEED_URL c with
  | Some url => JS.truthy url
  | None => false
  end.

Definition updatesConfigured (c : Setup) : bool := hasCustomFeed c || isPackaged c.

(** [process.env.ELECTRON_RENDERER_URL !== undefined]. *)
Definition isDev (c : Setup) : bool :=
  match ELECTRON_RENDERER_URL c with
  | Some _ => true
  | None => false
  end.

Definition CHECK_INTERVAL_MS : Z := 4 * 60 * 60 * 1000.

(** What the event [update-available] carries, as the handler reads it. *)
Inductive ReleaseDate : Type :=
| DateString (s : string)
| DateObject (time : option Z).

Inductive Note : Type :=
| NoteString (s : string)
| NoteObject (note : option string).

Inductive ReleaseNotes : Type :=
| NotesString (s : string)
| NotesArray (notes : list Note).

Record RawInfo : Type := mkRawInfo {
  raw_version : string;
  raw_releaseDate : option ReleaseDate;
  raw_releaseNotes : option ReleaseNotes
}.

Inductive AutoUpdaterEvent : Type :=
| CheckingForUpdate
| UpdateAvailable (info : RawInfo)
| UpdateNotAvailable
| ErrorEvent (message : string)
| DownloadProgress (percent : Number)
| UpdateDownloaded.

(** What the callback of a [setTimeout] of the module does: it clears
    [lastCheckComplete], or [lastCheckComplete] and [error]. *)
Inductive TimeoutAction : Type := ClearCheckComplete | ClearError.

Record Timeout : Type := mkTimeout {
  timeout_id : nat;
  due : Z;
  action : TimeoutAction
}.

Inductive Window : Type := Alive | Destroyed.

(** What the module does to the outside, in order. *)
Inductive Effect : Type :=
| Notify (status : UpdateStatus)
| AutoCheckForUpdates
| AutoDownloadUpdate
| QuitAndInstall (isSilent isForceRunAfter : bool).

(** The variables of the module ([currentStatus], [mainWindow],
    [checkInterval]), how many times the listeners were registered on
    [autoUpdater], and the timers and the clock of the process. *)
Record State : Type := mkState {
  currentStatus : UpdateStatus;
  mainWindow : option Window;
  checkInterval : option nat;
  listeners : nat;
  clock : Z;
  timeouts : list Timeout;
  intervals : list nat;
  nextTimerId : nat;
  log : list Effect
}.

Definition initial (clock : Z) : State :=
  mkState initialStatus None None 0 clock [] [] 1 [].

Definition set_status (st : UpdateStatus) (s : State) : State :=
  mkState st (mainWindow s) (checkInterval s) (listeners s) (clock s) (timeouts s)
    (intervals s) (nextTimerId s) (log s).

Definition emit (e : Effect) (s : State) : State :=
  mkState (currentStatus s) (mainWindow s) (checkInterval s) (listeners s) (clock s)
    (timeouts s) (intervals s) (nextTimerId s) (log s ++ [e]).

Definition notifyStatusChange (s : State) : State :=
  match mainWindow s with
  | Some Alive => emit (Notify (currentStatus s)) s
  | _ => s
  end.

Definition setTimeout (a : TimeoutAction) (delay : Z) (s : State) : State :=
  mkState (currentStatus s) (mainWindow s) (checkInterval s) (listeners s) (clock s)
    (timeouts s ++ [mkTimeout (nextTimerId s) (clock s + delay) a])
    (intervals s) (S (nextTimerId s)) (log s).

(** [error.message || fallback]. *)
Definition messageOr (fallback message : string) : string :=
  if JS.truthy message then message else fallback.

Definition releaseDateOf (now : Z) (d : option ReleaseDate) : string :=
  match d with
  | Some (DateString s) => if JS.truthy s then s else Chat.toISOString now
  | Some (DateObject (Some time)) => Chat.toISOString time
  | Some (DateObject None) => Chat.toISOString now
  | None => Chat.toISOString now
  end.

Definition noteText (n : Note) : string :=
  match n with
  | NoteString s => s
  | NoteObject (Some s) => s
  | NoteObject None => ""
  end.

Definition releaseNotesOf (n : option ReleaseNotes) : option string :=
  match n with
  | Some (NotesString s) => if JS.truthy s then Some s else None
  | Some (NotesArray notes) => Some (String.concat (JS.bytes [10%nat]) (map noteText notes))
  | None => None
  end.

(** The status after the callback of a timeout. *)
Definition cleared (a : TimeoutAction) (st : UpdateStatus) : UpdateStatus :=
  match a with
  | ClearCheckComplete =>
      mkStatus (checking st) (updateAvailable st) (downloading st) (downloadProgress st)
        (readyToInstall st) (error st) (updateInfo st) false
  | ClearError =>
      mkStatus (checking st) (updateAvailable st) (downloading st) (downloadProgress st)
        (readyToInstall st) None (updateInfo st) false
  end.

(** One listener of [initializeUpdater] handling one event. *)
Definition listener (ev : AutoUpdaterEvent) (s : State) : State :=
  let st := currentStatus s in
  match ev with
  | CheckingForUpdate =>
      notifyStatusChange
        (set_status
           (mkStatus true (updateAvailable st) (downloading st) (downloadProgress st)
              (readyToInstall st) None (updateInfo st) (lastCheckComplete st)) s)
  | UpdateAvailable info =>
      notifyStatusChange
        (set_status
           (mkStatus false true (downloading st) (downloadProgress st) (readyToInstall st)
              (error st)
              (Some (mkUpdateInfo (raw_version info)
                       (releaseDateOf (clock s) (raw_releaseDate info))
                       (releaseNotesOf (raw_releaseNotes info))))
              (lastCheckComplete st)) s)
  | UpdateNotAvailable =>
      setTimeout ClearCheckComplete 3000
        (notifyStatusChange
           (set_status
              (mkStatus false false (downloading st) (downloadProgress st)
                 (readyToInstall st) (error st) None true) s))
  | ErrorEvent message =>
      setTimeout ClearError 5000
        (notifyStatusChange
           (set_status
              (mkStatus false (updateAvailable st) false (downloadProgress st)
                 (readyToInstall st) (Some (messageOr "Unknown error occurred" message))
                 (updateInfo st) true) s))
  | DownloadProgress percent =>
      notifyStatusChange
        (set_status
           (mkStatus (checking st) (updateAvailable st) true percent (readyToInstall st)
              (error st) (updateInfo st) (lastCheckComplete st)) s)
  | UpdateDownloaded =>
      notifyStatusChange
        (set_status
           (mkStatus (checking st) (updateAvailable st) false hundred true (error st)
              (updateInfo st) (lastCheckComplete st)) s)
  end.

(** [initializeUpdater(window)]: it keeps the window and registers one
    more listener for each event. *)
Definition initializeUpdater (window : option Window) (s : State) : State :=
  mkState (currentStatus s) window (checkInterval s) (S (listeners s)) (clock s)
    (timeouts s) (intervals s) (nextTimerId s) (log s).

(** [autoUpdater] emitting an event: every registered listener runs. *)
Definition dispatch (ev : AutoUpdaterEvent) (s : State) : State :=
  Nat.iter (listeners s) (listener ev) s.

Definition checkForUpdates (c : Setup) (s : State) : State :=
  let st := currentStatus s in
  if isDev c && negb (hasCustomFeed c) then
    setTimeout ClearError 3000
      (notifyStatusChange
         (set_status
            (mkStatus false (updateAvailable st) (downloading st) (downloadProgress st)
               (readyToInstall st)
               (Some "Update checks are disabled in development mode")
               (updateInfo st) true) s))
  else if negb (updatesConfigured c) then
    setTimeout ClearError 4000
      (notifyStatusChange
         (set_status
            (mkStatus false (updateAvailable st) false (downloadProgress st)
               (readyToInstall st) (Some "Auto-update feed is not configured")
               (updateInfo st) true) s))
  else if checking st || downloading st then s
  else
    emit AutoCheckForUpdates
      (notifyStatusChange
         (set_status
            (mkStatus (checking st) (updateAvailable st) (downloading st)
               (downloadProgress st) (readyToInstall st) None (updateInfo st) false) s)).

(** The [catch] of [autoUpdater.checkForUpdates()]. *)
Definition checkRejected (message : string) (s : State) : State :=
  let st := currentStatus s in
  setTimeout ClearError 5000
    (notifyStatusChange
       (set_status
          (mkStatus false (updateAvailable st) (downloading st) (downloadProgress st)
             (readyToInstall st) (Some (messageOr "Failed to check for updates" message))
             (updateInfo st) true) s)).

Definition downloadUpdate (s : State) : State :=
  let st := currentStatus s in
  if negb (updateAvailable st) || downloading st then s
  else emit AutoDownloadUpdate s.

(** The [catch] of [autoUpdater.downloadUpdate()]. *)
Definition downloadRejected (message : string) (s : State) : State :=
  let st := currentStatus s in
  notifyStatusChange
    (set_status
       (mkStatus (checking st) (updateAvailable st) false (downloadProgress st)
          (readyToInstall st) (Some (messageOr "Failed to download update" message))
          (updateInfo st) (lastCheckComplete st)) s).

Definition installUpdate (s : State) : State :=
  if negb (readyToInstall (currentStatus s)) then s
  else emit (QuitAndInstall false true) s.

Definition getUpdateStatus (s : State) : UpdateStatus := currentStatus s.

Definition clearInterval (id : nat) (s : State) : State :=
  mkState (currentStatus s) (mainWindow s) (checkInterval s) (listeners s) (clock s)
    (timeouts s) (filter (fun i => negb (Nat.eqb i id)) (intervals s)) (nextTimerId s)
    (log s).

(** [checkInterval = setInterval(...)]. *)
Definition setCheckInterval (s : State) : State :=
  mkState (currentStatus s) (mainWindow s) (Some (nextTimerId s)) (listeners s) (clock s)
    (timeouts s) (intervals s ++ [nextTimerId s]) (S (nextTimerId s)) (log s).

Definition startPeriodicUpdateCheck (c : Setup) (s : State) : State :=
  if negb (updatesConfigured c) then s
  else
    let s := checkForUpdates c s in
    let s :=
      match checkInterval s with
      | Some id => clearInterval id s
      | None => s
      end in
    setCheckInterval s.

Definition stopPeriodicUpdateCheck (s : State) : State :=
  match checkInterval s with
  | Some id =>
      let s := clearInterval id s in
      mkState (currentStatus s) (mainWindow s) None (listeners s) (clock s) (timeouts s)
        (intervals s) (nextTimerId s) (log s)
  | None => s
  end.

(** *** The timers *)

Fixpoint insertByDue (x : Timeout) (l : list Timeout) : list Timeout :=
  match l with
  | [] => [x]
  | y :: l' => if due x <? due y then x :: y :: l' else y :: insertByDue x l'
  end.

(** The timeouts in the order in which they fire: by due time, and by age
    among those due together. *)
Definition byDue (l : list Timeout) : list Timeout :=
  fold_left (fun sorted x => insertByDue x sorted) l [].

Definition fire (s : State) (x : Timeout) : State :=
  let s :=
    mkState (cleared (action x) (currentStatus s)) (mainWindow s) (checkInterval s)
      (listeners s) (Z.max (clock s) (due x)) (timeouts s) (intervals s) (nextTimerId s)
      (log s) in
  notifyStatusChange s.

(** The clock moves to [t]: the timeouts due by then fire, none of them
    starts another. *)
Definition elapse (t : Z) (s : State) : State :=
  let dueNow := byDue (filter (fun x => due x <=? t) (timeouts s)) in
  let later := filter (fun x => negb (due x <=? t)) (timeouts s) in
  let s := fold_left fire dueNow s in
  mkState (currentStatus s) (mainWindow s) (checkInterval s) (listeners s)
    (Z.max (clock s) t) later (intervals s) (nextTimerId s) (log s).

(** What happens to the module, from inside the process and from outside. *)
Inductive Call : Type :=
| Initialize (window : option Window)
| CheckForUpdates
| DownloadUpdate
| InstallUpdate
| StartPeriodic
| StopPeriodic
| Emitted (ev : AutoUpdaterEvent)
| CheckRejected (message : string)
| DownloadRejected (message : string)
| IntervalTick (id : nat)
| WindowClosed
| Elapse (t : Z).

Definition step (c : Setup) (s : State) (call : Call) : State :=
  match call with
  | Initialize window => initializeUpdater window s
  | CheckForUpdates => checkForUpdates c s
  | DownloadUpdate => downloadUpdate s
  | InstallUpdate => installUpdate s
  | StartPeriodic => startPeriodicUpdateCheck c s
  | StopPeriodic => stopPeriodicUpdateCheck s
  | Emitted ev => dispatch ev s
  | CheckRejected message => checkRejected message s
  | DownloadRejected message => downloadRejected message s
  | IntervalTick id =>
      if existsb (Nat.eqb id) (intervals s) then checkForUpdates c s else s
  | WindowClosed =>
      match mainWindow s with
      | Some _ =>
          mkState (currentStatus s) (Some Destroyed) (checkInterval s) (listeners s)
            (clock s) (timeouts s) (intervals s) (nextTimerId s) (log s)
      | None => s
      end
  | Elapse t => elapse t s
  end.

Definition run (c : Setup) (s : State) (calls : list Call) : State :=
  fold_left (step c) calls s.

(** *** Observations *)

(** How many times [autoUpdater.checkForUpdates()] was called. *)
Fixpoint checkRequests (l : list Effect) : nat :=
  match l with
  | [] => O
  | AutoCheckForUpdates :: l' => S (checkRequests l')
  | _ :: l' => checkRequests l'
  end.

(** How many times [autoUpdater.downloadUpdate()] was called. *)
Fixpoint downloadRequests (l : list Effect) : nat :=
  match l with
  | [] => O
  | AutoDownloadUpdate :: l' => S (downloadRequests l')
  | _ :: l' => downloadRequests l'
  end.

(** The status the window was sent last; before any, the initial one. *)
Definition shown (l : list Effect) : UpdateStatus :=
  fold_left (fun last e => match e with Notify st => st | _ => last end) l initialStatus.

(** The interval the module holds in [checkInterval]. *)
Definition heldInterval (s : State) : list nat :=
  match checkInterval s with
  | Some id => [id]
  | None => []
  end.

(** The window of the module stays the live one. *)
Definition keepsWindow (call : Call) : Prop :=
  match call with
  | WindowClosed => False
  | Initialize window => window = Some Alive
  | _ => True
  end.

(** A setup in which checks reach the feed: it is configured, and the
    process is not a development one without a feed of its own. *)
Definition reachesFeed (c : Setup) : bool :=
  updatesConfigured c && negb (isDev c && negb (hasCustomFeed c)).

Definition packagedSetup : Setup := mkSetup None true None.

Definition devSetup : Setup := mkSetup None false (Some "http://localhost:5173").

(** The module of a packaged application, initialized once with a live
    window. *)
Definition ready (clock : Z) : State :=
  initializeUpdater (Some Alive) (initial clock).

(** How many times [autoUpdater.quitAndInstall] was called. *)
Fixpoint installRequests (l : list Effect) : nat :=
  match l with
  | [] => O
  | QuitAndInstall _ _ :: l' => S (installRequests l')
  | _ :: l' => installRequests l'
  end.

(** Anything but [autoUpdater] emitting [update-downloaded]. *)
Definition notDownloaded (call : Call) : Prop :=
  match call with
  | Emitted UpdateDownloaded => False
  | _ => True
  end.

(** Anything but [autoUpdater] emitting [update-available]. *)
Definition notAvailable (call : Call) : Prop :=
  match call with
  | Emitted (UpdateAvailable _) => False
  | _ => True
  end.

(** The status is one of an idle module: no check and no download runs. *)
Definition idle (st : UpdateStatus) : Prop :=
  checking st = false /\ downloading st = false.

(** The module after an error event, and a second one four seconds later. *)
Definition twoErrors : State :=
  run packagedSetup (ready 0)
    [Emitted (ErrorEvent "first"); Elapse 4000; Emitted (ErrorEvent "second")].

(** What [autoUpdater] tells of an update it announces. *)
Definition sampleInfo : RawInfo :=
  mkRawInfo "1.2.3" (Some (DateString "2025-01-01T00:00:00.000Z"))
    (Some (NotesArray [NoteString "fixes"; NoteObject None])).

(** A call that reports a failed check: the [error] event of [autoUpdater]
    reaching a listener, the rejection of [autoUpdater.checkForUpdates()],
    or a check asked for in a setup that does not reach the feed. *)
Definition reportsCheckError (c : Setup) (s : State) (call : Call) : Prop :=
  match call with
  | Emitted (ErrorEvent _) => (1 <= listeners s)%nat
  | CheckRejected _ => True
  | CheckForUpdates => reachesFeed c = false
  | _ => False
  end.

(** No pending timeout clears the error. *)
Definition noErrorTimer (s : State) : Prop :=
  Forall (fun x => action x = ClearCheckComplete) (timeouts s).

(** What the module refuses after an event: a check, asked for by a caller
    or by the interval, once a check or a download is under way; a
    download too once a download is under way. *)
Definition refusedAfter (ev : AutoUpdaterEvent) (call : Call) : Prop :=
  match ev, call with
  | CheckingForUpdate, (CheckForUpdates | IntervalTick _) => True
  | DownloadProgress _, (CheckForUpdates | IntervalTick _ | DownloadUpdate) => True
  | _, _ => False
  end.

(** No update was announced and no download was asked for. *)
Definition nothingOffered (s : State) : Prop :=
  updateAvailable (currentStatus s) = false /\ downloadRequests (log s) = 0%nat.

(** No update was downloaded and no installation was asked for. *)
Definition nothingReady (s : State) : Prop :=
  readyToInstall (currentStatus s) = false /\ installRequests (log s) = 0%nat.

(** A predicate on states that looks at the status and at the log only. *)
Definition ofStatusAndLog (I : State -> Prop) : Prop :=
  forall s s', currentStatus s' = currentStatus s -> log s' = log s -> I s -> I s'.

(** An operation left the timers of the polling, the window and the
    listeners alone, and kept the window informed if it was. *)
Definition undisturbed (s s' : State) : Prop :=
  intervals s' = intervals s
  /\ checkInterval s' = checkInterval s
  /\ mainWindow s' = mainWindow s
  /\ listeners s' = listeners s
  /\ (mainWindow s = Some Alive ->
      shown (log s) = currentStatus s -> shown (log s') = currentStatus s').

(** An operation asked [autoUpdater] for nothing. *)
Definition silent (s s' : State) : Prop :=
  checkRequests (log s') = checkRequests (log s)
  /\ downloadRequests (log s') = downloadRequests (log s).

Ltac unfold_updater :=
  cbv [checkForUpdates checkRejected downloadUpdate downloadRejected installUpdate
       startPeriodicUpdateCheck stopPeriodicUpdateCheck initializeUpdater listener
       setCheckInterval clearInterval setTimeout notifyStatusChange emit set_status
       fire];
  cbn [currentStatus mainWindow checkInterval listeners clock timeouts intervals
       nextTimerId log].

Ltac frame :=
  unfold undisturbed, silent; unfold_updater;
  repeat split; try reflexivity;
  try (intros; autorewrite with updater_log; cbn [currentStatus log];
       first [reflexivity | assumption | discriminate]);
  try (autorewrite with updater_log; cbn; lia).

End Updater.

(** ** More of the config handlers *)

Module SettingsHandlers.


Definition set_debugMode (v : option bool) (c : AppConfig) : AppConfig :=
  mkConfig (Config.workspaceDir c) v (apiKey c) (anthropicBaseUrl c) (oauthTokens c).

Section WorkspaceDir.

(** [ensureWorkspaceDir] is defined in config.ts, which is not among the
    sources: it is a parameter here, any computation of the main process
    that may throw. *)
Variable ensureWorkspaceDir : M unit.


End WorkspaceDir.

(** ['config:set-debug-mode']. *)
Definition set_debug_mode (debugMode : bool) : M OAuthHandlers.SuccessResponse :=
  config <- loadConfig ;;
  saveConfig (set_debugMode (Some debugMode) config) ;;;
  Eff.ret (OAuthHandlers.mkSuccess true None).

Record PathInfo : Type := mkPathInfo {
  platform : string;
  pathSeparator : string;
  pathEntries : list string;
  pathCount : nat;
  fullPath : string
}.

Definition separatorOf (platform : string) : ascii :=
  if String.eqb platform "win32" then ";"%char else ":"%char.

(** ['config:get-path-info'].  [process.platform] and the result of
    [buildEnhancedPath()], which is defined in config.ts, are arguments. *)
Definition get_path_info (platform enhancedPath : string) : PathInfo :=
  let pathSeparator := separatorOf platform in
  let pathEntries :=
    filter (fun p => JS.truthy (JS.trim p)) (JS.split pathSeparator enhancedPath) in
  mkPathInfo platform (String pathSeparator "") pathEntries (List.length pathEntries)
    enhancedPath.

(** *** Masking of environment values *)

(** The value of an environment variable as its UTF-16 code units: the
    code measures and slices it by index. *)
Definition Units : Type := list N.

(** [pattern.test(key)] for a pattern of ASCII capitals with the [i] flag
    and without the [u] flag: a character of the key matches a capital
    when it is that capital or its small letter. *)
Definition matches_ci (pattern key : string) : bool :=
  JS.includes (JS.toLowerCase key) (JS.toLowerCase pattern).

Definition sensitivePatterns : list string :=
  ["KEY"; "SECRET"; "PASSWORD"; "TOKEN"; "AUTH"; "CREDENTIAL"; "PRIVATE"].

(** Four bullets, U+2022. *)
Definition bullets : Units := [8226; 8226; 8226; 8226]%N.

(** [value.slice(-4)]. *)
Definition lastFour (value : Units) : Units :=
  skipn (List.length value - 4) value.

Definition maskValue (key : string) (value : Units) : Units :=
  let isSensitive := existsb (fun pattern => matches_ci pattern key) sensitivePatterns in
  if negb isSensitive then value
  else if (List.length value <=? 8)%nat then bullets
  else (firstn 4 value ++ bullets ++ lastFour value)%list.

End SettingsHandlers.

(** ** Vocabulary of the properties *)

Import OAuthHandlers ConfigHandlers.

(** The requests a trace holds, in order. *)
Fixpoint fetches (tr : list Main.Effect) : list Request :=
  match tr with
  | [] => []
  | Fetch r :: tr' => r :: fetches tr'
  | _ :: tr' => fetches tr'
  end.

(** The configs a trace saved, in order. *)
Fixpoint saves (tr : list Main.Effect) : list AppConfig :=
  match tr with
  | [] => []
  | SaveConfig c :: tr' => c :: saves tr'
  | _ :: tr' => saves tr'
  end.

(** A refresh fails when the request errors or the endpoint rejects it. *)
Definition refreshFails (r : FetchResult TokenJson) : Prop :=
  match r with
  | FetchRejected _ => True
  | FetchResponse ok _ => ok = false
  end.

Definition refreshRequest (t : OAuthTokens) : Request :=
  RefreshTokenGrant (refresh t) CLIENT_ID.

(** The alphabet of base64url, in which [generatePKCE] of
    @openauthjs/openauth writes the verifier and the challenge. *)
Definition base64url_char (c : ascii) : bool :=
  let n := nat_of_ascii c in
  (((48 <=? n) && (n <=? 57)) || ((65 <=? n) && (n <=? 90))
   || ((97 <=? n) && (n <=? 122)) || (n =? 45) || (n =? 95))%nat.

Fixpoint base64url (s : string) : bool :=
  match s with
  | EmptyString => true
  | String c s' => base64url_char c && base64url s'
  end.

Ltac run_main :=
  cbv [getValidAccessToken getOAuthTokens saveOAuthTokens clearOAuthTokens
       refreshAccessToken exchangeCodeForTokens createApiKey
       loadConfig saveConfig emit set_verifier get_verifier
       generatePKCEChallenge openExternal
       start_login complete_login cancel get_status logout get_access_token
       setApiKey getApiKeyStatus get_api_key_status set_api_key
       Eff.bind Eff.ret Eff.get Eff.modify Eff.throw Eff.try_catch];
  cbn [config currentPKCEVerifier processEnv trace fst snd].

Ltac simpl_state :=
  cbn [config currentPKCEVerifier processEnv trace fst snd];
  repeat rewrite <- app_assoc; cbn [app].

(** The endpoint [getAuthorizationUrl] picks for a mode. *)
Definition authorizationEndpoint (mode : AuthMode) : string :=
  match mode with
  | max => AUTHORIZATION_ENDPOINT_MAX
  | console => AUTHORIZATION_ENDPOINT_CONSOLE
  end.

(** ** Sample inputs *)

Definition sampleTokens : OAuthTokens := mkTokens "refresh-0" "access-0" 1000000.

Definition sampleState : State :=
  mkState (mkConfig None None None None (Some sampleTokens)) None
    (Config.mkEnv None None) [].

(** An endpoint that rejects every token request. *)
Definition rejecting (at_time : Z) : Env :=
  OAuth.mkEnv at_time 40 (fun _ => FetchResponse false None)
    (fun _ => FetchResponse false None).

(** An endpoint that grants every token request the same new pair. *)
Definition granting (at_time : Z) : Env :=
  OAuth.mkEnv at_time 40
    (fun _ => FetchResponse true (Some (mkTokenJson "refresh-1" "access-1" 3600)))
    (fun _ => FetchResponse true (Some (mkKeyJson "sk-ant-created"))).

Definition emptyConfig : AppConfig := mkConfig None None None None None.

(** A pair whose stored expiry is the number [0]. *)
Definition zeroExpiryState : State :=
  mkState (mkConfig None None None None (Some (mkTokens "refresh-0" "access-0" 0)))
    None (Config.mkEnv None None) [].

(** A process started with [ANTHROPIC_API_KEY] set. *)
Definition envKeyState : State :=
  mkState emptyConfig None (Config.mkEnv (Some "sk-ant-env") None) [].

Definition samplePKCE : PKCEChallenge :=
  mkPKCE "E9Melhoa2OwvFrEMTJguCHaoeK1t8URWbuGJSstw-cM"
    "dBjftJeZ4CVP-mB92K27uhbUJU1p1r_wW1gFWFOEjXk".

(** A login flow in which the token endpoint refuses the code. *)
Definition refusedLogin : HandlerEnv :=
  mkHandlerEnv (rejecting 0) (inr samplePKCE) None.

(** A login flow in which the token endpoint grants the code. *)
Definition grantedLogin : HandlerEnv :=
  mkHandlerEnv (granting 0) (inr samplePKCE) None.

Definition loggedOutState : State :=
  mkState emptyConfig None (Config.mkEnv None None) [].

(** ** Vocabulary of the chat view *)

Import Chat.

(** The [chat.sendMessage] requests among the effects of a handler. *)
Fixpoint sendRequests (effects : list Chat.Effect) : list SendMessagePayload :=
  match effects with
  | [] => []
  | ChatSendMessage payload :: rest => payload :: sendRequests rest
  | _ :: rest => sendRequests rest
  end.

(** The name and the size of a file, and those of the attachments a
    [chat.sendMessage] request carries. *)
Definition nameAndSize (file : File) : string * Z := (file_name file, file_size file).

Definition carried (payload : SendMessagePayload) : list (string * Z) :=
  match send_attachments payload with
  | Some payloads => map (fun p => (payload_name p, payload_size p)) payloads
  | None => []
  end.

Definition withinLimit (limit : Z) (file : File) : bool := file_size file <=? limit.

Definition oversized (limit : Z) (file : File) : bool := limit <? file_size file.

(** The last file of a selection that is over the limit. *)
Definition lastOversized (limit : Z) (files : list File) : option File :=
  List.last (map Some (filter (oversized limit) files)) None.

(** The attachments made of the files of a selection that pass the gate,
    the first of them being the [index]-th accepted one. *)
Fixpoint acceptAll (e : FileEnv) (index : nat) (files : list File)
  : list PendingAttachment :=
  match files with
  | [] => []
  | file :: rest => acceptFile e index file :: acceptAll e (S index) rest
  end.

(** A sample limit of 32 MiB, and files around it. *)
Definition sampleLimit : Z := 32 * 1024 * 1024.

Definition smallFile : File := mkFile "notes.txt" 2048 "text/plain".
Definition exactFile : File := mkFile "disk.img" (32 * 1024 * 1024) "".
Definition hugeFile1 : File := mkFile "huge-1.iso" (32 * 1024 * 1024 + 1) "".
Definition hugeFile2 : File := mkFile "huge-2.iso" (64 * 1024 * 1024) "".

(** A reader under which every file reads well. *)
Definition readableFiles : FileEnv :=
  mkFileEnv (fun k => "uuid-" ++ JS.toString (Z.of_nat k))
    (fun file => inr ("data:;base64," ++ file_name file))
    (fun _ => None).

Definition emptyView : View := mkView "" [] None None [] false.

(** A typed greeting with one small file attached, and the two ways the
    submission can go: the file reads, or reading it fails. *)
Definition greetingView : View :=
  mkView "  hello " [mkPending "uuid-0" smallFile None false false] None None [] false.

Definition acceptingPeer : SendMessagePayload -> JS.Thrown + SendMessageResponse :=
  fun _ => inr (mkResponse true None None).

Definition readableSend : SendEnv :=
  mkSendEnv 1700000000000 (fun _ => inr "bytes") 1700000000250 acceptingPeer.

Definition unreadableSend : SendEnv :=
  mkSendEnv 1700000000000
    (fun _ => inl (JS.ErrorObject "The requested file could not be read"))
    1700000000250 acceptingPeer.

(** The user message a submission shows. *)
Definition userMessageOf (e : SendEnv) (v : View) : Message :=
  mkMessage (JS.toString (dateNow e)) user (JS.trim (inputValue v)) (dateNow e)
    (some_if_nonempty (map messageAttachmentOf (pendingAttachments v))).

(** The guard of [handleSendMessage]: nothing to send, or a turn is
    streaming. *)
Definition nothingToSubmit (v : View) : Prop :=
  (JS.trim (inputValue v) = "" /\ pendingAttachments v = [])
  \/ isLoading v = true.

(** ** Vocabulary of the auto-save *)

Definition sampleMessage1 : Message :=
  mkMessage "1700000000000" user "hello" 1700000000000 None.

Definition sampleMessage2 : Message :=
  mkMessage "1700000000400" assistant "Hi! How can I help?" 1700000000400 None.

(** A conversation store that creates what it is asked to. *)
Definition grantingStore : Store := fun _ _ => Some "conv-1".

(** A burst of message-list mutations, each with its time. *)
Definition mutations (ms : list (Z * list Message)) : list Event :=
  map (fun m => Mutate (fst m) (snd m)) ms.

(** Every mutation of the burst leaves a non-empty list and comes less
    than the delay after the one before it. *)
Fixpoint withinWindow (previous : Z) (ms : list (Z * list Message)) : Prop :=
  match ms with
  | [] => True
  | m :: rest =>
      (previous <= fst m < previous + SAVE_DELAY)
      /\ snd m <> []
      /\ withinWindow (fst m) rest
  end.

(** The request the save timer issues for what it closed over. *)
Definition saveOf (c : Snapshot) : Chat.Effect :=
  match JS.or_null (snap_conversationId c) with
  | Some id =>
      ConversationUpdate id (serializeMessagesForStorage (snap_messages c))
        (snap_sessionId c)
  | None =>
      ConversationCreate (serializeMessagesForStorage (snap_messages c))
        (snap_sessionId c)
  end.

(** One save is pending: it was started at [t] for the current render, the
    ref holds its handle and the effect has a cleanup. *)
Definition armedAt (s : Saver) (t : Z) : Prop :=
  exists id : nat,
    timers s = [mkTimer id (t + SAVE_DELAY) (rendered s)]
    /\ saveTimeoutRef s = Some id
    /\ hasCleanup s = true
    /\ isInitialLoadRef s = false
    /\ clock s = t.

(** ** Vocabulary of the further properties *)

(** Whether a character occurs in a string. *)
Fixpoint occurs (c : ascii) (s : string) : bool :=
  match s with
  | EmptyString => false
  | String x s' => Ascii.eqb x c || occurs c s'
  end.

(** The keys of the config other than [oauthTokens]. *)
Definition otherKeys (c : AppConfig)
  : option string * option bool * option string * option string :=
  (Config.workspaceDir c, debugMode c, apiKey c, anthropicBaseUrl c).

(** No login flow is active: no verifier is held, or an empty one. *)
Definition noActiveFlow (s : State) : Prop :=
  currentPKCEVerifier s = None \/ currentPKCEVerifier s = Some "".

Definition noActiveFlowResponse : CompleteLoginResponse :=
  mkCompleteLogin false None None
    (Some "No active OAuth flow. Please start the login process again.").

(** The pair the code makes of a token response received at [now + latency]. *)
Definition grantedTokens (e : Env) (json : TokenJson) : OAuthTokens :=
  mkTokens (refresh_token json) (access_token json)
    (now e + latency e + expires_in json * 1000).

(** The request [exchangeCodeForTokens] sends for a pasted code. *)
Definition exchangeRequest (code verifier : string) : Request :=
  AuthorizationCodeGrant (hd "" (JS.split "#" code)) (nth_error (JS.split "#" code) 1)
    CLIENT_ID REDIRECT_URI verifier.

(** A login flow in which the browser cannot be opened. *)
Definition browserlessLogin : HandlerEnv :=
  mkHandlerEnv (granting 0) (inr samplePKCE)
    (Some (JS.ErrorObject "Failed to open URL")).

(** A login flow in which no PKCE pair can be generated. *)
Definition pkcelessLogin : HandlerEnv :=
  mkHandlerEnv (granting 0) (inl (JS.ErrorObject "crypto is not available")) None.

(** The key of an environment variable matches one of the patterns. *)
Definition isSensitiveKey (key : string) : bool :=
  existsb (fun pattern => SettingsHandlers.matches_ci pattern key)
    SettingsHandlers.sensitivePatterns.

Definition nonBlank (p : string) : Prop := JS.trim p <> "".

(** The same as a test: the segment is not the empty string once trimmed. *)
Definition isNonBlank (p : string) : bool := negb (String.eqb (JS.trim p) "").


(** Every save that is pending is the one whose handle [saveTimeoutRef]
    holds. *)
Definition heldByRef (s : Saver) : Prop :=
  forall x, In x (timers s) -> saveTimeoutRef s = Some (timer_id x).

(** At most one save is pending: it is the one [saveTimeoutRef] holds, the
    last run of the effect returned its cleanup, and it closed over a list
    that is not empty. *)
Definition onePending (s : Saver) : Prop :=
  timers s = []
  \/ exists x, timers s = [x]
       /\ saveTimeoutRef s = Some (timer_id x)
       /\ hasCleanup s = true
       /\ snap_messages (closure x) <> [].

(** A write to the conversation store carries at least one message. *)
Definition nonEmptyWrite (w : Chat.Effect) : Prop :=
  match w with
  | ConversationUpdate _ ms _ => ms <> []
  | ConversationCreate ms _ => ms <> []
  | _ => True
  end.

(** A fresh chat two seconds after its first message: the save timer has
    created the conversation, and the new conversation id has armed the
    timer again. *)
Definition freshChatSaved : Saver :=
  Chat.run grantingStore (mounted 0) [Mutate 0 [sampleMessage1]; Wait 2000].



(** The main process refuses a request without saying why. *)
Definition silentRefusal : SendEnv :=
  mkSendEnv 1700000000000 (fun _ => inr "bytes") 1700000000100
    (fun _ => inr (mkResponse false None None)).

(** * Properties *)

(** ** [getValidAccessToken], path by path *)

Lemma fetches_app (a b : list Main.Effect) :
  fetches (a ++ b) = (fetches a ++ fetches b)%list.
Proof.
  induction a as [|x a IH]; [reflexivity|].
  destruct x; cbn [fetches app]; rewrite IH; reflexivity.
Qed.

Lemma saves_app (a b : list Main.Effect) :
  saves (a ++ b) = (saves a ++ saves b)%list.
Proof.
  induction a as [|x a IH]; [reflexivity|].
  destruct x; cbn [saves app]; rewrite IH; reflexivity.
Qed.

Lemma refreshFails_no_tokens (e : Env) (r : FetchResult TokenJson) :
  refreshFails r -> tokensOfResponse e r = None.
Proof.
  destruct r as [err|ok json]; cbn; [reflexivity|].
  intros ->; reflexivity.
Qed.

Lemma isTokenExpired_spec (e : Env) (t : OAuthTokens) :
  isTokenExpired e t = true <-> expires t < now e + 300000.
Proof.
  unfold isTokenExpired. rewrite Z.ltb_lt. change (5 * 60 * 1000) with 300000. tauto.
Qed.

Lemma isTokenExpired_false (e : Env) (t : OAuthTokens) :
  isTokenExpired e t = false <-> now e + 300000 <= expires t.
Proof.
  unfold isTokenExpired. rewrite Z.ltb_ge. change (5 * 60 * 1000) with 300000. tauto.
Qed.

Lemma getValidAccessToken_none (e : Env) (s : State) :
  oauthTokens (config s) = None ->
  getValidAccessToken e s
  = (Eff.Ok None,
     mkState (config s) (currentPKCEVerifier s) (processEnv s)
       (trace s ++ [LoadConfig])).
Proof. intros H. run_main. rewrite H. reflexivity. Qed.

Lemma getValidAccessToken_fresh (e : Env) (s : State) (t : OAuthTokens) :
  oauthTokens (config s) = Some t ->
  isTokenExpired e t = false ->
  getValidAccessToken e s
  = (Eff.Ok (Some (access t)),
     mkState (config s) (currentPKCEVerifier s) (processEnv s)
       (trace s ++ [LoadConfig])).
Proof. intros H Hf. run_main. rewrite H, Hf. reflexivity. Qed.

Lemma getValidAccessToken_refresh_failed (e : Env) (s : State) (t : OAuthTokens) :
  oauthTokens (config s) = Some t ->
  isTokenExpired e t = true ->
  tokensOfResponse e (tokenEndpoint e (refreshRequest t)) = None ->
  getValidAccessToken e s
  = (Eff.Ok None,
     mkState (config s) (currentPKCEVerifier s) (processEnv s)
       (trace s ++ [LoadConfig; Fetch (refreshRequest t)])).
Proof.
  intros H Hx Hr. unfold refreshRequest in *. run_main. rewrite H, Hx, Hr.
  simpl_state. reflexivity.
Qed.

Lemma getValidAccessToken_refreshed (e : Env) (s : State) (t t' : OAuthTokens) :
  oauthTokens (config s) = Some t ->
  isTokenExpired e t = true ->
  tokensOfResponse e (tokenEndpoint e (refreshRequest t)) = Some t' ->
  getValidAccessToken e s
  = (Eff.Ok (Some (access t')),
     mkState (set_oauthTokens (Some t') (config s)) (currentPKCEVerifier s)
       (processEnv s)
       (trace s ++ [LoadConfig; Fetch (refreshRequest t); LoadConfig;
                    SaveConfig (set_oauthTokens (Some t') (config s))])).
Proof.
  intros H Hx Hr. unfold refreshRequest in *. run_main. rewrite H, Hx, Hr.
  simpl_state. reflexivity.
Qed.

(** ** C1: a failed refresh leaves the stored pair alone *)

(** C1.  When [getValidAccessToken] finds a stored pair that is inside the
    five-minute window and the refresh fails (the request errors or the
    endpoint rejects it), it returns [null]; the config document, and so
    the stored triple of access token, refresh token and expiry, is what
    it was; and the only things done were one read of the config and the
    one refresh request: nothing was saved. *)
Theorem getValidAccessToken_failed_refresh_is_atomic
    (e : Env) (s : State) (t : OAuthTokens) :
  oauthTokens (config s) = Some t ->
  isTokenExpired e t = true ->
  refreshFails (tokenEndpoint e (refreshRequest t)) ->
  exists s',
    getValidAccessToken e s = (Eff.Ok None, s')
    /\ config s' = config s
    /\ oauthTokens (config s') = Some t
    /\ trace s' = (trace s ++ [LoadConfig; Fetch (refreshRequest t)])%list
    /\ saves (trace s') = saves (trace s).
Proof.
  intros H Hx Hf.
  rewrite (getValidAccessToken_refresh_failed e s t H Hx
             (refreshFails_no_tokens e _ Hf)).
  eexists; split; [reflexivity|]. cbn [config trace].
  repeat split; try assumption.
  rewrite saves_app. cbn. apply app_nil_r.
Qed.

Lemma getValidAccessToken_failed_refresh_is_atomic_witness :
  exists s',
    getValidAccessToken (rejecting 800000) sampleState = (Eff.Ok None, s')
    /\ config s' = config sampleState
    /\ oauthTokens (config s') = Some sampleTokens
    /\ trace s'
       = (trace sampleState ++ [LoadConfig; Fetch (refreshRequest sampleTokens)])%list
    /\ saves (trace s') = saves (trace sampleState).
Proof.
  apply (getValidAccessToken_failed_refresh_is_atomic
           (rejecting 800000) sampleState sampleTokens);
    reflexivity.
Defined.

(** ** C2: what [getValidAccessToken] returns around a failed refresh *)

(** C2, as stated, fails.  The stored pair expires at 1000000.  At 699999
    it is still outside the five-minute window and the call made then
    returns its access token; at 700001 it is inside the window, the
    refresh is refused and the call returns [null]; the call made right
    after, refused again, returns [null] as well, and one made right after
    against an endpoint that grants the refresh returns the new access
    token.  The call after the failed refresh never returns the stale
    access token that the call before it returned. *)
Lemma getValidAccessToken_stale_token_counterexample :
  let before := getValidAccessToken (rejecting 699999) sampleState in
  let failed := getValidAccessToken (rejecting 700001) (snd before) in
  let after := getValidAccessToken (rejecting 700002) (snd failed) in
  let after' := getValidAccessToken (granting 700002) (snd failed) in
  fst before = Eff.Ok (Some "access-0")
  /\ fst failed = Eff.Ok None
  /\ fst after = Eff.Ok None
  /\ fst after' = Eff.Ok (Some "access-1")
  /\ config (snd failed) = config sampleState.
Proof. cbv zeta. repeat split; reflexivity. Qed.

(** C2, amended.  When the refresh of a stored pair fails, the pair that
    [getOAuthTokens] reads is the same before the failed attempt, after it,
    and after a further call that is refused too; [getValidAccessToken]
    returns [null] for the failed attempt and for that further call, not
    the stale access token. *)
Theorem failed_refresh_keeps_stored_pair
    (e1 e2 : Env) (s : State) (t : OAuthTokens) :
  oauthTokens (config s) = Some t ->
  isTokenExpired e1 t = true ->
  refreshFails (tokenEndpoint e1 (refreshRequest t)) ->
  now e1 <= now e2 ->
  refreshFails (tokenEndpoint e2 (refreshRequest t)) ->
  let failed := getValidAccessToken e1 s in
  let after := getValidAccessToken e2 (snd failed) in
  fst failed = Eff.Ok None
  /\ fst after = Eff.Ok None
  /\ fst (getOAuthTokens s) = Eff.Ok (Some t)
  /\ fst (getOAuthTokens (snd failed)) = Eff.Ok (Some t)
  /\ fst (getOAuthTokens (snd after)) = Eff.Ok (Some t).
Proof.
  intros H Hx1 Hf1 Hle Hf2. cbv zeta.
  assert (Hx2 : isTokenExpired e2 t = true).
  { apply isTokenExpired_spec. apply isTokenExpired_spec in Hx1. lia. }
  rewrite (getValidAccessToken_refresh_failed e1 s t H Hx1
             (refreshFails_no_tokens e1 _ Hf1)).
  cbn [fst snd].
  match goal with
  | |- context [getValidAccessToken e2 ?s1] =>
      rewrite (getValidAccessToken_refresh_failed e2 s1 t H Hx2
                 (refreshFails_no_tokens e2 _ Hf2))
  end.
  cbn [fst snd]. run_main. rewrite H. repeat split; reflexivity.
Qed.

Lemma failed_refresh_keeps_stored_pair_witness :
  let failed := getValidAccessToken (rejecting 800000) sampleState in
  let after := getValidAccessToken (rejecting 800001) (snd failed) in
  fst failed = Eff.Ok None
  /\ fst after = Eff.Ok None
  /\ fst (getOAuthTokens sampleState) = Eff.Ok (Some sampleTokens)
  /\ fst (getOAuthTokens (snd failed)) = Eff.Ok (Some sampleTokens)
  /\ fst (getOAuthTokens (snd after)) = Eff.Ok (Some sampleTokens).
Proof.
  apply (failed_refresh_keeps_stored_pair
           (rejecting 800000) (rejecting 800001) sampleState sampleTokens);
    first [reflexivity | cbn; lia].
Defined.

(** ** C7: the five-minute look-ahead *)

(** C7.  Without a stored credential the result is [null] and nothing is
    requested.  With a stored pair, the call returns the stored access
    token without any request exactly when the expiry is at least five
    minutes after [Date.now()], and it sends a refresh request, for the
    stored refresh token, exactly when the expiry is less than five
    minutes away. *)
Theorem getValidAccessToken_lookahead (e : Env) (s : State) :
  (oauthTokens (config s) = None ->
   fst (getValidAccessToken e s) = Eff.Ok None
   /\ fetches (trace (snd (getValidAccessToken e s))) = fetches (trace s))
  /\ (forall t : OAuthTokens,
        oauthTokens (config s) = Some t ->
        (now e + 5 * 60 * 1000 <= expires t <->
         fst (getValidAccessToken e s) = Eff.Ok (Some (access t))
         /\ fetches (trace (snd (getValidAccessToken e s))) = fetches (trace s))
        /\ (expires t < now e + 5 * 60 * 1000 <->
            fetches (trace (snd (getValidAccessToken e s)))
            = (fetches (trace s) ++ [refreshRequest t])%list)).
Proof.
  change (5 * 60 * 1000) with 300000.
  assert (Hneq : forall (l : list Request) (x : Request), l <> (l ++ [x])%list).
  { intros l x Heq. apply (f_equal (@List.length _)) in Heq.
    rewrite length_app in Heq. cbn in Heq. lia. }
  split.
  - intros H. rewrite (getValidAccessToken_none e s H). cbn [fst snd trace].
    rewrite fetches_app. cbn. rewrite app_nil_r. split; reflexivity.
  - intros t H.
    destruct (isTokenExpired e t) eqn:Hx.
    + pose proof (proj1 (isTokenExpired_spec e t) Hx) as Hlt.
      destruct (tokensOfResponse e (tokenEndpoint e (refreshRequest t))) as [t'|] eqn:Hr.
      * rewrite (getValidAccessToken_refreshed e s t t' H Hx Hr).
        cbn [fst snd trace]. rewrite fetches_app. cbn [fetches].
        split; split; intros; try lia; try reflexivity.
        destruct H0 as [_ Hf]. symmetry in Hf. apply Hneq in Hf. contradiction.
      * rewrite (getValidAccessToken_refresh_failed e s t H Hx Hr).
        cbn [fst snd trace]. rewrite fetches_app. cbn [fetches].
        split; split; intros; try lia; try reflexivity.
        destruct H0 as [Hn _]. discriminate Hn.
    + pose proof (proj1 (isTokenExpired_false e t) Hx) as Hle.
      rewrite (getValidAccessToken_fresh e s t H Hx).
      cbn [fst snd trace]. rewrite fetches_app. cbn [fetches]. rewrite app_nil_r.
      split; split; intros; try lia; try (split; reflexivity).
      apply Hneq in H0. contradiction.
Qed.

Lemma getValidAccessToken_lookahead_witness :
  (fst (getValidAccessToken (granting 700000) sampleState) = Eff.Ok (Some "access-0")
   /\ fetches (trace (snd (getValidAccessToken (granting 700000) sampleState))) = [])
  /\ fetches (trace (snd (getValidAccessToken (granting 700001) sampleState)))
     = [RefreshTokenGrant "refresh-0" CLIENT_ID]
  /\ fst (getValidAccessToken (granting 0) loggedOutState) = Eff.Ok None.
Proof.
  pose proof (getValidAccessToken_lookahead (granting 700000) sampleState) as [_ Hfresh].
  pose proof (getValidAccessToken_lookahead (granting 700001) sampleState) as [_ Hstale].
  pose proof (getValidAccessToken_lookahead (granting 0) loggedOutState) as [Hnone _].
  split; [|split].
  - apply (proj1 (proj1 (Hfresh sampleTokens eq_refl))). cbn. lia.
  - apply (proj1 (proj2 (Hstale sampleTokens eq_refl))). cbn. lia.
  - apply (proj1 (Hnone eq_refl)).
Defined.

(** ** C10: the status of the OAuth login *)

(** C10, as stated, fails on one point.  [tokens?.expires || null] turns a
    stored expiry of [0] into [null]: a pair is stored and reported as
    authenticated, and yet [expiresAt] is not the stored expiry. *)
Lemma get_status_zero_expiry_counterexample :
  option_map expires (oauthTokens (config zeroExpiryState)) = Some 0
  /\ fst (get_status zeroExpiryState) = Eff.Ok (mkStatus true None).
Proof. split; reflexivity. Qed.

(** C10, amended.  ['oauth:get-status'] reports [authenticated: true]
    exactly when a pair is stored, whatever the clock says about its
    expiry: a pair that has expired is reported as authenticated too.
    [expiresAt] is the stored expiry when a pair with a non-zero expiry is
    stored, and [null] when none is stored.  The config is left as it
    was. *)
Theorem get_status_reports_stored_pair (s : State) :
  exists st : StatusResponse,
    fst (get_status s) = Eff.Ok st
    /\ config (snd (get_status s)) = config s
    /\ (authenticated st = true <-> oauthTokens (config s) <> None)
    /\ (oauthTokens (config s) = None -> expiresAt st = None)
    /\ (forall t : OAuthTokens,
          oauthTokens (config s) = Some t ->
          (forall e : Env, isTokenExpired e t = true -> authenticated st = true)
          /\ (expires t <> 0 -> expiresAt st = Some (expires t))).
Proof.
  run_main. eexists. split; [reflexivity|]. split; [reflexivity|].
  destruct (oauthTokens (config s)) as [t|]; cbn [option_map JS.num_or_null authenticated expiresAt].
  - split; [split; [discriminate|reflexivity]|].
    split; [discriminate|].
    intros t' [= <-]. split; [reflexivity|].
    intros Hnz. destruct (Z.eqb_spec (expires t) 0); [contradiction|reflexivity].
  - split; [split; [discriminate|intros H; contradiction H; reflexivity]|].
    split; [reflexivity|]. discriminate.
Qed.

Lemma get_status_reports_stored_pair_witness :
  fst (get_status sampleState) = Eff.Ok (mkStatus true (Some 1000000))
  /\ isTokenExpired (rejecting 800000) sampleTokens = true
  /\ fst (get_status loggedOutState) = Eff.Ok (mkStatus false None).
Proof.
  destruct (get_status_reports_stored_pair sampleState)
    as [st [Hst [_ [Hauth [_ Hexp]]]]].
  destruct (Hexp sampleTokens eq_refl) as [_ Hexpires].
  destruct (get_status_reports_stored_pair loggedOutState)
    as [st' [Hst' [_ [Hauth' [Hnone _]]]]].
  split; [|split; [reflexivity|]].
  - rewrite Hst. f_equal. destruct st as [a x]. cbn in *.
    rewrite (proj2 Hauth) by discriminate.
    rewrite Hexpires by discriminate. reflexivity.
  - rewrite Hst'. f_equal. destruct st' as [a x]. cbn in *.
    rewrite (Hnone eq_refl).
    destruct a; [|reflexivity].
    exfalso. apply (proj1 Hauth'); reflexivity.
Defined.

(** ** C6: the PKCE verifier of a login flow *)

(** C6 at the failing input.  A login is started, so the verifier is held;
    the token endpoint then refuses the code.  ['oauth:complete-login']
    reports the failure and returns early: the verifier is still held
    afterwards, where the claim has it discarded. *)
Theorem complete_login_failed_exchange_keeps_verifier :
  let started := start_login refusedLogin max loggedOutState in
  let completed := complete_login refusedLogin "code-0#state-0" false (snd started) in
  currentPKCEVerifier (snd started) = Some (verifier samplePKCE)
  /\ fst completed
     = Eff.Ok (mkCompleteLogin false None None
                 (Some "Failed to exchange authorization code for tokens"))
  /\ currentPKCEVerifier (snd completed) = Some (verifier samplePKCE).
Proof. cbv zeta. repeat split; reflexivity. Qed.

(** The same early return after the token exchange succeeded and the
    creation of the API key was refused. *)
Lemma complete_login_failed_key_keeps_verifier :
  let env := mkHandlerEnv
               (OAuth.mkEnv 0 40
                  (fun _ => FetchResponse true (Some (mkTokenJson "refresh-1" "access-1" 3600)))
                  (fun _ => FetchResponse false None))
               (inr samplePKCE) None in
  let started := start_login env console loggedOutState in
  let completed := complete_login env "code-0" true (snd started) in
  fst completed
  = Eff.Ok (mkCompleteLogin false None None (Some "Failed to create API key"))
  /\ currentPKCEVerifier (snd completed) = Some (verifier samplePKCE).
Proof. cbv zeta. split; reflexivity. Qed.

(** The paths of a login flow on which the verifier is discarded: a
    completed login, in either mode, and a cancellation. *)
Lemma complete_login_success_discards_verifier
    (h : HandlerEnv) (code : string) (createKey : bool) (s : State)
    (r : CompleteLoginResponse) (s' : State) :
  complete_login h code createKey s = (Eff.Ok r, s') ->
  complete_success r = true ->
  currentPKCEVerifier s' = None.
Proof.
  run_main. destruct (JS.or_null (currentPKCEVerifier s)) as [v|];
    [|intros [= <- <-]; discriminate].
  cbn [config currentPKCEVerifier processEnv trace].
  destruct (tokensOfResponse _ _) as [t|]; [|intros [= <- <-]; discriminate].
  destruct createKey.
  - cbn [config currentPKCEVerifier processEnv trace].
    destruct (JS.or_null _) as [k|]; intros [= <- <-]; [reflexivity|discriminate].
  - intros [= <- <-]. reflexivity.
Qed.

Lemma cancel_discards_verifier (s : State) :
  currentPKCEVerifier (snd (cancel s)) = None
  /\ config (snd (cancel s)) = config s
  /\ trace (snd (cancel s)) = trace s.
Proof. repeat split; reflexivity. Qed.

(** The verifier is never written to the config: whatever a login flow
    saves is the config it loaded with [oauthTokens] replaced by the
    tokens the endpoint returned. *)
Lemma login_flow_saves_tokens_only
    (h : HandlerEnv) (code : string) (createKey : bool) (s : State) :
  let s' := snd (complete_login h code createKey s) in
  config s' = config s
  \/ exists t : OAuthTokens,
       tokensOfResponse (env h)
         (tokenEndpoint (env h)
            (AuthorizationCodeGrant (hd "" (JS.split "#" code))
               (nth_error (JS.split "#" code) 1) CLIENT_ID REDIRECT_URI
               (match currentPKCEVerifier s with Some v => v | None => "" end)))
       = Some t
       /\ config s' = set_oauthTokens (Some t) (config s).
Proof.
  cbv zeta. run_main.
  destruct (currentPKCEVerifier s) as [v|]; cbn [JS.or_null]; [|left; reflexivity].
  destruct (JS.truthy v); [|left; reflexivity].
  cbn [config currentPKCEVerifier processEnv trace].
  destruct (tokensOfResponse _ _) as [t|] eqn:Ht; [|left; reflexivity].
  destruct createKey.
  - cbn [config currentPKCEVerifier processEnv trace].
    destruct (JS.or_null _); left; reflexivity.
  - right. exists t. split; [reflexivity|reflexivity].
Qed.

Lemma start_login_keeps_config (h : HandlerEnv) (mode : AuthMode) (s : State) :
  config (snd (start_login h mode s)) = config s
  /\ saves (trace (snd (start_login h mode s))) = saves (trace s).
Proof.
  run_main. destruct (generatePKCE h) as [err|pkce]; [split; reflexivity|].
  cbn [config currentPKCEVerifier processEnv trace].
  destruct (openExternalResult h); cbn [config trace snd];
    rewrite saves_app; cbn; rewrite app_nil_r; split; reflexivity.
Qed.

(** ** C8: clearing the stored API key *)

(** C8, as stated, fails when the process runs with [ANTHROPIC_API_KEY]
    set: the environment layer wins whatever is stored, so after the two
    calls, the second with [null], the status still reports a configured
    key whose source is the environment. *)
Lemma set_api_key_env_override_counterexample :
  let first := set_api_key (Some "sk-ant-local") envKeyState in
  let second := set_api_key None (snd first) in
  apiKey (config (snd second)) = None
  /\ fst second = Eff.Ok (mkSetApiKey true (mkApiKeyStatus true (Some source_env)))
  /\ fst (get_api_key_status (snd second))
     = Eff.Ok (mkApiKeyStatus true (Some source_env)).
Proof. cbv zeta. repeat split; reflexivity. Qed.

Lemma set_api_key_without_env (key : option string) (s : State) :
  ANTHROPIC_API_KEY (processEnv s) = None ->
  let normalized := JS.or_null (option_map JS.trim key) in
  set_api_key key s
  = (Eff.Ok
       (mkSetApiKey true
          (match normalized with
           | Some _ => mkApiKeyStatus true (Some source_local)
           | None => mkApiKeyStatus false None
           end)),
     mkState (set_apiKey normalized (config s)) (currentPKCEVerifier s)
       (processEnv s)
       (trace s ++ [LoadConfig; SaveConfig (set_apiKey normalized (config s));
                    LoadConfig])).
Proof.
  intros Henv. cbv zeta. run_main. rewrite Henv. simpl_state.
  cbn [set_apiKey apiKey]. destruct (JS.or_null _); reflexivity.
Qed.

(** C8, amended.  In a process without [ANTHROPIC_API_KEY], after two
    ['config:set-api-key'] calls in sequence of which the second passes
    [null], no key is stored and the status, as the second call returns
    it and as ['config:get-api-key-status'] reports it afterwards, is
    [configured: false] and [source: null]. *)
Theorem set_api_key_twice_then_status (s : State) (first : option string) :
  ANTHROPIC_API_KEY (processEnv s) = None ->
  let s1 := snd (set_api_key first s) in
  let second := set_api_key None s1 in
  apiKey (config (snd second)) = None
  /\ fst second = Eff.Ok (mkSetApiKey true (mkApiKeyStatus false None))
  /\ fst (get_api_key_status (snd second)) = Eff.Ok (mkApiKeyStatus false None).
Proof.
  intros Henv. cbv zeta.
  rewrite (set_api_key_without_env first s Henv). cbn [snd].
  match goal with
  | |- context [set_api_key None ?s1] =>
      rewrite (set_api_key_without_env None s1 Henv)
  end.
  cbn [fst snd option_map JS.or_null config set_apiKey apiKey].
  split; [reflexivity|]. split; [reflexivity|].
  run_main. rewrite Henv. reflexivity.
Qed.

Lemma set_api_key_twice_then_status_witness :
  let s1 := snd (set_api_key (Some "  sk-ant-local ") loggedOutState) in
  let second := set_api_key None s1 in
  apiKey (config (snd second)) = None
  /\ fst second = Eff.Ok (mkSetApiKey true (mkApiKeyStatus false None))
  /\ fst (get_api_key_status (snd second)) = Eff.Ok (mkApiKeyStatus false None).
Proof.
  apply (set_api_key_twice_then_status loggedOutState (Some "  sk-ant-local ")).
  reflexivity.
Defined.

(** ** C9: the verifier in the authorization URL *)

Lemma base64url_char_plain (c : ascii) :
  base64url_char c = true -> urlencoded_plain c = true.
Proof.
  destruct c as [[] [] [] [] [] [] [] []]; cbv; intros H;
    first [reflexivity | discriminate H].
Qed.

Lemma urlencode_base64url (s : string) : base64url s = true -> urlencode s = s.
Proof.
  induction s as [|c s IH]; [reflexivity|].
  cbn [base64url urlencode]. intros H.
  apply andb_true_iff in H. destruct H as [Hc Hs].
  rewrite (base64url_char_plain c Hc), (IH Hs). reflexivity.
Qed.

(** C9.  For either mode and every pair whose verifier is written in the
    base64url alphabet, as the generated ones are, the authorization URL
    is the endpoint of the mode followed by the query below: it carries
    the challenge with [code_challenge_method=S256] and ends in
    [state=] followed by the verifier, character for character.  That URL
    is the one ['oauth:start-login'] hands to [shell.openExternal]. *)
Theorem getAuthorizationUrl_state_is_verifier
    (mode : AuthMode) (pkce : PKCEChallenge) :
  base64url (verifier pkce) = true ->
  getAuthorizationUrl mode pkce
  = authorizationEndpoint mode
    ++ "?code=true&client_id=9d1c250a-e61b-44d9-88ed-5944d1962f5e"
    ++ "&response_type=code"
    ++ "&redirect_uri=https%3A%2F%2Fconsole.anthropic.com%2Foauth%2Fcode%2Fcallback"
    ++ "&scope=org%3Acreate_api_key+user%3Aprofile+user%3Ainference"
    ++ "&code_challenge=" ++ urlencode (challenge pkce)
    ++ "&code_challenge_method=S256"
    ++ "&state=" ++ verifier pkce
  /\ forall (h : HandlerEnv) (s : State),
       generatePKCE h = inr pkce ->
       trace (snd (start_login h mode s))
       = (trace s ++ [OpenExternal (getAuthorizationUrl mode pkce)])%list.
Proof.
  intros Hv. split.
  - unfold getAuthorizationUrl, authorizationEndpoint.
    destruct mode; cbn; rewrite (urlencode_base64url _ Hv); reflexivity.
  - intros h s Hg. run_main. rewrite Hg.
    cbn [config currentPKCEVerifier processEnv trace challenge verifier].
    destruct pkce as [c v]. cbn [challenge verifier].
    destruct (openExternalResult h); reflexivity.
Qed.

Lemma getAuthorizationUrl_state_is_verifier_witness :
  getAuthorizationUrl max samplePKCE
  = "https://claude.ai/oauth/authorize"
    ++ "?code=true&client_id=9d1c250a-e61b-44d9-88ed-5944d1962f5e"
    ++ "&response_type=code"
    ++ "&redirect_uri=https%3A%2F%2Fconsole.anthropic.com%2Foauth%2Fcode%2Fcallback"
    ++ "&scope=org%3Acreate_api_key+user%3Aprofile+user%3Ainference"
    ++ "&code_challenge=E9Melhoa2OwvFrEMTJguCHaoeK1t8URWbuGJSstw-cM"
    ++ "&code_challenge_method=S256"
    ++ "&state=dBjftJeZ4CVP-mB92K27uhbUJU1p1r_wW1gFWFOEjXk".
Proof.
  apply (proj1 (getAuthorizationUrl_state_is_verifier max samplePKCE eq_refl)).
Defined.

(** ** C5: the size gate on attachments *)

Lemma sendRequests_app (a b : list Chat.Effect) :
  sendRequests (a ++ b) = (sendRequests a ++ sendRequests b)%list.
Proof.
  induction a as [|x a IH]; [reflexivity|].
  destruct x; cbn [sendRequests app]; rewrite IH; reflexivity.
Qed.

Lemma sendRequests_released (attachments : list PendingAttachment) :
  sendRequests (releaseAttachmentPreviews attachments) = [].
Proof.
  unfold releaseAttachmentPreviews.
  induction attachments as [|a rest IH]; [reflexivity|].
  cbn [flat_map]. rewrite sendRequests_app, IH, app_nil_r.
  destruct (previewUrl a) as [url|]; [|reflexivity].
  destruct (JS.truthy url && previewIsBlobUrl a); reflexivity.
Qed.

Lemma serializeAttachments_carried (e : SendEnv) (attachments : list PendingAttachment)
    (payloads : list SerializedAttachmentPayload) :
  serializeAttachments e attachments = inr payloads ->
  map (fun p => (payload_name p, payload_size p)) payloads
  = map nameAndSize (map pending_file attachments).
Proof.
  revert payloads. induction attachments as [|a rest IH]; intros payloads;
    cbn [serializeAttachments].
  - intros [= <-]. reflexivity.
  - destruct (arrayBuffer e (pending_file a)) as [err|data]; [discriminate|].
    destruct (serializeAttachments e rest) as [err|ps]; [discriminate|].
    intros [= <-]. cbn [map payload_name payload_size]. rewrite (IH ps eq_refl).
    reflexivity.
Qed.

(** What a request of [handleSendMessage] carries: the pending files, each
    with its name and size, in order. *)
Lemma handleSendMessage_carries (e : SendEnv) (w : View) (payload : SendMessagePayload) :
  In payload (sendRequests (snd (handleSendMessage e w))) ->
  carried payload = map nameAndSize (map pending_file (pendingAttachments w)).
Proof.
  unfold handleSendMessage.
  destruct (negb _ || isLoading w); [intros []|]. cbv zeta.
  destruct (serializeAttachments e (pendingAttachments w)) as [err|payloads] eqn:Es.
  - cbn [snd]. rewrite sendRequests_released. intros [].
  - assert (H : forall v' : View,
              In payload
                (sendRequests
                   (snd (v', (releaseAttachmentPreviews (pendingAttachments w)
                                ++ [ChatSendMessage
                                      (mkSend (JS.trim (inputValue w))
                                         (some_if_nonempty payloads))])%list))) ->
              carried payload = map nameAndSize (map pending_file (pendingAttachments w))).
    { intros v'. cbn [snd]. rewrite sendRequests_app, sendRequests_released.
      cbn [app sendRequests]. intros [<-|[]].
      rewrite <- (serializeAttachments_carried e _ payloads Es).
      unfold carried. cbn [send_attachments].
      destruct payloads; reflexivity. }
    destruct (sendMessage e _) as [err|response]; [apply H|].
    destruct (if response_success response then None
              else JS.or_null (response_error response)); [apply H|].
    destruct (response_attachments response) as [[|x l]|]; apply H.
Qed.

Lemma lastOversized_cons (limit : Z) (file : File) (rest : list File) :
  lastOversized limit (file :: rest)
  = match lastOversized limit rest with
    | Some g => Some g
    | None => if oversized limit file then Some file else None
    end.
Proof.
  unfold lastOversized. cbn [filter].
  destruct (oversized limit file); [|destruct (List.last _ None); reflexivity].
  cbn [map]. destruct (filter (oversized limit) rest) as [|g gs]; [reflexivity|].
  cbn [map]. change (List.last (Some file :: Some g :: map Some gs) None)
    with (List.last (Some g :: map Some gs) None).
  assert (Hne : Some g :: map Some gs <> []) by discriminate.
  destruct (exists_last Hne) as [init [x Hx]]. rewrite Hx, last_last.
  assert (Hin : In x (Some g :: map Some gs)).
  { rewrite Hx. apply in_or_app. right. left. reflexivity. }
  change (Some g :: map Some gs) with (map Some (g :: gs)) in Hin.
  apply in_map_iff in Hin. destruct Hin as [y [<- _]]. reflexivity.
Qed.

Lemma processFiles_spec (limit : Z) (e : FileEnv) (dir : option string)
    (files : list File) (accepted : list PendingAttachment) (rejection : option string) :
  processFiles limit e dir files accepted rejection
  = ((accepted ++ acceptAll e (List.length accepted) (filter (withinLimit limit) files))%list,
     match lastOversized limit files with
     | Some file => Some (rejectionFor limit dir file)
     | None => rejection
     end).
Proof.
  revert accepted rejection.
  induction files as [|file rest IH]; intros accepted rejection.
  - cbn. rewrite app_nil_r. reflexivity.
  - cbn [processFiles filter]. rewrite lastOversized_cons.
    unfold withinLimit at 1, oversized.
    destruct (Z.ltb_spec limit (file_size file)) as [Hbig|Hok].
    + rewrite IH.
      destruct (Z.leb_spec (file_size file) limit) as [Hle|_]; [lia|].
      destruct (lastOversized limit rest); reflexivity.
    + rewrite IH.
      destruct (Z.leb_spec (file_size file) limit) as [_|Hgt]; [|lia].
      rewrite length_app. cbn [List.length acceptAll].
      rewrite Nat.add_1_r, <- app_assoc.
      destruct (lastOversized limit rest); reflexivity.
Qed.

Lemma acceptAll_files (e : FileEnv) (index : nat) (files : list File) :
  map pending_file (acceptAll e index files) = files.
Proof.
  revert index. induction files as [|file rest IH]; intros index; [reflexivity|].
  cbn [acceptAll map]. rewrite IH. f_equal.
  unfold acceptFile.
  destruct (if isLikelyImageFile file then createImagePreview e file else None)
    as [[url isBlob]|]; [destruct (JS.truthy url)|]; reflexivity.
Qed.

Lemma rejectionFor_truthy (limit : Z) (dir : option string) (file : File) :
  JS.or_null (Some (rejectionFor limit dir file)) = Some (rejectionFor limit dir file).
Proof. reflexivity. Qed.

Lemma lastOversized_is_oversized (limit : Z) (files : list File) (file : File) :
  lastOversized limit files = Some file ->
  In file files /\ limit < file_size file.
Proof.
  unfold lastOversized. intros H.
  assert (Hin : In file (filter (oversized limit) files)).
  { destruct (filter (oversized limit) files) as [|g gs] eqn:Hf; [discriminate H|].
    assert (Hne : map Some (g :: gs) <> []) by discriminate.
    destruct (exists_last Hne) as [init [x Hx]].
    rewrite Hx, last_last in H. subst x.
    assert (Hin : In (Some file) (map Some (g :: gs))).
    { rewrite Hx. apply in_or_app. right. left. reflexivity. }
    apply in_map_iff in Hin. destruct Hin as [y [[= ->] Hy]]. exact Hy. }
  apply filter_In in Hin. destruct Hin as [Hin Hbig].
  split; [exact Hin|]. unfold oversized in Hbig. apply Z.ltb_lt in Hbig. exact Hbig.
Qed.

(** Whatever the limit is, of two oversized files of one selection only
    the second is named. *)
Lemma handleFilesSelected_names_last_only (limit : Z) (e : FileEnv) (a b : File) (v : View) :
  limit < file_size a -> limit < file_size b ->
  handleFilesSelected limit e [a; b] v
  = mkView (inputValue v) (pendingAttachments v)
      (Some (rejectionFor limit (workspaceDir v) b)) (workspaceDir v) (messages v)
      (isLoading v).
Proof.
  intros Ha Hb. unfold handleFilesSelected. rewrite processFiles_spec.
  unfold lastOversized, withinLimit, oversized. cbn [filter].
  destruct (Z.leb_spec (file_size a) limit); [lia|].
  destruct (Z.leb_spec (file_size b) limit); [lia|].
  destruct (Z.ltb_spec limit (file_size a)); [|lia].
  destruct (Z.ltb_spec limit (file_size b)); [|lia].
  reflexivity.
Qed.

(** C5, as stated, fails on one point.  With a limit of 32 MiB, two files
    over it are selected together with one under it.  Neither oversized
    file becomes a pending attachment and the small one does; but there is
    one rejection message, it names the second oversized file, and the
    name of the first does not occur in it. *)
Lemma handleFilesSelected_two_oversized_counterexample :
  let v := handleFilesSelected sampleLimit readableFiles
             [hugeFile1; smallFile; hugeFile2] emptyView in
  map pending_file (pendingAttachments v) = [smallFile]
  /\ attachmentError v
     = Some (JS.dquote ++ "huge-2.iso" ++ JS.dquote ++ " is larger than 32 MB. "
             ++ "Please drop it directly into the Claude Agent workspace at "
             ++ "the configured claude-agent workspace directory.")
  /\ match attachmentError v with
     | Some message => JS.includes message "huge-1.iso"
     | None => true
     end = false.
Proof. cbv zeta. repeat split; vm_compute; reflexivity. Qed.

(** C5, amended.  Whatever the limit, the files of a selection that become
    pending attachments are those whose size is at most
    [MAX_ATTACHMENT_BYTES], in the order of the selection and after the
    attachments that were pending; no file over the limit is among them,
    so a pending list within the limit stays within it.  Hence no such
    file is forwarded: a [chat.sendMessage] request of a submission made
    with that pending list, whatever else the view holds by then, carries
    exactly the files that were pending and the files of the selection
    within the limit, each with its name and size, and nothing over the
    limit when nothing pending was over it.  When the selection holds a
    file over the limit, one rejection message is set: it names the last
    such file of the selection and the limit in whole MiB, and points the
    user to the workspace directory. *)
Theorem handleFilesSelected_size_gate
    (limit : Z) (e : FileEnv) (files : list File) (v : View) :
  let v' := handleFilesSelected limit e files v in
  map pending_file (pendingAttachments v')
  = (map pending_file (pendingAttachments v) ++ filter (withinLimit limit) files)%list
  /\ (Forall (fun a => file_size (pending_file a) <= limit) (pendingAttachments v) ->
      Forall (fun a => file_size (pending_file a) <= limit) (pendingAttachments v'))
  /\ (forall file : File,
        lastOversized limit files = Some file ->
        (In file files /\ limit < file_size file)
        /\ attachmentError v'
           = Some (JS.dquote ++ file_name file ++ JS.dquote ++ " is larger than "
                   ++ JS.toString (limit / (1024 * 1024)) ++ " MB. "
                   ++ "Please drop it directly into the Claude Agent workspace at "
                   ++ match workspaceDir v with
                      | Some dir => dir
                      | None => "the configured claude-agent workspace directory"
                      end
                   ++ "."))
  /\ (forall (send : SendEnv) (w : View) (payload : SendMessagePayload),
        pendingAttachments w = pendingAttachments v' ->
        In payload (sendRequests (snd (handleSendMessage send w))) ->
        carried payload
        = map nameAndSize
            (map pending_file (pendingAttachments v) ++ filter (withinLimit limit) files)
        /\ (Forall (fun a => file_size (pending_file a) <= limit) (pendingAttachments v) ->
            Forall (fun x => snd x <= limit) (carried payload))).
Proof.
  cbv zeta.
  assert (Hfiles :
    map pending_file (pendingAttachments (handleFilesSelected limit e files v))
    = (map pending_file (pendingAttachments v) ++ filter (withinLimit limit) files)%list).
  { unfold handleFilesSelected. destruct files as [|f fs].
    - cbn. rewrite app_nil_r. reflexivity.
    - rewrite processFiles_spec. cbn [app List.length].
      destruct (acceptAll e 0 (filter (withinLimit limit) (f :: fs))) as [|p ps] eqn:Hacc;
        cbn [pendingAttachments];
        pose proof (acceptAll_files e 0 (filter (withinLimit limit) (f :: fs))) as Hmap;
        rewrite Hacc in Hmap; rewrite <- Hmap.
      + cbn. rewrite app_nil_r. reflexivity.
      + rewrite map_app. reflexivity. }
  assert (Hkept :
    Forall (fun a => file_size (pending_file a) <= limit) (pendingAttachments v) ->
    Forall (fun f => file_size f <= limit)
      (map pending_file (pendingAttachments v) ++ filter (withinLimit limit) files)).
  { intros Hold. apply Forall_app. split.
    - apply Forall_forall. intros f Hin.
      apply in_map_iff in Hin. destruct Hin as [b [<- Hin]].
      exact (proj1 (Forall_forall _ _) Hold b Hin).
    - apply Forall_forall. intros f Hin. apply filter_In in Hin. destruct Hin as [_ Hf].
      unfold withinLimit in Hf. apply Z.leb_le in Hf. exact Hf. }
  split; [exact Hfiles|]. split; [|split].
  - intros Hold. apply Forall_forall. intros a Ha.
    assert (Hin : In (pending_file a)
                    (map pending_file
                       (pendingAttachments (handleFilesSelected limit e files v))))
      by (apply in_map; exact Ha).
    rewrite Hfiles in Hin.
    exact (proj1 (Forall_forall _ _) (Hkept Hold) _ Hin).
  - intros file Hlast. split; [exact (lastOversized_is_oversized limit files file Hlast)|].
    unfold handleFilesSelected. destruct files as [|f fs]; [discriminate Hlast|].
    rewrite processFiles_spec, Hlast. cbn [attachmentError].
    rewrite rejectionFor_truthy. reflexivity.
  - intros send w payload Hw Hin.
    rewrite (handleSendMessage_carries send w payload Hin), Hw, Hfiles.
    split; [reflexivity|]. intros Hold.
    apply Forall_forall. intros x Hx. apply in_map_iff in Hx.
    destruct Hx as [f [<- Hf]]. cbn [nameAndSize snd].
    exact (proj1 (Forall_forall _ _) (Hkept Hold) f Hf).
Qed.

Lemma handleFilesSelected_size_gate_witness :
  let v' := handleFilesSelected sampleLimit readableFiles
              [smallFile; hugeFile1; exactFile] emptyView in
  map pending_file (pendingAttachments v') = [smallFile; exactFile]
  /\ Forall (fun a => file_size (pending_file a) <= sampleLimit) (pendingAttachments v')
  /\ attachmentError v'
     = Some (JS.dquote ++ "huge-1.iso" ++ JS.dquote ++ " is larger than 32 MB. "
             ++ "Please drop it directly into the Claude Agent workspace at "
             ++ "the configured claude-agent workspace directory.")
  /\ exists payload,
       sendRequests (snd (handleSendMessage readableSend v')) = [payload]
       /\ carried payload = [("notes.txt", 2048); ("disk.img", 33554432)].
Proof.
  destruct (handleFilesSelected_size_gate sampleLimit readableFiles
              [smallFile; hugeFile1; exactFile] emptyView) as [Hfiles [Hinv [Herr Hsend]]].
  split; [exact Hfiles|]. split; [|split].
  - apply Hinv. constructor.
  - apply (Herr hugeFile1). reflexivity.
  - exists (mkSend ""
              (Some [mkPayload "notes.txt" "text/plain" 2048 "bytes";
                     mkPayload "disk.img" "application/octet-stream" 33554432 "bytes"])).
    split; [vm_compute; reflexivity|].
    apply (Hsend readableSend
             (handleFilesSelected sampleLimit readableFiles
                [smallFile; hugeFile1; exactFile] emptyView)).
    + reflexivity.
    + vm_compute. left. reflexivity.
Defined.

(** ** C4: submitting a turn *)

Lemma guard_spec (v : View) :
  negb ((0 <? String.length (JS.trim (inputValue v)))%nat
        || (0 <? List.length (pendingAttachments v))%nat)
  || isLoading v = true
  <-> nothingToSubmit v.
Proof.
  unfold nothingToSubmit.
  destruct (JS.trim (inputValue v)) as [|c s]; destruct (pendingAttachments v) as [|a l];
    destruct (isLoading v); cbn; split; intros H;
    try reflexivity; try discriminate H; try tauto;
    try (left; split; reflexivity);
    destruct H as [[H1 H2]|H]; discriminate.
Qed.

(** C4, as stated, fails on one point.  The input holds a greeting, one
    file is attached and no turn is streaming, so the guard does not
    hold; reading the file fails.  No [chat.sendMessage] request is
    issued, where the claim has exactly one: the user's message is shown,
    followed by an error message, and the loading flag is off. *)
Lemma handleSendMessage_unreadable_attachment_counterexample :
  let result := handleSendMessage unreadableSend greetingView in
  JS.trim (inputValue greetingView) = "hello"
  /\ isLoading greetingView = false
  /\ sendRequests (snd result) = []
  /\ map msg_content (messages (fst result))
     = ["hello";
        "Error preparing attachments: The requested file could not be read"]
  /\ isLoading (fst result) = false.
Proof. cbv zeta. repeat split; vm_compute; reflexivity. Qed.

(** C4, amended.  A submission is a no-op, with no request issued and the
    view (its message list included) unchanged, whenever the trimmed input
    is empty and nothing is attached, or a turn is streaming.  Otherwise,
    when every pending attachment can be read, exactly one
    [chat.sendMessage] request is issued, with the trimmed text and the
    serialized attachments; and when reading an attachment fails, no
    request is issued: the user's message and an error message are added
    to the list and the loading flag is turned off. *)
Theorem handleSendMessage_submits_once (e : SendEnv) (v : View) :
  (nothingToSubmit v -> handleSendMessage e v = (v, []))
  /\ (~ nothingToSubmit v ->
      (forall payloads : list SerializedAttachmentPayload,
         serializeAttachments e (pendingAttachments v) = inr payloads ->
         sendRequests (snd (handleSendMessage e v))
         = [mkSend (JS.trim (inputValue v)) (some_if_nonempty payloads)])
      /\ (forall error : JS.Thrown,
            serializeAttachments e (pendingAttachments v) = inl error ->
            sendRequests (snd (handleSendMessage e v)) = []
            /\ messages (fst (handleSendMessage e v))
               = (messages v
                  ++ [userMessageOf e v;
                      errorMessage e
                        ("Error preparing attachments: "
                         ++ JS.messageOf "Unknown error occurred" error)])%list
            /\ isLoading (fst (handleSendMessage e v)) = false)).
Proof.
  pose proof (guard_spec v) as Hguard.
  unfold handleSendMessage.
  destruct (negb _ || isLoading v) eqn:Hg.
  - split; [reflexivity|]. intros Hn. exfalso. apply Hn, Hguard. reflexivity.
  - split; [intros Hn; apply Hguard in Hn; discriminate Hn|].
    intros _. split.
    + intros payloads Hp. rewrite Hp.
      destruct (sendMessage e _) as [err|response].
      * cbn [snd]. rewrite sendRequests_app, sendRequests_released. reflexivity.
      * destruct (if response_success response then None
                  else JS.or_null (response_error response)).
        -- cbn [snd]. rewrite sendRequests_app, sendRequests_released. reflexivity.
        -- destruct (response_attachments response) as [[|x l]|]; cbn [snd];
             rewrite sendRequests_app, sendRequests_released; reflexivity.
    + intros error Herr. rewrite Herr. cbn [fst snd messages isLoading].
      rewrite sendRequests_released, <- app_assoc. repeat split; reflexivity.
Qed.

Lemma handleSendMessage_submits_once_witness :
  sendRequests (snd (handleSendMessage readableSend greetingView))
  = [mkSend "hello" (Some [mkPayload "notes.txt" "text/plain" 2048 "bytes"])]
  /\ handleSendMessage readableSend emptyView = (emptyView, []).
Proof.
  destruct (handleSendMessage_submits_once readableSend greetingView) as [_ Hsend].
  destruct (handleSendMessage_submits_once readableSend emptyView) as [Hnoop _].
  split.
  - refine (proj1 (Hsend _) _ eq_refl).
    intros [[Htext _]|Hloading]; [vm_compute in Htext|cbn in Hloading]; discriminate.
  - apply Hnoop. left. split; reflexivity.
Defined.

(** ** C3: the debounced auto-save *)

Lemma advance_not_due (store : Store) (t : Z) (s : Saver) (x : Timer) :
  timers s = [x] -> t < deadline x -> advance store t s = set_clock t s.
Proof.
  intros H Hlt. unfold advance. rewrite H. cbn [List.length Nat.mul Nat.add runTimers].
  rewrite H. cbn [nextDue].
  destruct (Z.leb_spec (deadline x) t); [lia|reflexivity].
Qed.

Lemma effect_arms (r : Snapshot) (ref : option nat) (cl : bool) (t : Z)
    (ts : list Timer) (nid : nat) (ws : list Chat.Effect) :
  snap_messages r <> [] ->
  (forall x, In x ts -> ref = Some (timer_id x)) ->
  runEffect (mkSaver r ref false cl t ts nid ws)
  = mkSaver r (Some nid) false true t [mkTimer nid (t + SAVE_DELAY) r] (S nid) ws.
Proof.
  intros Hms Hts.
  assert (Hclear : forall c,
    timers (clearSaveTimeout (mkSaver r ref false c t ts nid ws)) = []
    /\ clearSaveTimeout (mkSaver r ref false c t ts nid ws)
       = mkSaver r ref false c t
           (timers (clearSaveTimeout (mkSaver r ref false c t ts nid ws))) nid ws).
  { intros c. unfold clearSaveTimeout. cbn [saveTimeoutRef].
    destruct ref as [id|].
    - unfold clearTimeout. cbn [timers rendered saveTimeoutRef isInitialLoadRef hasCleanup
                                clock nextTimerId writes].
      split; [|reflexivity].
      induction ts as [|x ts IH]; [reflexivity|].
      cbn [filter]. assert (Hx : Some id = Some (timer_id x)) by (apply Hts; left; reflexivity).
      injection Hx as ->. rewrite Nat.eqb_refl. cbn [negb].
      apply IH. intros y Hy. apply Hts. right. exact Hy.
    - destruct ts as [|x ts]; [split; reflexivity|].
      specialize (Hts x (or_introl eq_refl)). discriminate Hts. }
  unfold runEffect. cbn [hasCleanup].
  assert (Hbody : forall ts', (ts' = [] \/ ts' = ts) ->
    autoSaveEffect (mkSaver r ref false cl t ts' nid ws)
    = mkSaver r (Some nid) false true t [mkTimer nid (t + SAVE_DELAY) r] (S nid) ws).
  { intros ts' Hts'. unfold autoSaveEffect. cbn [isInitialLoadRef rendered].
    destruct (snap_messages r) as [|m ms] eqn:Hr; [contradiction Hms; reflexivity|].
    assert (Hc : clearSaveTimeout (mkSaver r ref false cl t ts' nid ws)
                 = mkSaver r ref false cl t [] nid ws).
    { destruct Hts' as [->| ->].
      - unfold clearSaveTimeout. cbn [saveTimeoutRef]. destruct ref; reflexivity.
      - destruct (Hclear cl) as [Hnil Heq]. rewrite Heq, Hnil. reflexivity. }
    rewrite Hc. reflexivity. }
  destruct cl.
  - destruct (Hclear true) as [Hnil Heq]. rewrite Heq, Hnil. apply Hbody. left. reflexivity.
  - apply Hbody. right. reflexivity.
Qed.

Lemma clearSaveTimeout_pending (s : Saver) :
  onePending s -> timers (clearSaveTimeout s) = [].
Proof.
  unfold clearSaveTimeout, clearTimeout. intros [H|[x [H [Hr _]]]].
  - destruct (saveTimeoutRef s); cbn [timers]; rewrite H; reflexivity.
  - rewrite Hr. cbn [timers]. rewrite H. cbn [filter].
    rewrite Nat.eqb_refl. reflexivity.
Qed.

Lemma clearSaveTimeout_writes (s : Saver) :
  writes (clearSaveTimeout s) = writes s /\ rendered (clearSaveTimeout s) = rendered s
  /\ isInitialLoadRef (clearSaveTimeout s) = isInitialLoadRef s.
Proof.
  unfold clearSaveTimeout, clearTimeout. destruct (saveTimeoutRef s); repeat split.
Qed.

Lemma runEffect_pending (s : Saver) :
  onePending s -> onePending (runEffect s) /\ writes (runEffect s) = writes s.
Proof.
  intros H. unfold runEffect.
  assert (H1 : timers (if hasCleanup s then clearSaveTimeout s else s) = []
               /\ writes (if hasCleanup s then clearSaveTimeout s else s) = writes s).
  { destruct (hasCleanup s) eqn:E.
    - split; [apply clearSaveTimeout_pending, H|apply clearSaveTimeout_writes].
    - split; [|reflexivity]. destruct H as [H|[x [_ [_ [Hc _]]]]]; [exact H|congruence]. }
  revert H1. generalize (if hasCleanup s then clearSaveTimeout s else s) as s1.
  intros s1 [Ht Hw]. unfold autoSaveEffect.
  destruct (isInitialLoadRef s1).
  - split; [left; exact Ht|exact Hw].
  - destruct (snap_messages (rendered s1)) as [|m ms] eqn:Em.
    + split; [left; exact Ht|exact Hw].
    + assert (Hc : timers (clearSaveTimeout s1) = [])
        by (apply clearSaveTimeout_pending; left; exact Ht).
      destruct (clearSaveTimeout_writes s1) as [Hw1 [Hr1 _]].
      split.
      * right. eexists. unfold set_flags, scheduleSave.
        cbn [timers saveTimeoutRef hasCleanup]. rewrite Hc. cbn [app].
        split; [reflexivity|]. cbn [timer_id closure].
        split; [reflexivity|]. split; [reflexivity|].
        rewrite Hr1, Em. discriminate.
      * unfold set_flags, scheduleSave. cbn [writes]. congruence.
Qed.

Lemma setCurrentConversationId_pending (id : option string) (s : Saver) :
  onePending s ->
  onePending (setCurrentConversationId id s)
  /\ writes (setCurrentConversationId id s) = writes s.
Proof.
  intros H. unfold setCurrentConversationId.
  destruct (option_string_eqb _ _); [split; [exact H|reflexivity]|].
  apply (runEffect_pending (set_rendered _ s)). exact H.
Qed.

Lemma nextDue_In (t : Z) (ts : list Timer) (x : Timer) :
  nextDue t ts = Some x -> In x ts.
Proof.
  induction ts as [|y ts IH]; cbn [nextDue]; [discriminate|].
  destruct (nextDue t ts) as [z|].
  - destruct ((deadline y <=? t) && (deadline y <=? deadline z)); intros [= <-].
    + left. reflexivity.
    + right. apply IH. reflexivity.
  - destruct (deadline y <=? t); [|discriminate]. intros [= <-]. left. reflexivity.
Qed.

Lemma nextDue_due (t : Z) (ts : list Timer) (x : Timer) :
  nextDue t ts = Some x -> deadline x <= t.
Proof.
  revert x. induction ts as [|y ts IH]; intros x; cbn [nextDue]; [discriminate|].
  destruct (nextDue t ts) as [z|].
  - destruct (deadline y <=? t) eqn:Ey; cbn [andb].
    + destruct (deadline y <=? deadline z); intros [= <-];
        [apply Z.leb_le, Ey|apply IH; reflexivity].
    + intros [= <-]. apply IH. reflexivity.
  - destruct (deadline y <=? t) eqn:Ey; [|discriminate].
    intros [= <-]. apply Z.leb_le, Ey.
Qed.

Lemma clearSaveTimeout_clock (s : Saver) :
  clock (clearSaveTimeout s) = clock s
  /\ hasCleanup (clearSaveTimeout s) = hasCleanup s.
Proof.
  unfold clearSaveTimeout, clearTimeout. destruct (saveTimeoutRef s); split; reflexivity.
Qed.

Lemma runEffect_settled (s : Saver) :
  isInitialLoadRef (runEffect s) = false /\ clock (runEffect s) = clock s.
Proof.
  unfold runEffect.
  assert (Hc : clock (if hasCleanup s then clearSaveTimeout s else s) = clock s)
    by (destruct (hasCleanup s); [apply clearSaveTimeout_clock|reflexivity]).
  revert Hc. generalize (if hasCleanup s then clearSaveTimeout s else s) as s1.
  intros s1 Hc. unfold autoSaveEffect.
  destruct (isInitialLoadRef s1); [split; [reflexivity|exact Hc]|].
  destruct (snap_messages (rendered s1)); [split; [reflexivity|exact Hc]|].
  unfold set_flags, scheduleSave. cbn [isInitialLoadRef clock].
  split; [reflexivity|]. rewrite (proj1 (clearSaveTimeout_clock s1)). exact Hc.
Qed.

(** The callback of a save timer leaves the view as it can be: at most one
    save pending, the initial-load flag clear, the clock where it was. *)
Lemma saveCallback_settled (store : Store) (c : Snapshot) (s : Saver) :
  onePending s -> isInitialLoadRef s = false ->
  onePending (saveCallback store c s)
  /\ isInitialLoadRef (saveCallback store c s) = false
  /\ clock (saveCallback store c s) = clock s.
Proof.
  intros Hp Hf. unfold saveCallback.
  destruct (JS.or_null (snap_conversationId c)); [repeat split; assumption|].
  destruct (store _ _) as [id|]; [|repeat split; assumption].
  unfold setCurrentConversationId.
  destruct (option_string_eqb _ _); [repeat split; assumption|].
  split.
  - apply (runEffect_pending (set_rendered _ (record_write _ s))). exact Hp.
  - apply (runEffect_settled (set_rendered _ (record_write _ s))).
Qed.

Lemma onePending_held (s : Saver) : onePending s -> heldByRef s.
Proof.
  intros [H|[y [H [Hr _]]]] x Hx; rewrite H in Hx; [destruct Hx|].
  destruct Hx as [<-|[]]. exact Hr.
Qed.

Lemma runTimers_settled (fuel : nat) (store : Store) (t : Z) (s : Saver) :
  heldByRef s -> isInitialLoadRef s = false ->
  heldByRef (runTimers fuel store t s)
  /\ isInitialLoadRef (runTimers fuel store t s) = false
  /\ clock (runTimers fuel store t s) = Z.max (clock s) t.
Proof.
  revert s. induction fuel as [|fuel IH]; intros s Hp Hf; cbn [runTimers];
    [repeat split; assumption|].
  destruct (nextDue t (timers s)) as [x|] eqn:Ed; [|repeat split; assumption].
  pose proof (nextDue_due t _ x Ed) as Hdue. apply nextDue_In in Ed.
  destruct (saveCallback_settled store (closure x)
              (clearTimeout (timer_id x) (set_clock (deadline x) s))) as [H1 [H2 H3]].
  - left. unfold clearTimeout, set_clock. cbn [timers].
    pose proof (Hp x Ed) as Hx.
    assert (Hall : forall y, In y (timers s) -> timer_id y = timer_id x).
    { intros y Hy. specialize (Hp y Hy). congruence. }
    revert Hall. generalize (timers s) as ts.
    induction ts as [|y ts IHts]; intros Hall; [reflexivity|].
    cbn [filter]. rewrite (Hall y (or_introl eq_refl)), Nat.eqb_refl. cbn [negb].
    apply IHts. intros z Hz. apply Hall. right. exact Hz.
  - exact Hf.
  - destruct (IH _ (onePending_held _ H1) H2) as [K1 [K2 K3]].
    split; [exact K1|]. split; [exact K2|].
    rewrite K3, H3. unfold clearTimeout, set_clock. cbn [clock]. lia.
Qed.

Lemma mutate_arms (store : Store) (s : Saver) (t : Z) (ms : list Message) :
  heldByRef s ->
  isInitialLoadRef s = false ->
  clock s <= t ->
  ms <> [] ->
  let opened := advance store t s in
  let s' := step store s (Mutate t ms) in
  armedAt s' t
  /\ rendered s'
     = mkSnapshot ms (snap_conversationId (rendered opened))
         (snap_sessionId (rendered opened))
  /\ writes s' = writes opened.
Proof.
  intros Hp Hflag Hclk Hms. cbv zeta. unfold step.
  destruct (runTimers_settled (2 * List.length (timers s)) store t s Hp Hflag)
    as [Hp' [Hflag' Hclk']].
  fold (advance store t s) in Hp', Hflag', Hclk'.
  revert Hp' Hflag' Hclk'. generalize (advance store t s) as opened.
  intros [r ref flag cl clk ts nid ws] Hp' Hflag' Hclk'.
  cbn [isInitialLoadRef clock] in Hflag', Hclk'. subst flag.
  rewrite Z.max_r in Hclk' by exact Hclk. subst clk.
  unfold setMessages, set_rendered.
  cbn [rendered saveTimeoutRef isInitialLoadRef hasCleanup clock timers nextTimerId writes].
  rewrite effect_arms; [|exact Hms|].
  - cbn [rendered writes]. split; [|split; reflexivity].
    exists nid. cbn [timers rendered saveTimeoutRef hasCleanup isInitialLoadRef clock].
    repeat split; reflexivity.
  - exact Hp'.
Qed.

Lemma mutate_rearms (store : Store) (s : Saver) (t t' : Z) (ms : list Message) :
  armedAt s t ->
  t <= t' < t + SAVE_DELAY ->
  ms <> [] ->
  let s' := step store s (Mutate t' ms) in
  armedAt s' t'
  /\ rendered s'
     = mkSnapshot ms (snap_conversationId (rendered s)) (snap_sessionId (rendered s))
  /\ writes s' = writes s.
Proof.
  intros [id [Hts [Href [Hcl [Hflag Hclk]]]]] Ht Hms. cbv zeta. unfold step.
  rewrite (advance_not_due store t' s _ Hts) by (cbn [deadline]; lia).
  destruct s as [r ref flag cl clk ts nid ws].
  cbn [timers rendered saveTimeoutRef hasCleanup isInitialLoadRef clock] in *.
  subst ts ref cl flag clk.
  unfold setMessages, set_clock, set_rendered.
  cbn [rendered saveTimeoutRef isInitialLoadRef hasCleanup clock timers nextTimerId writes].
  replace (Z.max t t') with t' by lia.
  rewrite effect_arms;
    [|exact Hms|intros x [<-|[]]; reflexivity].
  cbn [rendered writes]. split; [|split; reflexivity].
  exists nid. cbn [timers rendered saveTimeoutRef hasCleanup isInitialLoadRef clock].
  repeat split; reflexivity.
Qed.

Lemma last_cons_default {A} (a d : A) (l : list A) : List.last (a :: l) d = List.last l a.
Proof.
  revert a d. induction l as [|b l IH]; intros a d; [reflexivity|].
  change (List.last (a :: b :: l) d) with (List.last (b :: l) d).
  rewrite (IH b d), (IH b a). reflexivity.
Qed.

Lemma withinWindow_prefix (t : Z) (a b : list (Z * list Message)) :
  withinWindow t (a ++ b) -> withinWindow t a.
Proof.
  revert t. induction a as [|m a IH]; intros t H; [exact I|].
  cbn [app withinWindow] in *. destruct H as [Ht [Hm H]].
  repeat split; try tauto. apply IH. exact H.
Qed.

Lemma burst_rearms (store : Store) (rest : list (Z * list Message)) :
  forall (s : Saver) (t : Z),
    armedAt s t ->
    withinWindow t rest ->
    let s' := run store s (mutations rest) in
    let final := List.last rest (t, snap_messages (rendered s)) in
    armedAt s' (fst final)
    /\ rendered s'
       = mkSnapshot (snd final) (snap_conversationId (rendered s))
           (snap_sessionId (rendered s))
    /\ writes s' = writes s.
Proof.
  induction rest as [|m rest IH]; intros s t Harmed Hwin; cbv zeta.
  - cbn. split; [exact Harmed|]. split; [destruct (rendered s)|]; reflexivity.
  - cbn [withinWindow] in Hwin. destruct Hwin as [Ht [Hm Hwin]].
    destruct (mutate_rearms store s t (fst m) (snd m) Harmed Ht Hm) as [Ha [Hr Hw]].
    unfold run, mutations. cbn [map fold_left].
    specialize (IH _ _ Ha Hwin). cbv zeta in IH. unfold run, mutations in IH.
    destruct IH as [Ha' [Hr' Hw']].
    rewrite last_cons_default.
    rewrite Hr in Ha', Hr'. cbn [snap_messages snap_conversationId snap_sessionId] in *.
    replace (fst m, snd m) with m in * by (destruct m; reflexivity).
    rewrite Hw in Hw'. repeat split; assumption.
Qed.

Lemma burst_arms (store : Store) (s : Saver) (first : Z * list Message)
    (rest : list (Z * list Message)) :
  heldByRef s ->
  isInitialLoadRef s = false ->
  clock s <= fst first ->
  snd first <> [] ->
  withinWindow (fst first) rest ->
  let opened := advance store (fst first) s in
  let s' := run store s (mutations (first :: rest)) in
  let final := List.last rest first in
  armedAt s' (fst final)
  /\ rendered s'
     = mkSnapshot (snd final) (snap_conversationId (rendered opened))
         (snap_sessionId (rendered opened))
  /\ writes s' = writes opened.
Proof.
  intros Hp Hflag Hclk Hms Hwin. cbv zeta.
  destruct (mutate_arms store s (fst first) (snd first) Hp Hflag Hclk Hms) as [Ha [Hr Hw]].
  destruct (burst_rearms store rest _ _ Ha Hwin) as [Ha' [Hr' Hw']].
  unfold run, mutations in *. cbn [map fold_left].
  rewrite Hr in Ha', Hr'. cbn [snap_messages snap_conversationId snap_sessionId] in *.
  replace (fst first, snd first) with first in * by (destruct first; reflexivity).
  rewrite Hw in Hw'. repeat split; assumption.
Qed.

Lemma nextDue_none (t : Z) (ts : list Timer) :
  (forall x, In x ts -> t < deadline x) -> nextDue t ts = None.
Proof.
  induction ts as [|x ts IH]; intros H; [reflexivity|].
  cbn [nextDue]. rewrite IH by (intros y Hy; apply H; right; exact Hy).
  assert (Hx : t < deadline x) by (apply H; left; reflexivity).
  destruct (Z.leb_spec (deadline x) t); [lia|reflexivity].
Qed.

Lemma runTimers_none (fuel : nat) (store : Store) (t : Z) (s : Saver) :
  nextDue t (timers s) = None -> runTimers fuel store t s = set_clock t s.
Proof. intros H. destruct fuel; cbn [runTimers]; [|rewrite H]; reflexivity. Qed.

(** When no save is due, time passes and nothing else happens. *)
Lemma advance_nothing_due (store : Store) (t : Z) (s : Saver) :
  (forall x, In x (timers s) -> t < deadline x) -> advance store t s = set_clock t s.
Proof. intros H. unfold advance. apply runTimers_none, nextDue_none, H. Qed.

(** What the callback of the save timer leaves behind when it runs with no
    other timer pending: one more write, and at most a timer that is due a
    full delay later. *)
Lemma saveCallback_idle (store : Store) (c r : Snapshot) (ref : option nat)
    (cl : bool) (clk : Z) (nid : nat) (ws : list Chat.Effect) :
  let s' := saveCallback store c (mkSaver r ref false cl clk [] nid ws) in
  writes s' = (ws ++ [saveOf c])%list
  /\ (forall x, In x (timers s') -> deadline x = clk + SAVE_DELAY)
  /\ (forall id, JS.or_null (snap_conversationId c) = Some id -> timers s' = []).
Proof.
  cbv zeta. unfold saveCallback, saveOf.
  destruct (JS.or_null (snap_conversationId c)) as [id|].
  - cbn. split; [reflexivity|]. split; [intros x []|reflexivity].
  - unfold record_write.
    cbn [rendered saveTimeoutRef isInitialLoadRef hasCleanup clock timers nextTimerId writes].
    destruct (store _ _) as [newId|];
      [|cbn; split; [reflexivity|]; split; [intros x []|discriminate]].
    unfold setCurrentConversationId. cbn [rendered].
    destruct (option_string_eqb _ _);
      [cbn; split; [reflexivity|]; split; [intros x []|discriminate]|].
    unfold set_rendered.
    cbn [rendered saveTimeoutRef isInitialLoadRef hasCleanup clock timers nextTimerId writes].
    destruct (snap_messages r) as [|m ms] eqn:Hr.
    + unfold runEffect, autoSaveEffect, clearSaveTimeout, clearTimeout.
      cbn [rendered saveTimeoutRef isInitialLoadRef hasCleanup clock timers nextTimerId
           writes snap_messages filter].
      destruct cl; destruct ref; cbn; (split; [reflexivity|]; split; [intros x []|discriminate]).
    + rewrite effect_arms; [|cbn [snap_messages]; discriminate|intros x []].
      cbn [writes timers]. split; [reflexivity|]. split; [|discriminate].
      intros x [<-|[]]. reflexivity.
Qed.

Lemma advance_before_deadline (store : Store) (s : Saver) (t T : Z) :
  armedAt s t -> t <= T < t + SAVE_DELAY ->
  writes (advance store T s) = writes s.
Proof.
  intros [id [Hts _]] HT.
  rewrite (advance_not_due store T s _ Hts) by (cbn [deadline]; lia).
  reflexivity.
Qed.

Lemma runTimers_due (fuel : nat) (store : Store) (t : Z) (s : Saver) (x : Timer) :
  nextDue t (timers s) = Some x ->
  runTimers (S fuel) store t s
  = runTimers fuel store t
      (saveCallback store (closure x)
         (clearTimeout (timer_id x) (set_clock (deadline x) s))).
Proof. intros H. cbn [runTimers]. rewrite H. reflexivity. Qed.

Lemma advance_fires (store : Store) (s : Saver) (t T : Z) :
  armedAt s t ->
  t + SAVE_DELAY <= T ->
  (T < t + 2 * SAVE_DELAY
   \/ exists id, JS.or_null (snap_conversationId (rendered s)) = Some id) ->
  writes (advance store T s) = (writes s ++ [saveOf (rendered s)])%list.
Proof.
  intros [id [Hts [Href [Hcl [Hflag Hclk]]]]] Hdue Hbound.
  destruct s as [r ref flag cl clk ts nid ws].
  cbn [timers rendered saveTimeoutRef hasCleanup isInitialLoadRef clock writes] in *.
  subst ts ref cl flag clk.
  unfold advance. cbn [timers List.length]. change (2 * 1)%nat with 2%nat.
  rewrite (runTimers_due 1 store T _ (mkTimer id (t + SAVE_DELAY) r)).
  2:{ cbn [timers nextDue deadline].
      destruct (Z.leb_spec (t + SAVE_DELAY) T) as [_|Hlt]; [reflexivity|lia]. }
  cbn [closure timer_id deadline].
  assert (Hfired :
    clearTimeout id
      (set_clock (t + SAVE_DELAY)
         (mkSaver r (Some id) false true t [mkTimer id (t + SAVE_DELAY) r] nid ws))
    = mkSaver r (Some id) false true (t + SAVE_DELAY) [] nid ws).
  { unfold set_clock, clearTimeout.
    cbn [rendered saveTimeoutRef isInitialLoadRef hasCleanup clock timers nextTimerId
         writes filter timer_id].
    rewrite Nat.eqb_refl. cbn [negb].
    replace (Z.max t (t + SAVE_DELAY)) with (t + SAVE_DELAY) by (unfold SAVE_DELAY; lia).
    reflexivity. }
  rewrite Hfired.
  destruct (saveCallback_idle store r r (Some id) true (t + SAVE_DELAY) nid ws)
    as [Hw [Hd Hnone]].
  cbv zeta in Hw, Hd, Hnone.
  rewrite runTimers_none.
  - cbn [writes set_clock]. exact Hw.
  - apply nextDue_none. intros x Hx.
    destruct Hbound as [HT|[cid Hcid]].
    + rewrite (Hd x Hx). unfold SAVE_DELAY in *. lia.
    + rewrite (Hnone cid Hcid) in Hx. destruct Hx.
Qed.

(** C3, as stated, fails on three points.  In a fresh chat one mutation is
    followed by two writes, not one: the save timer creates the
    conversation, the new conversation id re-runs the effect, and two
    seconds later the same list is written again as an update.  A
    mutation that arrives while the initial-load flag is set, as the load
    of a conversation does, is followed by no write at all.  And so is a
    burst that leaves the list empty. *)
Lemma autosave_write_count_counterexample :
  writes (run grantingStore (mounted 0) [Mutate 1000 [sampleMessage1]; Wait 5000])
  = [ConversationCreate (serializeMessagesForStorage [sampleMessage1]) None;
     ConversationUpdate "conv-1" (serializeMessagesForStorage [sampleMessage1]) None]
  /\ writes (run grantingStore (mounted 0)
               [MarkInitialLoad; Mutate 1000 [sampleMessage1]; Wait 60000])
     = []
  /\ writes (run grantingStore (mounted 0)
               [Mutate 1000 [sampleMessage1]; Mutate 1500 []; Wait 60000])
     = [].
Proof. repeat split; vm_compute; reflexivity. Qed.

(** C3, amended.  Take any state of the view in which every pending save
    is the one whose handle [saveTimeoutRef] holds (every state reached
    from mounting is such a state, and so is every state with no save
    pending), with the initial-load flag clear.  Take a burst of one or
    more mutations, each leaving a non-empty list and each less than two
    seconds after the one before it; the burst opens when its first
    mutation arrives, after the saves that were due by then have run.  A
    save that is pending and not yet due when the burst opens is cancelled
    by the first mutation and writes nothing.  After every mutation of the
    burst exactly one timer is pending, due two seconds after that
    mutation and holding the list it left: the timer of the mutation
    before it is gone.  Nothing is written during the burst, nor until two
    seconds have passed since its last mutation.  From then on, and for
    two seconds more, exactly one write has been issued: an update of the
    current conversation, or a create when there is none, with the
    serialized final list.  When the conversation exists already, that
    write stays the only one however long the wait. *)
Theorem autosave_debounce
    (store : Store) (s : Saver) (first : Z * list Message)
    (rest : list (Z * list Message)) :
  heldByRef s ->
  isInitialLoadRef s = false ->
  clock s <= fst first ->
  snd first <> [] ->
  withinWindow (fst first) rest ->
  let opened := advance store (fst first) s in
  let final := List.last rest first in
  let s' := run store s (mutations (first :: rest)) in
  let saved (ms : list Message) :=
    mkSnapshot ms (snap_conversationId (rendered opened))
      (snap_sessionId (rendered opened)) in
  ((forall x, In x (timers s) -> fst first < deadline x) ->
   writes opened = writes s /\ rendered opened = rendered s)
  /\ (forall pre m post,
        first :: rest = (pre ++ m :: post)%list ->
        exists id : nat,
          timers (run store s (mutations (pre ++ [m])))
          = [mkTimer id (fst m + 2000) (saved (snd m))])
  /\ writes s' = writes opened
  /\ (forall T, fst final <= T < fst final + 2000 ->
      writes (advance store T s') = writes opened)
  /\ (forall T, fst final + 2000 <= T < fst final + 4000 ->
      writes (advance store T s') = (writes opened ++ [saveOf (saved (snd final))])%list)
  /\ (forall id, JS.or_null (snap_conversationId (rendered opened)) = Some id ->
      forall T, fst final + 2000 <= T ->
      writes (advance store T s')
      = (writes opened
         ++ [ConversationUpdate id (serializeMessagesForStorage (snd final))
               (snap_sessionId (rendered opened))])%list).
Proof.
  intros Hp Hflag Hclk Hms Hwin. cbv zeta.
  destruct (burst_arms store s first rest Hp Hflag Hclk Hms Hwin) as [Ha [Hr Hw]].
  cbv zeta in Ha, Hr, Hw.
  split; [|split; [|split; [exact Hw|split; [|split]]]].
  - intros Hlater. rewrite (advance_nothing_due store _ s Hlater). split; reflexivity.
  - intros pre m post Heq.
    assert (Hpre : exists first' rest',
               (pre ++ [m])%list = first' :: rest'
               /\ first' = first
               /\ withinWindow (fst first) rest'
               /\ List.last rest' first' = m).
    { destruct pre as [|p pre].
      - cbn in Heq. injection Heq as <- _. exists first, []. repeat split; reflexivity.
      - cbn in Heq. injection Heq as <- Hrest. exists first, (pre ++ [m])%list.
        split; [reflexivity|]. split; [reflexivity|]. split.
        + apply (withinWindow_prefix _ _ post). rewrite <- app_assoc. cbn.
          rewrite <- Hrest. exact Hwin.
        + apply last_last. }
    destruct Hpre as [first' [rest' [Heq' [-> [Hwin' Hlast]]]]]. rewrite Heq'.
    destruct (burst_arms store s first rest' Hp Hflag Hclk Hms Hwin') as [Ha' [Hr' _]].
    cbv zeta in Ha', Hr'. rewrite Hlast in Ha', Hr'.
    destruct Ha' as [id [Htimers _]]. exists id. rewrite Htimers, Hr'. reflexivity.
  - intros T HT. rewrite <- Hw. apply (advance_before_deadline store _ _ T Ha).
    unfold SAVE_DELAY. exact HT.
  - intros T HT. rewrite <- Hw, <- Hr. apply (advance_fires store _ _ T Ha).
    + unfold SAVE_DELAY. lia.
    + left. unfold SAVE_DELAY. lia.
  - intros id Hid T HT.
    rewrite <- Hw.
    rewrite (advance_fires store _ _ T Ha).
    + rewrite Hr. unfold saveOf. cbn [snap_conversationId snap_messages snap_sessionId].
      rewrite Hid. reflexivity.
    + unfold SAVE_DELAY. lia.
    + right. exists id. rewrite Hr. exact Hid.
Qed.

Lemma autosave_debounce_witness :
  let replied := [sampleMessage1; sampleMessage2] in
  writes freshChatSaved
  = [ConversationCreate (serializeMessagesForStorage [sampleMessage1]) None]
  /\ (exists id : nat,
        timers freshChatSaved
        = [mkTimer id 4000 (mkSnapshot [sampleMessage1] (Some "conv-1") None)])
  /\ (exists id : nat,
        timers (run grantingStore freshChatSaved [Mutate 3000 replied])
        = [mkTimer id 5000 (mkSnapshot replied (Some "conv-1") None)])
  /\ writes (advance grantingStore 4999
               (run grantingStore freshChatSaved [Mutate 3000 replied]))
     = [ConversationCreate (serializeMessagesForStorage [sampleMessage1]) None]
  /\ writes (advance grantingStore 60000
               (run grantingStore freshChatSaved [Mutate 3000 replied]))
     = [ConversationCreate (serializeMessagesForStorage [sampleMessage1]) None;
        ConversationUpdate "conv-1" (serializeMessagesForStorage replied) None].
Proof.
  cbv zeta.
  assert (Hp : heldByRef freshChatSaved).
  { intros x Hx. vm_compute in Hx. destruct Hx as [<-|[]]. reflexivity. }
  destruct (autosave_debounce grantingStore freshChatSaved
              (3000, [sampleMessage1; sampleMessage2]) [] Hp)
    as [Hsame [Hpre [_ [Hquiet [_ Hupdate]]]]];
    [reflexivity | vm_compute; discriminate | discriminate | exact I |].
  cbv zeta in Hsame, Hpre, Hquiet, Hupdate.
  split; [reflexivity|]. split; [eexists; reflexivity|]. split; [|split].
  - apply (Hpre [] (3000, [sampleMessage1; sampleMessage2]) []). reflexivity.
  - apply (Hquiet 4999). cbn. lia.
  - apply (Hupdate "conv-1"); [reflexivity|cbn; lia].
Defined.

(** * Further properties of the sources *)

(** ** The code a user pastes *)

Lemma split_without_separator (c : ascii) (s : string) :
  occurs c s = false -> JS.split c s = [s].
Proof.
  induction s as [|x s IH]; [reflexivity|].
  cbn [occurs JS.split]. intros H. apply orb_false_iff in H. destruct H as [Hx Hs].
  rewrite Hx, (IH Hs). reflexivity.
Qed.

Lemma split_at_separator (c : ascii) (a b : string) :
  occurs c a = false -> JS.split c (a ++ String c b) = a :: JS.split c b.
Proof.
  induction a as [|x a IH]; cbn [occurs append JS.split]; intros H.
  - rewrite Ascii.eqb_refl. reflexivity.
  - apply orb_false_iff in H. destruct H as [Hx Ha].
    rewrite Hx, (IH Ha). reflexivity.
Qed.

(** X1.  [exchangeCodeForTokens] reads a pasted code of the form
    [code#state] as the authorization code and the state, and sends both
    with the verifier of the flow; a code without [#] is sent whole and
    without a state.  Nothing but the request is done: the config stays as
    it was. *)
Theorem exchangeCodeForTokens_splits_code
    (e : Env) (code state verifier : string) (s : State) :
  occurs "#" code = false ->
  occurs "#" state = false ->
  trace (snd (exchangeCodeForTokens e (code ++ "#" ++ state) verifier s))
  = (trace s
     ++ [Fetch (AuthorizationCodeGrant code (Some state) CLIENT_ID REDIRECT_URI verifier)])%list
  /\ trace (snd (exchangeCodeForTokens e code verifier s))
     = (trace s
        ++ [Fetch (AuthorizationCodeGrant code None CLIENT_ID REDIRECT_URI verifier)])%list
  /\ config (snd (exchangeCodeForTokens e (code ++ "#" ++ state) verifier s)) = config s.
Proof.
  intros Hc Hs. run_main.
  change (code ++ "#" ++ state) with (code ++ String "#" state).
  rewrite (split_at_separator "#" code state Hc), (split_without_separator "#" state Hs),
    (split_without_separator "#" code Hc).
  repeat split; reflexivity.
Qed.

Lemma exchangeCodeForTokens_splits_code_witness :
  trace (snd (exchangeCodeForTokens (granting 0) "abc123#xyz" "v-1" loggedOutState))
  = [Fetch (AuthorizationCodeGrant "abc123" (Some "xyz") CLIENT_ID REDIRECT_URI "v-1")]
  /\ trace (snd (exchangeCodeForTokens (granting 0) "abc123" "v-1" loggedOutState))
     = [Fetch (AuthorizationCodeGrant "abc123" None CLIENT_ID REDIRECT_URI "v-1")].
Proof.
  destruct (exchangeCodeForTokens_splits_code (granting 0) "abc123" "xyz" "v-1"
              loggedOutState eq_refl eq_refl) as [H1 [H2 _]].
  split; [exact H1|exact H2].
Defined.

(** ** Tokens in the config *)

(** X2.  What [saveOAuthTokens] stores, [getOAuthTokens] reads back, and
    after [clearOAuthTokens] nothing is read; neither touches the other
    keys of the config. *)
Theorem stored_tokens_round_trip (tokens : OAuthTokens) (s : State) :
  let saved := snd (saveOAuthTokens tokens s) in
  let cleared := snd (clearOAuthTokens saved) in
  fst (getOAuthTokens saved) = Eff.Ok (Some tokens)
  /\ fst (getOAuthTokens cleared) = Eff.Ok None
  /\ otherKeys (config saved) = otherKeys (config s)
  /\ otherKeys (config cleared) = otherKeys (config s).
Proof. cbv zeta. repeat split; reflexivity. Qed.

Lemma second_call_after_refresh
    (e e' : Env) (s : State) (t : OAuthTokens) (json : TokenJson) :
  oauthTokens (config s) = Some t ->
  isTokenExpired e t = true ->
  tokenEndpoint e (refreshRequest t) = FetchResponse true (Some json) ->
  let first := getValidAccessToken e s in
  let second := getValidAccessToken e' (snd first) in
  fst first = Eff.Ok (Some (access_token json))
  /\ oauthTokens (config (snd first)) = Some (grantedTokens e json)
  /\ otherKeys (config (snd first)) = otherKeys (config s)
  /\ (now e' + 300000 <= expires (grantedTokens e json) ->
      fst second = Eff.Ok (Some (access_token json))
      /\ fetches (trace (snd second)) = fetches (trace (snd first)))
  /\ (expires (grantedTokens e json) < now e' + 300000 ->
      fetches (trace (snd second))
      = (fetches (trace (snd first))
         ++ [RefreshTokenGrant (refresh_token json) CLIENT_ID])%list).
Proof.
  intros H Hx Hr. cbv zeta.
  assert (Hgranted : tokensOfResponse e (tokenEndpoint e (refreshRequest t))
                     = Some (grantedTokens e json)) by (rewrite Hr; reflexivity).
  rewrite (getValidAccessToken_refreshed e s t _ H Hx Hgranted).
  cbn [fst snd config]. split; [reflexivity|]. split; [reflexivity|].
  split; [reflexivity|].
  match goal with
  | |- context [getValidAccessToken e' ?s1] => set (s1' := s1)
  end.
  assert (Hstored : oauthTokens (config s1') = Some (grantedTokens e json)) by reflexivity.
  split.
  - intros Hfresh. apply isTokenExpired_false in Hfresh.
    rewrite (getValidAccessToken_fresh e' s1' _ Hstored Hfresh).
    cbn [fst snd trace]. rewrite fetches_app. cbn [fetches]. rewrite app_nil_r.
    split; reflexivity.
  - intros Hstale. apply isTokenExpired_spec in Hstale.
    destruct (tokensOfResponse e' (tokenEndpoint e' (refreshRequest (grantedTokens e json))))
      as [t'|] eqn:Hr'.
    + rewrite (getValidAccessToken_refreshed e' s1' _ t' Hstored Hstale Hr').
      cbn [snd trace]. rewrite fetches_app. reflexivity.
    + rewrite (getValidAccessToken_refresh_failed e' s1' _ Hstored Hstale Hr').
      cbn [snd trace]. rewrite fetches_app. reflexivity.
Qed.


(** X3.  A granted refresh replaces the stored pair as a whole, by the
    pair of the response with the expiry counted from the moment the
    response arrived, and returns the new access token.  A later call
    serves that token from the config, without a request, as long as its
    expiry is five minutes away; once it is not, the refresh request
    carries the new refresh token, not the old one. *)
Theorem refreshed_pair_replaces_stored_pair
    (e e' : Env) (s : State) (t : OAuthTokens) (json : TokenJson) :
  oauthTokens (config s) = Some t ->
  isTokenExpired e t = true ->
  tokenEndpoint e (refreshRequest t) = FetchResponse true (Some json) ->
  let first := getValidAccessToken e s in
  let second := getValidAccessToken e' (snd first) in
  fst first = Eff.Ok (Some (access_token json))
  /\ oauthTokens (config (snd first)) = Some (grantedTokens e json)
  /\ otherKeys (config (snd first)) = otherKeys (config s)
  /\ (now e' + 300000 <= expires (grantedTokens e json) ->
      fst second = Eff.Ok (Some (access_token json))
      /\ fetches (trace (snd second)) = fetches (trace (snd first)))
  /\ (expires (grantedTokens e json) < now e' + 300000 ->
      fetches (trace (snd second))
      = (fetches (trace (snd first))
         ++ [RefreshTokenGrant (refresh_token json) CLIENT_ID])%list).
Proof. exact (second_call_after_refresh e e' s t json). Qed.

Lemma refreshed_pair_replaces_stored_pair_witness :
  let first := getValidAccessToken (granting 800000) sampleState in
  fst first = Eff.Ok (Some "access-1")
  /\ oauthTokens (config (snd first)) = Some (mkTokens "refresh-1" "access-1" 4400040)
  /\ fst (getValidAccessToken (rejecting 4100040) (snd first)) = Eff.Ok (Some "access-1")
  /\ fetches (trace (snd (getValidAccessToken (rejecting 4100041) (snd first))))
     = [RefreshTokenGrant "refresh-0" CLIENT_ID; RefreshTokenGrant "refresh-1" CLIENT_ID].
Proof.
  cbv zeta.
  destruct (refreshed_pair_replaces_stored_pair (granting 800000) (rejecting 4100040)
              sampleState sampleTokens (mkTokenJson "refresh-1" "access-1" 3600)
              eq_refl eq_refl eq_refl) as [H1 [H2 [_ [H3 _]]]].
  destruct (refreshed_pair_replaces_stored_pair (granting 800000) (rejecting 4100041)
              sampleState sampleTokens (mkTokenJson "refresh-1" "access-1" 3600)
              eq_refl eq_refl eq_refl) as [_ [_ [_ [_ H4]]]].
  split; [exact H1|]. split; [exact H2|]. split.
  - apply H3. cbn. lia.
  - apply H4. cbn. lia.
Defined.

(** X4.  A pair granted for less than five minutes is never served from
    the config: every later call finds it inside the look-ahead window and
    asks for a refresh again, with the refresh token of that pair. *)
Theorem short_lived_pair_is_refreshed_every_time
    (e e' : Env) (s : State) (t : OAuthTokens) (json : TokenJson) :
  oauthTokens (config s) = Some t ->
  isTokenExpired e t = true ->
  tokenEndpoint e (refreshRequest t) = FetchResponse true (Some json) ->
  expires_in json * 1000 < 5 * 60 * 1000 ->
  now e + latency e <= now e' ->
  fetches (trace (snd (getValidAccessToken e' (snd (getValidAccessToken e s)))))
  = (fetches (trace (snd (getValidAccessToken e s)))
     ++ [RefreshTokenGrant (refresh_token json) CLIENT_ID])%list.
Proof.
  intros H Hx Hr Hshort Hlater.
  destruct (second_call_after_refresh e e' s t json H Hx Hr)
    as [_ [_ [_ [_ Hstale]]]].
  apply Hstale. cbn [grantedTokens expires]. lia.
Qed.

Lemma short_lived_pair_is_refreshed_every_time_witness :
  let e := OAuth.mkEnv 800000 40
             (fun _ => FetchResponse true (Some (mkTokenJson "refresh-1" "access-1" 299)))
             (fun _ => FetchResponse false None) in
  fetches (trace (snd (getValidAccessToken (rejecting 800040)
                         (snd (getValidAccessToken e sampleState)))))
  = [RefreshTokenGrant "refresh-0" CLIENT_ID; RefreshTokenGrant "refresh-1" CLIENT_ID].
Proof.
  cbv zeta.
  apply (short_lived_pair_is_refreshed_every_time
           (OAuth.mkEnv 800000 40
              (fun _ => FetchResponse true (Some (mkTokenJson "refresh-1" "access-1" 299)))
              (fun _ => FetchResponse false None))
           (rejecting 800040) sampleState sampleTokens
           (mkTokenJson "refresh-1" "access-1" 299));
    first [reflexivity | cbn; lia].
Defined.

(** ** Logging out *)

(** X5.  After ['oauth:logout'] the status reports no login, with no
    expiry, and [getValidAccessToken] returns [null] without asking the
    token endpoint; a stored API key and a login flow in progress are left
    as they were. *)
Theorem logout_forgets_tokens (e : Env) (s : State) :
  let out := logout s in
  let asked := getValidAccessToken e (snd out) in
  fst out = Eff.Ok (mkSuccess true None)
  /\ fst (get_status (snd out)) = Eff.Ok (mkStatus false None)
  /\ fst asked = Eff.Ok None
  /\ fetches (trace (snd asked)) = fetches (trace s)
  /\ otherKeys (config (snd out)) = otherKeys (config s)
  /\ currentPKCEVerifier (snd out) = currentPKCEVerifier s.
Proof.
  cbv zeta. run_main. cbn [set_oauthTokens oauthTokens option_map JS.num_or_null].
  simpl_state. repeat rewrite fetches_app. cbn [fetches]. repeat rewrite app_nil_r.
  repeat split; reflexivity.
Qed.

(** ** The login flow *)

Lemma noActiveFlow_or_null (s : State) :
  noActiveFlow s -> JS.or_null (currentPKCEVerifier s) = None.
Proof. intros [H|H]; rewrite H; reflexivity. Qed.

(** X6.  Without a login flow in progress (no verifier is held, or an
    empty one) ['oauth:complete-login'] refuses the code at once: it
    reports that no flow is active, sends nothing and leaves the whole
    state as it was. *)
Theorem complete_login_needs_active_flow
    (h : HandlerEnv) (code : string) (createKey : bool) (s : State) :
  noActiveFlow s ->
  complete_login h code createKey s = (Eff.Ok noActiveFlowResponse, s).
Proof.
  intros Hflow. run_main. rewrite (noActiveFlow_or_null s Hflow).
  destruct s; reflexivity.
Qed.

Lemma complete_login_needs_active_flow_witness :
  complete_login grantedLogin "code-0" false loggedOutState
  = (Eff.Ok noActiveFlowResponse, loggedOutState).
Proof.
  apply (complete_login_needs_active_flow grantedLogin "code-0" false loggedOutState).
  left. reflexivity.
Defined.

(** What a completed login in the OAuth mode leaves behind. *)
Lemma complete_login_oauth_run
    (h : HandlerEnv) (code v : string) (s : State) (json : TokenJson) :
  currentPKCEVerifier s = Some v ->
  JS.truthy v = true ->
  tokenEndpoint (env h) (exchangeRequest code v) = FetchResponse true (Some json) ->
  complete_login h code false s
  = (Eff.Ok (mkCompleteLogin true (Some mode_oauth) None None),
     mkState (set_oauthTokens (Some (grantedTokens (env h) json)) (config s)) None
       (processEnv s)
       (trace s ++ [Fetch (exchangeRequest code v); LoadConfig;
                    SaveConfig (set_oauthTokens (Some (grantedTokens (env h) json))
                                  (config s))])).
Proof.
  intros Hv Ht Hr. unfold exchangeRequest in *. run_main. rewrite Hv.
  cbn [JS.or_null]. rewrite Ht. simpl_state. rewrite Hr.
  cbn [tokensOfResponse]. simpl_state. reflexivity.
Qed.

Lemma start_login_run (h : HandlerEnv) (mode : AuthMode) (s : State) (pkce : PKCEChallenge) :
  generatePKCE h = inr pkce ->
  start_login h mode s
  = (Eff.Ok (match openExternalResult h with
             | Some error => mkStartLogin false None (Some (JS.messageOf "Unknown error" error))
             | None => mkStartLogin true (Some (getAuthorizationUrl mode pkce)) None
             end),
     mkState (config s) (Some (verifier pkce)) (processEnv s)
       (trace s ++ [OpenExternal (getAuthorizationUrl mode pkce)])).
Proof.
  intros Hg. run_main. rewrite Hg. destruct pkce as [c v].
  cbn [challenge verifier]. simpl_state.
  destruct (openExternalResult h); reflexivity.
Qed.

(** X7.  A login in the OAuth mode, from start to end: the verifier that
    ['oauth:start-login'] generated is the one sent with the code; when the
    endpoint grants the exchange the pair is stored, the other keys of the
    config stay, the verifier is dropped, and the status reports the login
    with the expiry of the pair.  The same code cannot be completed a
    second time: the flow is over. *)
Theorem login_flow_in_oauth_mode
    (h : HandlerEnv) (mode : AuthMode) (code : string) (s : State)
    (pkce : PKCEChallenge) (json : TokenJson) :
  generatePKCE h = inr pkce ->
  JS.truthy (verifier pkce) = true ->
  tokenEndpoint (env h) (exchangeRequest code (verifier pkce))
  = FetchResponse true (Some json) ->
  let started := start_login h mode s in
  let completed := complete_login h code false (snd started) in
  fst completed = Eff.Ok (mkCompleteLogin true (Some mode_oauth) None None)
  /\ fetches (trace (snd completed))
     = (fetches (trace s) ++ [exchangeRequest code (verifier pkce)])%list
  /\ oauthTokens (config (snd completed)) = Some (grantedTokens (env h) json)
  /\ otherKeys (config (snd completed)) = otherKeys (config s)
  /\ currentPKCEVerifier (snd completed) = None
  /\ fst (get_status (snd completed))
     = Eff.Ok (mkStatus true (JS.num_or_null (Some (expires (grantedTokens (env h) json)))))
  /\ complete_login h code false (snd completed)
     = (Eff.Ok noActiveFlowResponse, snd completed).
Proof.
  intros Hg Hv Hr. cbv zeta.
  rewrite (start_login_run h mode s pkce Hg). cbn [snd].
  match goal with
  | |- context [complete_login h code false ?s1] =>
      rewrite (complete_login_oauth_run h code (verifier pkce) s1 json eq_refl Hv Hr)
  end.
  cbn [fst snd config currentPKCEVerifier processEnv trace].
  split; [reflexivity|]. split.
  { repeat rewrite fetches_app. cbn [fetches]. rewrite app_nil_r. reflexivity. }
  split; [reflexivity|]. split; [reflexivity|]. split; [reflexivity|]. split.
  - run_main. reflexivity.
  - run_main. reflexivity.
Qed.

Lemma login_flow_in_oauth_mode_witness :
  let started := start_login grantedLogin max loggedOutState in
  let completed := complete_login grantedLogin "code-0#state-0" false (snd started) in
  fst completed = Eff.Ok (mkCompleteLogin true (Some mode_oauth) None None)
  /\ oauthTokens (config (snd completed)) = Some (mkTokens "refresh-1" "access-1" 3600040)
  /\ currentPKCEVerifier (snd completed) = None
  /\ fst (get_status (snd completed)) = Eff.Ok (mkStatus true (Some 3600040)).
Proof.
  cbv zeta.
  destruct (login_flow_in_oauth_mode grantedLogin max "code-0#state-0" loggedOutState
              samplePKCE (mkTokenJson "refresh-1" "access-1" 3600)
              eq_refl eq_refl eq_refl) as [H1 [_ [H2 [_ [H3 [H4 _]]]]]].
  repeat split; assumption.
Defined.

(** X8.  A login that creates an API key never stores the OAuth pair: the
    access token of the exchange is used once, as the bearer of the
    request that creates the key, the key is returned to the caller, the
    config is left as it was and the verifier is dropped. *)
Theorem login_flow_in_api_key_mode
    (h : HandlerEnv) (code v key : string) (s : State) (json : TokenJson) :
  currentPKCEVerifier s = Some v ->
  JS.truthy v = true ->
  tokenEndpoint (env h) (exchangeRequest code v) = FetchResponse true (Some json) ->
  createKeyEndpoint (env h) (CreateApiKeyRequest (access_token json))
  = FetchResponse true (Some (mkKeyJson key)) ->
  JS.truthy key = true ->
  let completed := complete_login h code true s in
  fst completed = Eff.Ok (mkCompleteLogin true (Some mode_api_key) (Some key) None)
  /\ config (snd completed) = config s
  /\ saves (trace (snd completed)) = saves (trace s)
  /\ fetches (trace (snd completed))
     = (fetches (trace s)
        ++ [exchangeRequest code v; CreateApiKeyRequest (access_token json)])%list
  /\ currentPKCEVerifier (snd completed) = None.
Proof.
  intros Hv Ht Hr Hk Hkey. cbv zeta. unfold exchangeRequest in *. run_main.
  rewrite Hv. cbn [JS.or_null]. rewrite Ht. simpl_state. rewrite Hr.
  cbn [tokensOfResponse access]. simpl_state. rewrite Hk.
  cbn [raw_key JS.or_null]. rewrite Hkey. cbn [fst snd config currentPKCEVerifier trace].
  rewrite fetches_app, saves_app. cbn. rewrite app_nil_r.
  repeat split; reflexivity.
Qed.

Lemma login_flow_in_api_key_mode_witness :
  let started := start_login grantedLogin console loggedOutState in
  let completed := complete_login grantedLogin "code-0" true (snd started) in
  fst completed
  = Eff.Ok (mkCompleteLogin true (Some mode_api_key) (Some "sk-ant-created") None)
  /\ config (snd completed) = emptyConfig
  /\ currentPKCEVerifier (snd completed) = None.
Proof.
  cbv zeta.
  destruct (login_flow_in_api_key_mode grantedLogin "code-0" (verifier samplePKCE)
              "sk-ant-created" (snd (start_login grantedLogin console loggedOutState))
              (mkTokenJson "refresh-1" "access-1" 3600)
              eq_refl eq_refl eq_refl eq_refl eq_refl) as [H1 [H2 [_ [_ H3]]]].
  repeat split; assumption.
Defined.

(** X9.  How ['oauth:start-login'] fails.  When no PKCE pair can be
    generated the handler reports the error and the state is untouched: a
    verifier held for an earlier flow stays, and no browser is opened.
    When the pair is generated but the browser cannot be opened the
    handler reports the error too, yet the new verifier is held already,
    replacing that of any earlier flow. *)
Theorem start_login_failures (h : HandlerEnv) (mode : AuthMode) (s : State) :
  (forall error : JS.Thrown,
     generatePKCE h = inl error ->
     start_login h mode s
     = (Eff.Ok (mkStartLogin false None (Some (JS.messageOf "Unknown error" error))), s))
  /\ (forall (pkce : PKCEChallenge) (error : JS.Thrown),
        generatePKCE h = inr pkce ->
        openExternalResult h = Some error ->
        fst (start_login h mode s)
        = Eff.Ok (mkStartLogin false None (Some (JS.messageOf "Unknown error" error)))
        /\ currentPKCEVerifier (snd (start_login h mode s)) = Some (verifier pkce)
        /\ config (snd (start_login h mode s)) = config s).
Proof.
  split.
  - intros error Hg. run_main. rewrite Hg. destruct s; reflexivity.
  - intros pkce error Hg Ho. rewrite (start_login_run h mode s pkce Hg), Ho.
    repeat split; reflexivity.
Qed.

Lemma start_login_failures_witness :
  start_login pkcelessLogin max sampleState
  = (Eff.Ok (mkStartLogin false None (Some "crypto is not available")), sampleState)
  /\ fst (start_login browserlessLogin max sampleState)
     = Eff.Ok (mkStartLogin false None (Some "Failed to open URL"))
  /\ currentPKCEVerifier (snd (start_login browserlessLogin max sampleState))
     = Some (verifier samplePKCE).
Proof.
  destruct (start_login_failures pkcelessLogin max sampleState) as [Hp _].
  destruct (start_login_failures browserlessLogin max sampleState) as [_ Hb].
  destruct (Hb samplePKCE (JS.ErrorObject "Failed to open URL") eq_refl eq_refl)
    as [H1 [H2 _]].
  split; [apply (Hp (JS.ErrorObject "crypto is not available")); reflexivity|].
  split; assumption.
Defined.

(** ** The parameters of the authorization URL *)

Lemma occurs_app (c : ascii) (a b : string) :
  occurs c (a ++ b) = occurs c a || occurs c b.
Proof.
  induction a as [|x a IH]; [reflexivity|].
  cbn [append occurs]. rewrite IH, orb_assoc. reflexivity.
Qed.

Lemma urlencode_reserved_free (c : ascii) (s : string) :
  c = "&"%char \/ c = "="%char \/ c = "#"%char ->
  occurs c (urlencode s) = false.
Proof.
  intros Hc. induction s as [|x s IH]; [reflexivity|].
  cbn [urlencode]. rewrite occurs_app, IH, orb_false_r.
  destruct Hc as [->|[->| ->]];
    destruct x as [[] [] [] [] [] [] [] []]; vm_compute; reflexivity.
Qed.

Lemma string_app_assoc (a b c : string) : (a ++ b) ++ c = a ++ b ++ c.
Proof. induction a as [|x a IH]; [reflexivity|]. cbn [append]. rewrite IH. reflexivity. Qed.

Lemma searchParams_split (ps : SearchParams) :
  ps <> [] ->
  JS.split "&" (searchParams_toString ps)
  = map (fun p => urlencode (fst p) ++ "=" ++ urlencode (snd p)) ps.
Proof.
  assert (Hfree : forall n v, occurs "&" (urlencode n ++ "=" ++ urlencode v) = false).
  { intros n v. rewrite occurs_app. cbn [append occurs].
    rewrite !urlencode_reserved_free by (left; reflexivity). reflexivity. }
  induction ps as [|[n v] ps IH]; [intros H; contradiction H; reflexivity|].
  intros _. destruct ps as [|p ps].
  - cbn [searchParams_toString map fst snd]. apply split_without_separator, Hfree.
  - change (searchParams_toString ((n, v) :: p :: ps))
      with (urlencode n ++ "=" ++ urlencode v ++ "&" ++ searchParams_toString (p :: ps)).
    replace (urlencode n ++ "=" ++ urlencode v ++ "&" ++ searchParams_toString (p :: ps))
      with ((urlencode n ++ "=" ++ urlencode v)
            ++ String "&" (searchParams_toString (p :: ps))).
    + rewrite split_at_separator by apply Hfree.
      rewrite IH by discriminate. reflexivity.
    + rewrite string_app_assoc. reflexivity.
Qed.

(** X10.  Whatever strings the challenge and the verifier are, the
    authorization URL is the endpoint of the mode, a question mark and a
    query that splits at [&] into exactly eight parameters, the last two
    variable ones holding the percent-encoded challenge and verifier: the
    encoded values contain no [&], [=] or [#], so neither can add,
    overwrite or cut off a parameter. *)
Theorem authorization_url_has_eight_parameters (mode : AuthMode) (pkce : PKCEChallenge) :
  exists query : string,
    getAuthorizationUrl mode pkce = authorizationEndpoint mode ++ "?" ++ query
    /\ JS.split "&" query
       = ["code=true";
          "client_id=9d1c250a-e61b-44d9-88ed-5944d1962f5e";
          "response_type=code";
          "redirect_uri=https%3A%2F%2Fconsole.anthropic.com%2Foauth%2Fcode%2Fcallback";
          "scope=org%3Acreate_api_key+user%3Aprofile+user%3Ainference";
          "code_challenge=" ++ urlencode (challenge pkce);
          "code_challenge_method=S256";
          "state=" ++ urlencode (verifier pkce)]
    /\ (forall c : ascii,
          c = "&"%char \/ c = "="%char \/ c = "#"%char ->
          occurs c (urlencode (challenge pkce)) = false
          /\ occurs c (urlencode (verifier pkce)) = false).
Proof.
  exists (searchParams_toString
            [("code", "true"); ("client_id", CLIENT_ID); ("response_type", "code");
             ("redirect_uri", REDIRECT_URI); ("scope", SCOPES);
             ("code_challenge", challenge pkce); ("code_challenge_method", "S256");
             ("state", verifier pkce)]).
  split; [destruct mode; reflexivity|]. split.
  - rewrite searchParams_split by discriminate. reflexivity.
  - intros c Hc. split; apply urlencode_reserved_free; exact Hc.
Qed.

(** ** The workspace directory, the PATH and the environment *)



Lemma split_nonempty (c : ascii) (s : string) : JS.split c s <> [].
Proof.
  destruct s as [|x s]; cbn [JS.split]; [discriminate|].
  destruct (Ascii.eqb x c); [discriminate|].
  destruct (JS.split c s); discriminate.
Qed.

Lemma concat_split (c : ascii) (s : string) :
  String.concat (String c "") (JS.split c s) = s.
Proof.
  induction s as [|x s IH]; [reflexivity|].
  cbn [JS.split]. pose proof (split_nonempty c s) as Hne.
  destruct (JS.split c s) as [|w ws] eqn:Hs; [contradiction Hne; reflexivity|].
  destruct (Ascii.eqb_spec x c) as [->|Hx].
  - change (String.concat (String c "") ("" :: w :: ws))
      with (String c (String.concat (String c "") (w :: ws))).
    rewrite IH. reflexivity.
  - destruct ws as [|w' ws].
    + cbn [String.concat] in *. rewrite IH. reflexivity.
    + change (String.concat (String c "") (String x w :: w' :: ws))
        with (String x (w ++ String c "" ++ String.concat (String c "") (w' :: ws))).
      change (String.concat (String c "") (w :: w' :: ws))
        with (w ++ String c "" ++ String.concat (String c "") (w' :: ws)) in IH.
      rewrite IH. reflexivity.
Qed.

(** X12.  ['config:get-path-info'] reports exactly the segments of the
    PATH that are not blank, in the order of the PATH, and their number;
    the separator is [;] on win32 and [:] elsewhere, and the platform and
    the full PATH are reported as they are.  When no segment of the PATH
    is blank, joining the reported entries with the separator gives the
    full PATH back. *)
Theorem path_info_entries (platform path : string) :
  let info := SettingsHandlers.get_path_info platform path in
  let separator := SettingsHandlers.separatorOf platform in
  SettingsHandlers.pathEntries info = filter isNonBlank (JS.split separator path)
  /\ SettingsHandlers.pathSeparator info = String separator ""
  /\ (platform = "win32" -> separator = ";"%char)
  /\ (platform <> "win32" -> separator = ":"%char)
  /\ SettingsHandlers.platform info = platform
  /\ SettingsHandlers.pathCount info = List.length (SettingsHandlers.pathEntries info)
  /\ SettingsHandlers.fullPath info = path
  /\ Forall nonBlank (SettingsHandlers.pathEntries info)
  /\ (forall p, In p (JS.split separator path) -> nonBlank p ->
      In p (SettingsHandlers.pathEntries info))
  /\ (Forall nonBlank (JS.split separator path) ->
      String.concat (SettingsHandlers.pathSeparator info)
        (SettingsHandlers.pathEntries info)
      = path).
Proof.
  cbv zeta. unfold SettingsHandlers.get_path_info.
  cbn [SettingsHandlers.pathCount SettingsHandlers.pathEntries SettingsHandlers.fullPath
       SettingsHandlers.pathSeparator SettingsHandlers.platform].
  assert (Htruthy : forall p, JS.truthy (JS.trim p) = true <-> nonBlank p).
  { intros p. unfold nonBlank. destruct (JS.trim p); cbn; split; intros H;
      try reflexivity; try discriminate; contradiction H; reflexivity. }
  assert (Htest : forall p, JS.truthy (JS.trim p) = isNonBlank p).
  { intros p. unfold isNonBlank. destruct (JS.trim p); reflexivity. }
  split; [apply filter_ext, Htest|]. split; [reflexivity|].
  split; [intros ->; reflexivity|].
  split.
  { intros Hp. unfold SettingsHandlers.separatorOf.
    destruct (String.eqb_spec platform "win32"); [contradiction|reflexivity]. }
  split; [reflexivity|]. split; [reflexivity|]. split; [reflexivity|]. split; [|split].
  - apply Forall_forall. intros p Hp. apply filter_In in Hp. apply Htruthy, Hp.
  - intros p Hp Hnb. apply filter_In. split; [exact Hp|apply Htruthy, Hnb].
  - intros Hall.
    assert (Hkeep : forall l, Forall nonBlank l ->
                      filter (fun p => JS.truthy (JS.trim p)) l = l).
    { induction l as [|p l IH]; intros Hl; [reflexivity|].
      inversion Hl as [|? ? Hp Hl']; subst. cbn [filter].
      rewrite (proj2 (Htruthy p) Hp), (IH Hl'). reflexivity. }
    rewrite (Hkeep _ Hall). apply concat_split.
Qed.

Lemma path_info_entries_witness :
  String.concat ":"
    (SettingsHandlers.pathEntries
       (SettingsHandlers.get_path_info "darwin" "/opt/bun/bin:/usr/bin:/bin"))
  = "/opt/bun/bin:/usr/bin:/bin"
  /\ SettingsHandlers.pathEntries
       (SettingsHandlers.get_path_info "win32" "C:/bin;; ;D:/tools")
     = ["C:/bin"; "D:/tools"].
Proof.
  split.
  - destruct (path_info_entries "darwin" "/opt/bun/bin:/usr/bin:/bin")
      as [_ [_ [_ [_ [_ [_ [_ [_ [_ Hjoin]]]]]]]]].
    apply Hjoin. repeat constructor; vm_compute; discriminate.
  - rewrite (proj1 (path_info_entries "win32" "C:/bin;; ;D:/tools")).
    vm_compute. reflexivity.
Defined.

Lemma lastFour_length (v : SettingsHandlers.Units) :
  (List.length (SettingsHandlers.lastFour v) <= 4)%nat.
Proof. unfold SettingsHandlers.lastFour. rewrite length_skipn. lia. Qed.

(** X13.  The masking of environment values.  The value of a variable
    whose key matches none of the patterns is shown as it is.  The value
    of a sensitive key is masked: the masked form is at most twelve units
    long, it is the same for all values of up to eight units, and for
    longer values it depends on nothing but their first four and last four
    units. *)
Theorem maskValue_hides_the_middle (key : string) (v v' : SettingsHandlers.Units) :
  (isSensitiveKey key = false -> SettingsHandlers.maskValue key v = v)
  /\ (isSensitiveKey key = true ->
      (List.length (SettingsHandlers.maskValue key v) <= 12)%nat
      /\ ((List.length v <= 8)%nat -> (List.length v' <= 8)%nat ->
          SettingsHandlers.maskValue key v = SettingsHandlers.maskValue key v')
      /\ ((8 < List.length v)%nat -> (8 < List.length v')%nat ->
          firstn 4 v = firstn 4 v' ->
          SettingsHandlers.lastFour v = SettingsHandlers.lastFour v' ->
          SettingsHandlers.maskValue key v = SettingsHandlers.maskValue key v')).
Proof.
  unfold SettingsHandlers.maskValue, isSensitiveKey. split; intros Hs; rewrite Hs; cbn [negb].
  - reflexivity.
  - split; [|split].
    + destruct (Nat.leb_spec (List.length v) 8); [cbn; lia|].
      rewrite !length_app, length_firstn. pose proof (lastFour_length v).
      change (List.length SettingsHandlers.bullets) with 4%nat. lia.
    + intros Hv Hv'. apply Nat.leb_le in Hv, Hv'. rewrite Hv, Hv'. reflexivity.
    + intros Hv Hv' Hf Hl.
      destruct (Nat.leb_spec (List.length v) 8); [lia|].
      destruct (Nat.leb_spec (List.length v') 8); [lia|].
      rewrite Hf, Hl. reflexivity.
Qed.

Lemma maskValue_hides_the_middle_witness :
  SettingsHandlers.maskValue "PATH" [47; 98; 105; 110]%N = [47; 98; 105; 110]%N
  /\ SettingsHandlers.maskValue "Anthropic_Api_Key" [115; 107; 45; 49]%N
     = SettingsHandlers.maskValue "Anthropic_Api_Key" [115; 107; 45; 50; 51]%N.
Proof.
  destruct (maskValue_hides_the_middle "PATH" [47; 98; 105; 110]%N []) as [Hplain _].
  destruct (maskValue_hides_the_middle "Anthropic_Api_Key" [115; 107; 45; 49]%N
              [115; 107; 45; 50; 51]%N) as [_ Hmask].
  split; [apply Hplain; reflexivity|].
  destruct (Hmask eq_refl) as [_ [Hshort _]].
  apply Hshort; cbn; lia.
Defined.

(** ** The update controller *)

Module UpdaterFacts.

Import Updater.

Lemma shown_app (l : list Effect) (e : Effect) :
  shown (l ++ [e]) = match e with Notify st => st | _ => shown l end.
Proof. unfold shown. rewrite fold_left_app. destruct e; reflexivity. Qed.

Lemma checkRequests_app (a b : list Effect) :
  checkRequests (a ++ b) = (checkRequests a + checkRequests b)%nat.
Proof.
  induction a as [|x a IH]; [reflexivity|].
  destruct x; cbn [checkRequests app]; rewrite IH; reflexivity.
Qed.

Lemma downloadRequests_app (a b : list Effect) :
  downloadRequests (a ++ b) = (downloadRequests a + downloadRequests b)%nat.
Proof.
  induction a as [|x a IH]; [reflexivity|].
  destruct x; cbn [downloadRequests app]; rewrite IH; reflexivity.
Qed.

Create Rewrite HintDb updater_log.

#[local] Hint Rewrite shown_app checkRequests_app downloadRequests_app : updater_log.

Lemma undisturbed_refl (s : State) : undisturbed s s.
Proof. unfold undisturbed. repeat split; try reflexivity. intros _ H. exact H. Qed.

Lemma undisturbed_trans (a b c : State) :
  undisturbed a b -> undisturbed b c -> undisturbed a c.
Proof.
  unfold undisturbed. intros [H1 [H2 [H3 [H4 H5]]]] [K1 [K2 [K3 [K4 K5]]]].
  repeat split; try congruence.
  intros Hw Hs. apply K5; [congruence|]. apply H5; assumption.
Qed.

Lemma silent_refl (s : State) : silent s s.
Proof. split; reflexivity. Qed.

Lemma silent_trans (a b c : State) : silent a b -> silent b c -> silent a c.
Proof. unfold silent. intros [H1 H2] [K1 K2]. split; congruence. Qed.

Lemma listener_frame (ev : AutoUpdaterEvent) (s : State) :
  undisturbed s (listener ev s) /\ silent s (listener ev s).
Proof.
  destruct s as [st w ci n clk ts iv nid lg].
  destruct ev; destruct w as [[|]|]; split; frame.
Qed.

Lemma dispatch_frame (ev : AutoUpdaterEvent) (s : State) :
  undisturbed s (dispatch ev s) /\ silent s (dispatch ev s).
Proof.
  unfold dispatch. generalize (listeners s) as n.
  induction n as [|n [IHu IHs]]; cbn [Nat.iter].
  - split; [apply undisturbed_refl|apply silent_refl].
  - destruct (listener_frame ev (Nat.iter n (listener ev) s)) as [Hu Hs].
    split; [eapply undisturbed_trans|eapply silent_trans]; eassumption.
Qed.

Lemma fire_frame (s : State) (x : Timeout) :
  undisturbed s (fire s x) /\ silent s (fire s x).
Proof.
  destruct s as [st w ci n clk ts iv nid lg].
  destruct w as [[|]|]; split; frame.
Qed.

Lemma fold_fire_frame (l : list Timeout) (s : State) :
  undisturbed s (fold_left fire l s) /\ silent s (fold_left fire l s).
Proof.
  revert s. induction l as [|x l IH]; intros s; cbn [fold_left].
  - split; [apply undisturbed_refl|apply silent_refl].
  - destruct (fire_frame s x) as [Hu Hs]. destruct (IH (fire s x)) as [Hu' Hs'].
    split; [eapply undisturbed_trans|eapply silent_trans]; eassumption.
Qed.

Lemma elapse_frame (t : Z) (s : State) :
  undisturbed s (elapse t s) /\ silent s (elapse t s).
Proof.
  unfold elapse.
  destruct (fold_fire_frame (byDue (filter (fun x => due x <=? t) (timeouts s))) s)
    as [[H1 [H2 [H3 [H4 H5]]]] [K1 K2]].
  split; [unfold undisturbed|unfold silent];
    cbn [currentStatus mainWindow checkInterval listeners clock timeouts intervals
         nextTimerId log]; repeat split; assumption.
Qed.

Lemma checkForUpdates_frame (c : Setup) (s : State) :
  undisturbed s (checkForUpdates c s)
  /\ downloadRequests (log (checkForUpdates c s)) = downloadRequests (log s)
  /\ (reachesFeed c = false ->
      checkRequests (log (checkForUpdates c s)) = checkRequests (log s)).
Proof.
  destruct s as [st w ci n clk ts iv nid lg]. unfold reachesFeed.
  unfold checkForUpdates.
  destruct (isDev c && negb (hasCustomFeed c));
    [|destruct (updatesConfigured c); cbn [negb];
      [destruct (checking _ || downloading _)|]];
    cbn [currentStatus]; destruct w as [[|]|]; repeat split; frame;
    try discriminate.
Qed.

Lemma downloadUpdate_frame (s : State) :
  undisturbed s (downloadUpdate s)
  /\ checkRequests (log (downloadUpdate s)) = checkRequests (log s).
Proof.
  destruct s as [st w ci n clk ts iv nid lg]. unfold downloadUpdate.
  destruct (negb _ || downloading _); cbn [currentStatus]; split; frame.
Qed.

Lemma rejected_frame (message : string) (s : State) :
  (undisturbed s (checkRejected message s) /\ silent s (checkRejected message s))
  /\ (undisturbed s (downloadRejected message s) /\ silent s (downloadRejected message s)).
Proof.
  destruct s as [st w ci n clk ts iv nid lg].
  destruct w as [[|]|]; repeat split; frame.
Qed.

Lemma installUpdate_frame (s : State) :
  undisturbed s (installUpdate s) /\ silent s (installUpdate s).
Proof.
  destruct s as [st w ci n clk ts iv nid lg]. unfold installUpdate.
  destruct (negb _); cbn [currentStatus]; split; frame.
Qed.

Lemma run_invariant (P : State -> Prop) (Q : Call -> Prop) (c : Setup) :
  (forall s call, Q call -> P s -> P (step c s call)) ->
  forall calls s, Forall Q calls -> P s -> P (run c s calls).
Proof.
  intros Hstep calls. unfold run.
  induction calls as [|call calls IH]; intros s HQ HP; cbn [fold_left].
  - exact HP.
  - inversion HQ; subst. apply IH; [assumption|]. apply Hstep; assumption.
Qed.

Lemma Forall_True {A : Type} (l : list A) : Forall (fun _ => True) l.
Proof. induction l; constructor; trivial. Qed.

Lemma undisturbed_interval (s s' : State) :
  undisturbed s s' -> intervals s = heldInterval s -> intervals s' = heldInterval s'.
Proof.
  unfold undisturbed, heldInterval. intros [H1 [H2 _]] H. rewrite H1, H2. exact H.
Qed.

Lemma startPeriodicUpdateCheck_interval (c : Setup) (s : State) :
  intervals s = heldInterval s ->
  intervals (startPeriodicUpdateCheck c s) = heldInterval (startPeriodicUpdateCheck c s).
Proof.
  intros H. unfold startPeriodicUpdateCheck.
  destruct (negb (updatesConfigured c)); [exact H|].
  destruct (checkForUpdates_frame c s) as [Hu _].
  apply (undisturbed_interval _ _ Hu) in H.
  revert H. generalize (checkForUpdates c s) as s1. intros s1.
  unfold heldInterval, setCheckInterval, clearInterval.
  destruct (checkInterval s1) as [id|];
    cbn [currentStatus mainWindow checkInterval listeners clock timeouts intervals
         nextTimerId log]; intros H; rewrite H; cbn [filter];
    rewrite ?Nat.eqb_refl; reflexivity.
Qed.

Lemma stopPeriodicUpdateCheck_interval (s : State) :
  intervals s = heldInterval s -> intervals (stopPeriodicUpdateCheck s) = [].
Proof.
  unfold stopPeriodicUpdateCheck, heldInterval, clearInterval.
  destruct (checkInterval s) as [id|];
    cbn [currentStatus mainWindow checkInterval listeners clock timeouts intervals
         nextTimerId log]; intros H; rewrite H; cbn [filter];
    rewrite ?Nat.eqb_refl; reflexivity.
Qed.

Lemma stopPeriodicUpdateCheck_held (s : State) :
  checkInterval (stopPeriodicUpdateCheck s) = None.
Proof.
  unfold stopPeriodicUpdateCheck. destruct (checkInterval s) eqn:E; [reflexivity|exact E].
Qed.

Lemma step_interval (c : Setup) (s : State) (call : Call) :
  intervals s = heldInterval s -> intervals (step c s call) = heldInterval (step c s call).
Proof.
  intros H. destruct call; cbn [step].
  - exact H.
  - exact (undisturbed_interval _ _ (proj1 (checkForUpdates_frame c s)) H).
  - exact (undisturbed_interval _ _ (proj1 (downloadUpdate_frame s)) H).
  - exact (undisturbed_interval _ _ (proj1 (installUpdate_frame s)) H).
  - exact (startPeriodicUpdateCheck_interval c s H).
  - unfold heldInterval at 1. rewrite stopPeriodicUpdateCheck_held.
    exact (stopPeriodicUpdateCheck_interval s H).
  - exact (undisturbed_interval _ _ (proj1 (dispatch_frame ev s)) H).
  - exact (undisturbed_interval _ _ (proj1 (proj1 (rejected_frame message s))) H).
  - exact (undisturbed_interval _ _ (proj1 (proj2 (rejected_frame message s))) H).
  - destruct (existsb _ _); [|exact H].
    exact (undisturbed_interval _ _ (proj1 (checkForUpdates_frame c s)) H).
  - destruct (mainWindow s); exact H.
  - exact (undisturbed_interval _ _ (proj1 (elapse_frame t s)) H).
Qed.

(** X14 (startPeriodicUpdateCheck, stopPeriodicUpdateCheck): however the
    operations of the module are called and whatever [autoUpdater] emits,
    the only polling interval alive is the one held in [checkInterval], so
    there are never two; and after [stopPeriodicUpdateCheck] there is
    none. *)
Theorem at_most_one_polling_interval (c : Setup) (t : Z) (calls : list Call) :
  intervals (run c (initial t) calls) = heldInterval (run c (initial t) calls)
  /\ (List.length (intervals (run c (initial t) calls)) <= 1)%nat
  /\ intervals (run c (initial t) (calls ++ [StopPeriodic])) = [].
Proof.
  assert (H : intervals (run c (initial t) calls)
              = heldInterval (run c (initial t) calls)).
  { apply (run_invariant (fun s => intervals s = heldInterval s) (fun _ => True)).
    - intros s call _. apply step_interval.
    - apply Forall_True.
    - reflexivity. }
  split; [exact H|]. split.
  - rewrite H. unfold heldInterval.
    destruct (checkInterval _); cbn [List.length]; lia.
  - unfold run. rewrite fold_left_app. cbn [fold_left step].
    apply stopPeriodicUpdateCheck_interval. exact H.
Qed.

Lemma step_informs (c : Setup) (s : State) (call : Call) :
  keepsWindow call ->
  mainWindow s = Some Alive /\ shown (log s) = currentStatus s ->
  mainWindow (step c s call) = Some Alive
  /\ shown (log (step c s call)) = currentStatus (step c s call).
Proof.
  intros Hk [Hw Hs].
  assert (Hu : forall s', undisturbed s s' ->
             mainWindow s' = Some Alive /\ shown (log s') = currentStatus s').
  { intros s' [_ [_ [H3 [_ H5]]]]. split; [congruence|]. apply H5; assumption. }
  destruct call; cbn [step keepsWindow] in *.
  - subst window. split; [reflexivity|exact Hs].
  - apply Hu, checkForUpdates_frame.
  - apply Hu, downloadUpdate_frame.
  - apply Hu, installUpdate_frame.
  - unfold startPeriodicUpdateCheck.
    destruct (negb (updatesConfigured c)); [split; assumption|].
    destruct (Hu _ (proj1 (checkForUpdates_frame c s))) as [Hw1 Hs1].
    revert Hw1 Hs1. generalize (checkForUpdates c s) as s1. intros s1 Hw1 Hs1.
    unfold setCheckInterval, clearInterval.
    destruct (checkInterval s1);
      cbn [currentStatus mainWindow checkInterval listeners clock timeouts intervals
           nextTimerId log]; split; assumption.
  - unfold stopPeriodicUpdateCheck, clearInterval.
    destruct (checkInterval s);
      cbn [currentStatus mainWindow checkInterval listeners clock timeouts intervals
           nextTimerId log]; split; assumption.
  - apply Hu, dispatch_frame.
  - apply Hu, (proj1 (rejected_frame message s)).
  - apply Hu, (proj2 (rejected_frame message s)).
  - destruct (existsb _ _); [|split; assumption].
    apply Hu, checkForUpdates_frame.
  - contradiction.
  - apply Hu, elapse_frame.
Qed.

(** X15 (notifyStatusChange and every operation that assigns
    [currentStatus]): once the module was initialized with a live window,
    and as long as the window stays the live one, the status the window was
    sent last is the status [getUpdateStatus] returns: no operation, event
    or timer changes the status without notifying the window. *)
Theorem window_is_kept_informed (c : Setup) (t : Z) (calls : list Call) :
  Forall keepsWindow calls ->
  shown (log (run c (ready t) calls)) = getUpdateStatus (run c (ready t) calls).
Proof.
  intros H. unfold getUpdateStatus.
  apply (run_invariant
           (fun s => mainWindow s = Some Alive /\ shown (log s) = currentStatus s)
           keepsWindow c (step_informs c) calls (ready t) H).
  split; reflexivity.
Qed.

Lemma window_is_kept_informed_witness :
  shown (log (run packagedSetup (ready 0)
                [CheckForUpdates; Emitted CheckingForUpdate; Emitted UpdateNotAvailable;
                 Elapse 3000]))
  = getUpdateStatus (run packagedSetup (ready 0)
                [CheckForUpdates; Emitted CheckingForUpdate; Emitted UpdateNotAvailable;
                 Elapse 3000]).
Proof.
  apply window_is_kept_informed. repeat constructor.
Defined.

Lemma step_never_reaches (c : Setup) (s : State) (call : Call) :
  reachesFeed c = false ->
  checkRequests (log (step c s call)) = checkRequests (log s).
Proof.
  intros Hc. destruct call; cbn [step].
  - reflexivity.
  - apply checkForUpdates_frame, Hc.
  - apply downloadUpdate_frame.
  - apply installUpdate_frame.
  - unfold startPeriodicUpdateCheck.
    destruct (negb (updatesConfigured c)); [reflexivity|].
    destruct (checkForUpdates_frame c s) as [_ [_ H]]. rewrite <- (H Hc).
    generalize (checkForUpdates c s) as s1. intros s1.
    unfold setCheckInterval, clearInterval. destruct (checkInterval s1); reflexivity.
  - unfold stopPeriodicUpdateCheck, clearInterval.
    destruct (checkInterval s); reflexivity.
  - apply dispatch_frame.
  - apply (proj1 (rejected_frame message s)).
  - apply (proj2 (rejected_frame message s)).
  - destruct (existsb _ _); [|reflexivity]. apply checkForUpdates_frame, Hc.
  - destruct (mainWindow s); reflexivity.
  - apply elapse_frame.
Qed.

(** X16 (checkForUpdates, startPeriodicUpdateCheck): in a setup whose checks
    do not reach the feed (a development process without [UPDATE_FEED_URL],
    or an unpackaged one without it), [autoUpdater.checkForUpdates()] is
    never called, whatever is called and whatever fires; a check that is
    asked for reports an error instead and marks the check as complete. *)
Theorem unconfigured_never_asks_the_feed (c : Setup) (t : Z) (calls : list Call) :
  reachesFeed c = false ->
  checkRequests (log (run c (initial t) calls)) = 0%nat
  /\ exists message,
       error (getUpdateStatus (checkForUpdates c (run c (initial t) calls)))
       = Some message
       /\ JS.truthy message = true
       /\ lastCheckComplete
            (getUpdateStatus (checkForUpdates c (run c (initial t) calls))) = true.
Proof.
  intros Hc. split.
  - apply (run_invariant (fun s => checkRequests (log s) = 0%nat) (fun _ => True) c).
    + intros s call _ H. rewrite step_never_reaches; assumption.
    + apply Forall_True.
    + reflexivity.
  - generalize (run c (initial t) calls) as s. intros s.
    destruct s as [st w ci n clk ts iv nid lg].
    unfold reachesFeed in Hc. unfold getUpdateStatus, checkForUpdates.
    destruct (isDev c && negb (hasCustomFeed c)).
    + eexists. unfold_updater. destruct w as [[|]|]; cbn; repeat split.
    + destruct (updatesConfigured c); [discriminate|].
      eexists. unfold_updater. destruct w as [[|]|]; cbn; repeat split.
Qed.

Lemma unconfigured_never_asks_the_feed_witness :
  checkRequests
    (log (run devSetup (initial 0)
            [Initialize (Some Alive); StartPeriodic; CheckForUpdates; IntervalTick 1%nat]))
  = 0%nat
  /\ exists message,
       error (getUpdateStatus (checkForUpdates devSetup (run devSetup (initial 0)
            [Initialize (Some Alive); StartPeriodic; CheckForUpdates; IntervalTick 1%nat])))
       = Some message
       /\ JS.truthy message = true
       /\ lastCheckComplete
            (getUpdateStatus (checkForUpdates devSetup (run devSetup (initial 0)
            [Initialize (Some Alive); StartPeriodic; CheckForUpdates; IntervalTick 1%nat])))
          = true.
Proof.
  apply unconfigured_never_asks_the_feed. reflexivity.
Defined.

Lemma fire_status (s : State) (x : Timeout) :
  currentStatus (fire s x) = cleared (action x) (currentStatus s).
Proof.
  destruct s as [st w ci n clk ts iv nid lg]. unfold_updater.
  destruct w as [[|]|]; reflexivity.
Qed.

Lemma insertByDue_In (x y : Timeout) (l : list Timeout) :
  In x (insertByDue y l) <-> x = y \/ In x l.
Proof.
  induction l as [|z l IH]; cbn [insertByDue].
  - cbn. intuition.
  - destruct (due y <? due z); cbn [In]; [intuition|].
    rewrite IH. intuition.
Qed.

Lemma byDue_In (x : Timeout) (l : list Timeout) : In x (byDue l) <-> In x l.
Proof.
  unfold byDue.
  assert (H : forall acc,
             In x (fold_left (fun sorted y => insertByDue y sorted) l acc)
             <-> In x acc \/ In x l).
  { induction l as [|y l IH]; intros acc; cbn [fold_left In].
    - intuition.
    - rewrite IH, insertByDue_In. intuition. }
  rewrite H. cbn [In]. intuition.
Qed.

Lemma elapse_status (t : Z) (s : State) :
  currentStatus (elapse t s)
  = currentStatus
      (fold_left fire (byDue (filter (fun x => due x <=? t) (timeouts s))) s).
Proof. reflexivity. Qed.

Lemma fold_fire_clears (l : list Timeout) (s : State) (x : Timeout) :
  In x l -> action x = ClearError ->
  error (currentStatus (fold_left fire l s)) = None
  /\ lastCheckComplete (currentStatus (fold_left fire l s)) = false.
Proof.
  induction l as [|y l IH] using rev_ind; intros Hin Hx; [contradiction|].
  rewrite fold_left_app. cbn [fold_left]. rewrite fire_status.
  destruct (action y) eqn:Ey; cbn [cleared error lastCheckComplete].
  - apply in_app_or in Hin. destruct Hin as [Hin|[Hin|[]]].
    + split; [apply (IH Hin Hx)|reflexivity].
    + subst y. congruence.
  - split; reflexivity.
Qed.

Lemma fold_fire_keeps_error (l : list Timeout) (s : State) :
  Forall (fun x => action x = ClearCheckComplete) l ->
  error (currentStatus (fold_left fire l s)) = error (currentStatus s).
Proof.
  revert s. induction l as [|y l IH]; intros s H; cbn [fold_left]; [reflexivity|].
  inversion H as [|? ? Hy Hl]; subst. rewrite (IH _ Hl), fire_status, Hy. reflexivity.
Qed.

(** X17 (the [setTimeout] callbacks of the listeners and of checkForUpdates):
    the timers that clear an error are never cancelled and do not look at
    which error they clear. Whenever a pending timer of that kind comes
    due, [getUpdateStatus] reports no error and no completed check, also
    when the error was set after the timer had been started: an error that
    follows another one is shown for less than its five seconds. *)
Theorem pending_timer_clears_any_error (s : State) (x : Timeout) (t : Z) :
  In x (timeouts s) -> action x = ClearError -> due x <= t ->
  error (getUpdateStatus (elapse t s)) = None
  /\ lastCheckComplete (getUpdateStatus (elapse t s)) = false.
Proof.
  intros Hin Hx Hdue. unfold getUpdateStatus. rewrite elapse_status.
  apply (fold_fire_clears _ s x); [|exact Hx].
  apply byDue_In, filter_In. split; [exact Hin|]. apply Z.leb_le, Hdue.
Qed.

Lemma pending_timer_clears_any_error_witness :
  error (getUpdateStatus twoErrors) = Some "second"
  /\ clock twoErrors = 4000
  /\ error (getUpdateStatus (elapse 5000 twoErrors)) = None
  /\ lastCheckComplete (getUpdateStatus (elapse 5000 twoErrors)) = false.
Proof.
  split; [reflexivity|]. split; [reflexivity|].
  apply (pending_timer_clears_any_error twoErrors (mkTimeout 1 5000 ClearError) 5000).
  - vm_compute. left. reflexivity.
  - reflexivity.
  - cbn [due]. lia.
Defined.

Lemma listener_clock (ev : AutoUpdaterEvent) (s : State) :
  clock (listener ev s) = clock s.
Proof.
  destruct s as [st w ci n clk ts iv nid lg].
  destruct ev; unfold_updater; destruct w as [[|]|]; reflexivity.
Qed.

Lemma iter_listener_clock (ev : AutoUpdaterEvent) (n : nat) (s : State) :
  clock (Nat.iter n (listener ev) s) = clock s.
Proof.
  induction n as [|n IH]; [reflexivity|].
  change (Nat.iter (S n) (listener ev) s) with (listener ev (Nat.iter n (listener ev) s)).
  rewrite listener_clock. exact IH.
Qed.

Lemma reportsCheckError_arms (c : Setup) (s : State) (call : Call) :
  reportsCheckError c s call ->
  exists x, In x (timeouts (step c s call)) /\ action x = ClearError
            /\ due x <= clock s + 5000.
Proof.
  destruct call as [| | | | | |[]| | | | |]; cbn [reportsCheckError step];
    try contradiction; intros H.
  - unfold reachesFeed in H. destruct s as [st w ci n clk ts iv nid lg].
    unfold checkForUpdates.
    destruct (isDev c && negb (hasCustomFeed c));
      [|destruct (updatesConfigured c); [discriminate|]];
      cbn [negb]; unfold_updater; destruct w as [[|]|];
      cbn [timeouts]; eexists; (split; [apply in_or_app; right; left; reflexivity|]);
      cbn [action due clock]; (split; [reflexivity|lia]).
  - unfold dispatch. destruct (listeners s) as [|n]; [lia|].
    change (Nat.iter (S n) (listener (ErrorEvent message)) s)
      with (listener (ErrorEvent message) (Nat.iter n (listener (ErrorEvent message)) s)).
    pose proof (iter_listener_clock (ErrorEvent message) n s) as Hc.
    revert Hc. generalize (Nat.iter n (listener (ErrorEvent message)) s) as s1.
    intros [st w ci k clk ts iv nid lg]. cbn [clock]. intros <-.
    unfold_updater; destruct w as [[|]|];
      cbn [timeouts]; eexists; (split; [apply in_or_app; right; left; reflexivity|]);
      cbn [action due clock]; (split; [reflexivity|lia]).
  - destruct s as [st w ci n clk ts iv nid lg].
    unfold_updater; destruct w as [[|]|];
      cbn [timeouts]; eexists; (split; [apply in_or_app; right; left; reflexivity|]);
      cbn [action due clock]; (split; [reflexivity|lia]).
Qed.

(** X18 (the [error] listener, the catch of checkForUpdates and its two
    refusals): an error of a check is transient. Five seconds after it was
    reported at the latest, [getUpdateStatus] reports no error and no
    completed check any more. *)
Theorem check_error_is_transient (c : Setup) (s : State) (call : Call) (t : Z) :
  reportsCheckError c s call -> clock s + 5000 <= t ->
  error (getUpdateStatus (elapse t (step c s call))) = None
  /\ lastCheckComplete (getUpdateStatus (elapse t (step c s call))) = false.
Proof.
  intros H Ht. destruct (reportsCheckError_arms c s call H) as [x [Hin [Hx Hdue]]].
  unfold getUpdateStatus. rewrite elapse_status.
  apply (fold_fire_clears _ _ x); [|exact Hx].
  apply byDue_In, filter_In. split; [exact Hin|]. apply Z.leb_le. lia.
Qed.

Lemma check_error_is_transient_witness :
  error (getUpdateStatus
           (elapse 5000 (step packagedSetup (ready 0) (CheckRejected "offline")))) = None
  /\ lastCheckComplete
       (getUpdateStatus
          (elapse 5000 (step packagedSetup (ready 0) (CheckRejected "offline")))) = false.
Proof.
  apply check_error_is_transient; [exact I|cbn; lia].
Defined.

(** X19 (the catch of downloadUpdate): a failed download is reported without
    a timer. The error stays in the status however much time passes, as
    long as no timer of an earlier check error is pending, and the
    download flag is dropped, so the download can be asked for again. *)
Theorem download_error_is_sticky (message : string) (s : State) (t : Z) :
  noErrorTimer s ->
  error (getUpdateStatus (elapse t (downloadRejected message s)))
  = Some (messageOr "Failed to download update" message)
  /\ downloading (getUpdateStatus (downloadRejected message s)) = false
  /\ timeouts (downloadRejected message s) = timeouts s.
Proof.
  intros H. unfold getUpdateStatus, noErrorTimer in *.
  assert (Ht : timeouts (downloadRejected message s) = timeouts s).
  { destruct s as [st w ci n clk ts iv nid lg]. unfold_updater.
    destruct w as [[|]|]; reflexivity. }
  split; [|split; [|exact Ht]].
  - rewrite elapse_status, fold_fire_keeps_error.
    + destruct s as [st w ci n clk ts iv nid lg]. unfold_updater.
      destruct w as [[|]|]; reflexivity.
    + rewrite Ht. apply Forall_forall. intros x Hx.
      apply byDue_In, filter_In in Hx. destruct Hx as [Hx _].
      revert x Hx. apply Forall_forall. exact H.
  - destruct s as [st w ci n clk ts iv nid lg]. unfold_updater.
    destruct w as [[|]|]; reflexivity.
Qed.

Lemma download_error_is_sticky_witness :
  error (getUpdateStatus (elapse 3600000 (downloadRejected "disk full" (ready 0))))
  = Some (messageOr "Failed to download update" "disk full")
  /\ downloading (getUpdateStatus (downloadRejected "disk full" (ready 0))) = false
  /\ timeouts (downloadRejected "disk full" (ready 0)) = timeouts (ready 0).
Proof.
  apply download_error_is_sticky. constructor.
Defined.

Lemma installRequests_app (a b : list Effect) :
  installRequests (a ++ b) = (installRequests a + installRequests b)%nat.
Proof.
  induction a as [|x a IH]; [reflexivity|].
  destruct x; cbn [installRequests app]; rewrite IH; reflexivity.
Qed.

#[local] Hint Rewrite installRequests_app : updater_log.

Section StatusInvariant.

Variable I : State -> Prop.
Variable Q : Call -> Prop.
Variable c : Setup.

Hypothesis I_local : ofStatusAndLog I.
Hypothesis I_listener : forall ev s, Q (Emitted ev) -> I s -> I (listener ev s).
Hypothesis I_fire : forall s x, I s -> I (fire s x).
Hypothesis I_check : forall s, I s -> I (checkForUpdates c s).
Hypothesis I_download : forall s, I s -> I (downloadUpdate s).
Hypothesis I_install : forall s, I s -> I (installUpdate s).
Hypothesis I_checkRejected : forall m s, I s -> I (checkRejected m s).
Hypothesis I_downloadRejected : forall m s, I s -> I (downloadRejected m s).

Lemma step_status_invariant (s : State) (call : Call) :
  Q call -> I s -> I (step c s call).
Proof.
  intros HQ HI. destruct call; cbn [step].
  - apply (I_local s); [reflexivity|reflexivity|exact HI].
  - apply I_check, HI.
  - apply I_download, HI.
  - apply I_install, HI.
  - unfold startPeriodicUpdateCheck. destruct (negb _); [exact HI|].
    apply (I_local (checkForUpdates c s)); [| |apply I_check, HI];
      unfold setCheckInterval, clearInterval;
      destruct (checkInterval (checkForUpdates c s)); reflexivity.
  - apply (I_local s); [| |exact HI];
      unfold stopPeriodicUpdateCheck, clearInterval;
      destruct (checkInterval s); reflexivity.
  - unfold dispatch. generalize (listeners s) as n.
    induction n as [|n IH]; [exact HI|].
    change (Nat.iter (S n) (listener ev) s) with (listener ev (Nat.iter n (listener ev) s)).
    apply I_listener; assumption.
  - apply I_checkRejected, HI.
  - apply I_downloadRejected, HI.
  - destruct (existsb _ _); [apply I_check|]; exact HI.
  - apply (I_local s); [| |exact HI]; destruct (mainWindow s); reflexivity.
  - unfold elapse.
    apply (I_local (fold_left fire
                      (byDue (filter (fun x => due x <=? t) (timeouts s))) s));
      [reflexivity|reflexivity|].
    generalize (byDue (filter (fun x => due x <=? t) (timeouts s))) as l.
    intros l. revert s HI. induction l as [|x l IH]; intros s HI; cbn [fold_left].
    + exact HI.
    + apply IH, I_fire, HI.
Qed.

End StatusInvariant.

Lemma nothingReady_step (c : Setup) (s : State) (call : Call) :
  notDownloaded call -> nothingReady s -> nothingReady (step c s call).
Proof.
  apply (step_status_invariant nothingReady notDownloaded c); unfold nothingReady.
  - intros a b Hs Hl. rewrite Hs, Hl. trivial.
  - intros ev [st w ci n clk ts iv nid lg]; destruct ev; cbn [notDownloaded];
      try contradiction; intros _; unfold_updater; destruct w as [[|]|];
      cbn [currentStatus log readyToInstall]; autorewrite with updater_log;
      cbn [installRequests]; rewrite ?Nat.add_0_r; trivial.
  - intros [st w ci n clk ts iv nid lg] [i d []]; unfold_updater;
      destruct w as [[|]|]; cbn [currentStatus log readyToInstall cleared action];
      autorewrite with updater_log; cbn [installRequests]; rewrite ?Nat.add_0_r; trivial.
  - intros [st w ci n clk ts iv nid lg]. unfold checkForUpdates.
    destruct (isDev c && negb (hasCustomFeed c));
      [|destruct (negb (updatesConfigured c));
        [|cbn [currentStatus]; destruct (checking st || downloading st)]];
      unfold_updater; destruct w as [[|]|]; cbn [currentStatus log readyToInstall];
      autorewrite with updater_log; cbn [installRequests]; rewrite ?Nat.add_0_r; trivial.
  - intros [st w ci n clk ts iv nid lg]. unfold downloadUpdate.
    cbn [currentStatus]. destruct (negb (updateAvailable st) || downloading st);
      unfold_updater; cbn [currentStatus log readyToInstall];
      autorewrite with updater_log; cbn [installRequests]; rewrite ?Nat.add_0_r; trivial.
  - intros [st w ci n clk ts iv nid lg]. unfold installUpdate.
    cbn [currentStatus log]. intros [H1 H2]. rewrite H1. cbn [negb]. split; assumption.
  - intros m [st w ci n clk ts iv nid lg]; unfold_updater;
      destruct w as [[|]|]; cbn [currentStatus log readyToInstall];
      autorewrite with updater_log; cbn [installRequests]; rewrite ?Nat.add_0_r; trivial.
  - intros m [st w ci n clk ts iv nid lg]; unfold_updater;
      destruct w as [[|]|]; cbn [currentStatus log readyToInstall];
      autorewrite with updater_log; cbn [installRequests]; rewrite ?Nat.add_0_r; trivial.
Qed.

Lemma nothingOffered_step (c : Setup) (s : State) (call : Call) :
  notAvailable call -> nothingOffered s -> nothingOffered (step c s call).
Proof.
  apply (step_status_invariant nothingOffered notAvailable c); unfold nothingOffered.
  - intros a b Hs Hl. rewrite Hs, Hl. trivial.
  - intros ev [st w ci n clk ts iv nid lg]; destruct ev; cbn [notAvailable];
      try contradiction; intros _; unfold_updater; destruct w as [[|]|];
      cbn [currentStatus log updateAvailable]; autorewrite with updater_log;
      cbn [downloadRequests]; rewrite ?Nat.add_0_r; intros [H1 H2]; split; trivial.
  - intros [st w ci n clk ts iv nid lg] [i d []]; unfold_updater;
      destruct w as [[|]|]; cbn [currentStatus log updateAvailable cleared action];
      autorewrite with updater_log; cbn [downloadRequests]; rewrite ?Nat.add_0_r; trivial.
  - intros [st w ci n clk ts iv nid lg]. unfold checkForUpdates.
    destruct (isDev c && negb (hasCustomFeed c));
      [|destruct (negb (updatesConfigured c));
        [|cbn [currentStatus]; destruct (checking st || downloading st)]];
      unfold_updater; destruct w as [[|]|]; cbn [currentStatus log updateAvailable];
      autorewrite with updater_log; cbn [downloadRequests]; rewrite ?Nat.add_0_r; trivial.
  - intros [st w ci n clk ts iv nid lg]. unfold downloadUpdate.
    cbn [currentStatus log]. intros [H1 H2]. rewrite H1. cbn [negb orb]. split; assumption.
  - intros [st w ci n clk ts iv nid lg]. unfold installUpdate.
    cbn [currentStatus]. destruct (negb (readyToInstall st));
      unfold_updater; cbn [currentStatus log updateAvailable];
      autorewrite with updater_log; cbn [downloadRequests]; rewrite ?Nat.add_0_r; trivial.
  - intros m [st w ci n clk ts iv nid lg]; unfold_updater;
      destruct w as [[|]|]; cbn [currentStatus log updateAvailable];
      autorewrite with updater_log; cbn [downloadRequests]; rewrite ?Nat.add_0_r; trivial.
  - intros m [st w ci n clk ts iv nid lg]; unfold_updater;
      destruct w as [[|]|]; cbn [currentStatus log updateAvailable];
      autorewrite with updater_log; cbn [downloadRequests]; rewrite ?Nat.add_0_r; trivial.
Qed.

(** X20 (downloadUpdate and the [update-available] listener): the module
    never calls [autoUpdater.downloadUpdate()] before [autoUpdater] has
    announced an update, whatever is called in whatever order. *)
Theorem no_download_before_an_update_is_announced
  (c : Setup) (t : Z) (calls : list Call) :
  Forall notAvailable calls ->
  downloadRequests (log (run c (initial t) calls)) = 0%nat.
Proof.
  intros H.
  apply (run_invariant nothingOffered notAvailable c (nothingOffered_step c)
           calls (initial t) H).
  split; reflexivity.
Qed.

Lemma no_download_before_an_update_is_announced_witness :
  downloadRequests
    (log (run packagedSetup (initial 0)
            [Initialize (Some Alive); StartPeriodic; Emitted CheckingForUpdate;
             DownloadUpdate; Emitted UpdateNotAvailable; DownloadUpdate])) = 0%nat.
Proof.
  apply no_download_before_an_update_is_announced. repeat constructor.
Defined.

(** X21 (installUpdate and the [update-downloaded] listener): the module
    never calls [autoUpdater.quitAndInstall] before [autoUpdater] has
    reported a finished download, whatever is called in whatever order. *)
Theorem no_install_before_the_download_finished
  (c : Setup) (t : Z) (calls : list Call) :
  Forall notDownloaded calls ->
  installRequests (log (run c (initial t) calls)) = 0%nat.
Proof.
  intros H.
  apply (run_invariant nothingReady notDownloaded c (nothingReady_step c)
           calls (initial t) H).
  split; reflexivity.
Qed.

Lemma no_install_before_the_download_finished_witness :
  installRequests
    (log (run packagedSetup (initial 0)
            [Initialize (Some Alive); CheckForUpdates; Emitted (UpdateAvailable sampleInfo);
             DownloadUpdate; Emitted (DownloadProgress hundred); InstallUpdate])) = 0%nat.
Proof.
  apply no_install_before_the_download_finished. repeat constructor.
Defined.

Lemma readyToInstall_step (c : Setup) (s : State) (call : Call) :
  True -> readyToInstall (currentStatus s) = true ->
  readyToInstall (currentStatus (step c s call)) = true.
Proof.
  apply (step_status_invariant
           (fun s => readyToInstall (currentStatus s) = true) (fun _ => True) c).
  - intros a b Hs _. rewrite Hs. trivial.
  - intros ev [st w ci n clk ts iv nid lg] _; destruct ev; unfold_updater;
      destruct w as [[|]|]; cbn [currentStatus readyToInstall]; trivial.
  - intros [st w ci n clk ts iv nid lg] [i d []]; unfold_updater;
      destruct w as [[|]|]; cbn [currentStatus readyToInstall cleared action]; trivial.
  - intros [st w ci n clk ts iv nid lg]. unfold checkForUpdates.
    destruct (isDev c && negb (hasCustomFeed c));
      [|destruct (negb (updatesConfigured c));
        [|cbn [currentStatus]; destruct (checking st || downloading st)]];
      unfold_updater; destruct w as [[|]|]; cbn [currentStatus readyToInstall]; trivial.
  - intros [st w ci n clk ts iv nid lg]. unfold downloadUpdate.
    cbn [currentStatus]. destruct (negb (updateAvailable st) || downloading st);
      unfold_updater; cbn [currentStatus readyToInstall]; trivial.
  - intros [st w ci n clk ts iv nid lg]. unfold installUpdate.
    cbn [currentStatus]. destruct (negb (readyToInstall st));
      unfold_updater; cbn [currentStatus readyToInstall]; trivial.
  - intros m [st w ci n clk ts iv nid lg]; unfold_updater;
      destruct w as [[|]|]; cbn [currentStatus readyToInstall]; trivial.
  - intros m [st w ci n clk ts iv nid lg]; unfold_updater;
      destruct w as [[|]|]; cbn [currentStatus readyToInstall]; trivial.
Qed.

Lemma dispatch_last (ev : AutoUpdaterEvent) (s : State) :
  (1 <= listeners s)%nat ->
  exists s1, dispatch ev s = listener ev s1
             /\ clock s1 = clock s /\ mainWindow s1 = mainWindow s.
Proof.
  intros H. unfold dispatch. destruct (listeners s) as [|n]; [lia|].
  exists (Nat.iter n (listener ev) s). split; [reflexivity|].
  split; [apply iter_listener_clock|].
  induction n as [|n IH]; [reflexivity|].
  change (Nat.iter (S n) (listener ev) s) with (listener ev (Nat.iter n (listener ev) s)).
  rewrite <- IH by lia. apply (listener_frame ev).
Qed.

(** X22 (installUpdate and the [update-downloaded] listener): no operation,
    event or timer resets [readyToInstall]. Once [autoUpdater] has reported
    a finished download to an initialized module, [installUpdate] calls
    [autoUpdater.quitAndInstall(false, true)] whenever it is called later,
    whatever happened in between. *)
Theorem downloaded_update_stays_installable
  (c : Setup) (s : State) (calls : list Call) :
  (1 <= listeners s)%nat ->
  readyToInstall (getUpdateStatus (run c (dispatch UpdateDownloaded s) calls)) = true
  /\ log (installUpdate (run c (dispatch UpdateDownloaded s) calls))
     = (log (run c (dispatch UpdateDownloaded s) calls)
          ++ [QuitAndInstall false true])%list.
Proof.
  intros H.
  assert (Hr : readyToInstall
                 (currentStatus (run c (dispatch UpdateDownloaded s) calls)) = true).
  { apply (run_invariant (fun s => readyToInstall (currentStatus s) = true)
             (fun _ => True) c (readyToInstall_step c)); [apply Forall_True|].
    destruct (dispatch_last UpdateDownloaded s H) as [[st w ci n clk ts iv nid lg] [-> _]].
    unfold_updater. destruct w as [[|]|]; reflexivity. }
  split; [exact Hr|].
  unfold installUpdate. rewrite Hr. reflexivity.
Qed.

Lemma downloaded_update_stays_installable_witness :
  readyToInstall
    (getUpdateStatus
       (run packagedSetup (dispatch UpdateDownloaded (ready 0))
          [Emitted (ErrorEvent "late"); Elapse 5000; CheckForUpdates;
           Emitted UpdateNotAvailable])) = true
  /\ log (installUpdate
            (run packagedSetup (dispatch UpdateDownloaded (ready 0))
               [Emitted (ErrorEvent "late"); Elapse 5000; CheckForUpdates;
                Emitted UpdateNotAvailable]))
     = (log (run packagedSetup (dispatch UpdateDownloaded (ready 0))
               [Emitted (ErrorEvent "late"); Elapse 5000; CheckForUpdates;
                Emitted UpdateNotAvailable])
          ++ [QuitAndInstall false true])%list.
Proof.
  apply downloaded_update_stays_installable. cbn. lia.
Defined.

Lemma checkForUpdates_busy (c : Setup) (s : State) :
  reachesFeed c = true ->
  checking (currentStatus s) || downloading (currentStatus s) = true ->
  checkForUpdates c s = s.
Proof.
  unfold reachesFeed, checkForUpdates. intros Hc Hb.
  apply andb_prop in Hc. destruct Hc as [H1 H2].
  apply negb_true_iff in H2. rewrite H2, H1, Hb. reflexivity.
Qed.

(** X23 (checkForUpdates, downloadUpdate and the [checking-for-update] and
    [download-progress] listeners): in a setup that reaches the feed, once
    [autoUpdater] has reported that a check is under way, checks asked for
    by callers or by the polling interval change nothing and send nothing;
    once it has reported download progress, the same holds for checks and
    for download requests. *)
Theorem busy_module_refuses_requests
  (c : Setup) (s : State) (ev : AutoUpdaterEvent) (calls : list Call) :
  reachesFeed c = true -> (1 <= listeners s)%nat ->
  Forall (refusedAfter ev) calls ->
  run c (dispatch ev s) calls = dispatch ev s.
Proof.
  intros Hc Hl Hcalls.
  destruct (dispatch_last ev s Hl) as [s1 [E _]].
  assert (Hb : forall call, refusedAfter ev call ->
                 step c (dispatch ev s) call = dispatch ev s).
  { intros call Hr. rewrite E. destruct s1 as [st w ci n clk ts iv nid lg].
    destruct ev; cbn [refusedAfter] in Hr; try contradiction;
      destruct call; try contradiction; cbn [step].
    - apply checkForUpdates_busy; [exact Hc|].
      unfold_updater. destruct w as [[|]|]; reflexivity.
    - destruct (existsb _ _); [|reflexivity].
      apply checkForUpdates_busy; [exact Hc|].
      unfold_updater. destruct w as [[|]|]; reflexivity.
    - apply checkForUpdates_busy; [exact Hc|].
      unfold_updater. destruct w as [[|]|]; cbn; apply orb_true_r.
    - unfold_updater. destruct w as [[|]|]; cbn; rewrite orb_true_r; reflexivity.
    - destruct (existsb _ _); [|reflexivity].
      apply checkForUpdates_busy; [exact Hc|].
      unfold_updater. destruct w as [[|]|]; cbn; apply orb_true_r. }
  unfold run. induction Hcalls as [|call calls Hr _ IH]; cbn [fold_left].
  - reflexivity.
  - rewrite (Hb call Hr). exact IH.
Qed.

Lemma busy_module_refuses_requests_witness :
  run packagedSetup (dispatch (DownloadProgress zero) (ready 0))
    [CheckForUpdates; DownloadUpdate; IntervalTick 1%nat; DownloadUpdate]
  = dispatch (DownloadProgress zero) (ready 0).
Proof.
  apply busy_module_refuses_requests; [reflexivity|cbn; lia|repeat constructor].
Defined.

Lemma checkForUpdates_idle (c : Setup) (s : State) :
  reachesFeed c = true -> idle (currentStatus s) ->
  idle (currentStatus (checkForUpdates c s))
  /\ checkRequests (log (checkForUpdates c s)) = S (checkRequests (log s)).
Proof.
  unfold reachesFeed, checkForUpdates, idle. intros Hc [H1 H2].
  apply andb_prop in Hc. destruct Hc as [K1 K2].
  apply negb_true_iff in K2. rewrite K2, K1, H1, H2. cbn [negb orb].
  destruct s as [st w ci n clk ts iv nid lg]. unfold_updater.
  destruct w as [[|]|]; cbn [currentStatus log checking downloading] in *;
    autorewrite with updater_log; cbn [checkRequests]; (split; [split; reflexivity|lia]).
Qed.

Lemma downloadUpdate_idle (s : State) :
  updateAvailable (currentStatus s) = true -> downloading (currentStatus s) = false ->
  currentStatus (downloadUpdate s) = currentStatus s
  /\ downloadRequests (log (downloadUpdate s)) = S (downloadRequests (log s)).
Proof.
  unfold downloadUpdate. intros H1 H2. rewrite H1, H2. cbn [negb orb].
  destruct s as [st w ci n clk ts iv nid lg]. unfold_updater.
  autorewrite with updater_log. cbn [downloadRequests]. split; [reflexivity|lia].
Qed.

(** X24 (checkForUpdates, downloadUpdate): the guards against a second
    request read flags that only the events of [autoUpdater] set. Calls
    that arrive before the first event are not held back: [n] checks asked
    for in a row by an idle module send [n] requests to the feed, and [n]
    download requests for an announced update start [n] downloads. *)
Theorem requests_before_the_first_event_are_all_sent
  (c : Setup) (s : State) (n : nat) :
  reachesFeed c = true -> idle (getUpdateStatus s) ->
  checkRequests (log (run c s (repeat CheckForUpdates n)))
  = (checkRequests (log s) + n)%nat
  /\ (updateAvailable (getUpdateStatus s) = true ->
      downloadRequests (log (run c s (repeat DownloadUpdate n)))
      = (downloadRequests (log s) + n)%nat).
Proof.
  unfold getUpdateStatus. intros Hc Hi. split.
  - revert s Hi. induction n as [|n IH]; intros s Hi; cbn [repeat run fold_left step].
    + lia.
    + destruct (checkForUpdates_idle c s Hc Hi) as [Hi' Hn].
      fold (run c (checkForUpdates c s) (repeat CheckForUpdates n)).
      rewrite (IH _ Hi'), Hn. lia.
  - destruct Hi as [_ Hd]. revert s Hd.
    induction n as [|n IH]; intros s Hd Ha; cbn [repeat run fold_left step].
    + lia.
    + destruct (downloadUpdate_idle s Ha Hd) as [Hs Hn].
      fold (run c (downloadUpdate s) (repeat DownloadUpdate n)).
      rewrite IH, Hn; rewrite ?Hs; try assumption. lia.
Qed.

Lemma requests_before_the_first_event_are_all_sent_witness :
  checkRequests (log (run packagedSetup (ready 0) (repeat CheckForUpdates 3)))
  = (checkRequests (log (ready 0)) + 3)%nat
  /\ (updateAvailable (getUpdateStatus (ready 0)) = true ->
      downloadRequests (log (run packagedSetup (ready 0) (repeat DownloadUpdate 3)))
      = (downloadRequests (log (ready 0)) + 3)%nat).
Proof.
  apply requests_before_the_first_event_are_all_sent; [reflexivity|split; reflexivity].
Defined.

Lemma listener_again (ev : AutoUpdaterEvent) (a b : State) :
  currentStatus a = currentStatus (listener ev b) -> clock a = clock b ->
  currentStatus (listener ev a) = currentStatus (listener ev b).
Proof.
  destruct a as [sta wa cia na clka tsa iva nida lga].
  destruct b as [stb wb cib nb clkb tsb ivb nidb lgb].
  cbn [clock currentStatus]. intros Hs ->. revert Hs.
  destruct ev; unfold_updater; destruct wa as [[|]|]; destruct wb as [[|]|];
    cbn [currentStatus]; intros ->; reflexivity.
Qed.

Lemma listener_notifies (ev : AutoUpdaterEvent) (s : State) :
  mainWindow s = Some Alive ->
  List.length (log (listener ev s)) = S (List.length (log s)).
Proof.
  destruct s as [st w ci n clk ts iv nid lg]. cbn [mainWindow]. intros ->.
  destruct ev; unfold_updater; rewrite length_app; cbn [List.length]; lia.
Qed.

(** X25 (initializeUpdater): every call of [initializeUpdater] registers the
    listeners once more and none is ever removed, so an event of
    [autoUpdater] sends the live window one [update:status-changed] for
    each call made so far; the status that results is the one a single
    registration gives. *)
Theorem event_notifies_once_per_registration (ev : AutoUpdaterEvent) (s : State) :
  mainWindow s = Some Alive ->
  List.length (log (dispatch ev s)) = (List.length (log s) + listeners s)%nat
  /\ ((1 <= listeners s)%nat ->
      getUpdateStatus (dispatch ev s) = getUpdateStatus (listener ev s))
  /\ listeners (initializeUpdater (Some Alive) s) = S (listeners s).
Proof.
  intros Hw. unfold dispatch, getUpdateStatus.
  assert (H : forall n,
             mainWindow (Nat.iter n (listener ev) s) = Some Alive
             /\ clock (Nat.iter n (listener ev) s) = clock s
             /\ List.length (log (Nat.iter n (listener ev) s))
                = (List.length (log s) + n)%nat
             /\ currentStatus (Nat.iter (S n) (listener ev) s)
                = currentStatus (listener ev s)).
  { induction n as [|n [H1 [H2 [H3 H4]]]].
    - cbn [Nat.iter nat_rect]. repeat split; [exact Hw|lia].
    - change (Nat.iter (S (S n)) (listener ev) s)
        with (listener ev (Nat.iter (S n) (listener ev) s)).
      change (Nat.iter (S n) (listener ev) s)
        with (listener ev (Nat.iter n (listener ev) s)) at 1 2 3.
      split; [|split; [|split]].
      + rewrite <- H1. apply (listener_frame ev).
      + rewrite listener_clock. exact H2.
      + rewrite (listener_notifies ev _ H1), H3. lia.
      + apply listener_again; [exact H4|].
        change (Nat.iter (S n) (listener ev) s)
          with (listener ev (Nat.iter n (listener ev) s)).
        rewrite listener_clock. exact H2. }
  split; [apply H|]. split; [|reflexivity].
  intros Hl. destruct (listeners s) as [|n]; [lia|]. apply H.
Qed.

Lemma event_notifies_once_per_registration_witness :
  List.length (log (dispatch UpdateNotAvailable (initializeUpdater (Some Alive) (ready 0))))
  = (List.length (log (initializeUpdater (Some Alive) (ready 0))) + 2)%nat
  /\ ((1 <= 2)%nat ->
      getUpdateStatus (dispatch UpdateNotAvailable (initializeUpdater (Some Alive) (ready 0)))
      = getUpdateStatus (listener UpdateNotAvailable (initializeUpdater (Some Alive) (ready 0))))
  /\ listeners (initializeUpdater (Some Alive) (initializeUpdater (Some Alive) (ready 0)))
     = 3%nat.
Proof.
  apply (event_notifies_once_per_registration UpdateNotAvailable
           (initializeUpdater (Some Alive) (ready 0))).
  reflexivity.
Defined.

End UpdaterFacts.


(** ** The chat view, further *)

Lemma serializeMessagesForStorage_nonempty (ms : list Message) :
  ms <> [] -> serializeMessagesForStorage ms <> [].
Proof. destruct ms; [congruence|discriminate]. Qed.

Lemma saveCallback_pending (store : Store) (c : Snapshot) (s : Saver) :
  snap_messages c <> [] ->
  onePending s /\ Forall nonEmptyWrite (writes s) ->
  onePending (saveCallback store c s) /\ Forall nonEmptyWrite (writes (saveCallback store c s)).
Proof.
  intros Hc [Hp Hw]. apply serializeMessagesForStorage_nonempty in Hc.
  unfold saveCallback. destruct (JS.or_null (snap_conversationId c)).
  - split; [exact Hp|]. unfold record_write. cbn [writes].
    apply Forall_app. split; [exact Hw|]. constructor; [exact Hc|constructor].
  - assert (Hw' : Forall nonEmptyWrite
                    (writes (record_write
                       (ConversationCreate (serializeMessagesForStorage (snap_messages c))
                          (snap_sessionId c)) s))).
    { unfold record_write. cbn [writes]. apply Forall_app.
      split; [exact Hw|]. constructor; [exact Hc|constructor]. }
    destruct (store _ _).
    + destruct (setCurrentConversationId_pending (Some s0) (record_write
                 (ConversationCreate (serializeMessagesForStorage (snap_messages c))
                    (snap_sessionId c)) s) Hp) as [H1 H2].
      split; [exact H1|]. rewrite H2. exact Hw'.
    + split; [exact Hp|exact Hw'].
Qed.

Lemma runTimers_pending (fuel : nat) (store : Store) (t : Z) (s : Saver) :
  onePending s /\ Forall nonEmptyWrite (writes s) ->
  onePending (runTimers fuel store t s)
  /\ Forall nonEmptyWrite (writes (runTimers fuel store t s)).
Proof.
  revert s. induction fuel as [|fuel IH]; intros s H; cbn [runTimers]; [exact H|].
  destruct (nextDue t (timers s)) as [x|] eqn:Ed; [|exact H].
  apply IH. apply nextDue_In in Ed. destruct H as [[Hp|[y [Hp [_ [_ Hy]]]]] Hw].
  - rewrite Hp in Ed. contradiction.
  - rewrite Hp in Ed. destruct Ed as [<-|[]].
    apply saveCallback_pending; [exact Hy|]. split; [|exact Hw].
    left. unfold clearTimeout, set_clock. cbn [timers]. rewrite Hp. cbn [filter].
    rewrite Nat.eqb_refl. reflexivity.
Qed.

Lemma step_pending (store : Store) (s : Saver) (ev : Event) :
  onePending s /\ Forall nonEmptyWrite (writes s) ->
  onePending (Chat.step store s ev)
  /\ Forall nonEmptyWrite (writes (Chat.step store s ev)).
Proof.
  intros H. destruct ev; cbn [Chat.step].
  - destruct (runTimers_pending (2 * List.length (timers s)) store at_time s H) as [Hp Hw].
    unfold setMessages. fold (advance store at_time s) in *.
    destruct (runEffect_pending (set_rendered
                (mkSnapshot ms (snap_conversationId (rendered (advance store at_time s)))
                   (snap_sessionId (rendered (advance store at_time s))))
                (advance store at_time s)) Hp) as [H1 H2].
    split; [exact H1|]. rewrite H2. exact Hw.
  - destruct (runTimers_pending (2 * List.length (timers s)) store at_time s H) as [Hp Hw].
    unfold setCurrentSessionId. fold (advance store at_time s) in *.
    destruct (option_string_eqb _ _); [split; assumption|].
    destruct (runEffect_pending (set_rendered
                (mkSnapshot (snap_messages (rendered (advance store at_time s)))
                   (snap_conversationId (rendered (advance store at_time s))) sessionId)
                (advance store at_time s)) Hp) as [H1 H2].
    split; [exact H1|]. rewrite H2. exact Hw.
  - exact H.
  - apply (runTimers_pending _ store until s H).
Qed.

Lemma run_pending (store : Store) (evs : list Event) (s : Saver) :
  onePending s /\ Forall nonEmptyWrite (writes s) ->
  onePending (Chat.run store s evs)
  /\ Forall nonEmptyWrite (writes (Chat.run store s evs)).
Proof.
  revert s. unfold Chat.run.
  induction evs as [|ev evs IH]; intros s H; cbn [fold_left]; [exact H|].
  apply IH, step_pending, H.
Qed.

Lemma mounted_pending (t : Z) :
  onePending (mounted t) /\ Forall nonEmptyWrite (writes (mounted t)).
Proof. split; [left; reflexivity|constructor]. Qed.

(** X26 (the auto-save effect and its cleanup): whatever the message list,
    the session id and the initial-load flag do and whenever the timers
    fire, at most one save is pending at any moment, and it is the one
    whose handle [saveTimeoutRef] holds. *)
Theorem at_most_one_save_is_pending (store : Store) (t : Z) (evs : list Event) :
  (List.length (timers (Chat.run store (mounted t) evs)) <= 1)%nat
  /\ forall x, In x (timers (Chat.run store (mounted t) evs)) ->
       saveTimeoutRef (Chat.run store (mounted t) evs) = Some (timer_id x).
Proof.
  destruct (run_pending store evs (mounted t) (mounted_pending t))
    as [[H|[x [H [Hr _]]]] _]; rewrite H; cbn [List.length In].
  - split; [lia|]. intros x [].
  - split; [lia|]. intros y [<-|[]]. exact Hr.
Qed.

(** X27 (the auto-save effect and the callback of its timer): the
    conversation store is never written an empty message list; every
    create and every update carries at least one message. *)
Theorem empty_conversation_is_never_saved (store : Store) (t : Z) (evs : list Event) :
  Forall nonEmptyWrite (writes (Chat.run store (mounted t) evs)).
Proof.
  apply (run_pending store evs (mounted t) (mounted_pending t)).
Qed.




Lemma submission_not_refused (v : View) :
  ~ nothingToSubmit v ->
  negb ((0 <? String.length (JS.trim (inputValue v)))%nat
        || (0 <? List.length (pendingAttachments v))%nat)
  || isLoading v = false.
Proof.
  intros H. destruct (negb _ || isLoading v) eqn:E; [|reflexivity].
  exfalso. apply H, guard_spec, E.
Qed.




(** X29 (handleSendMessage): after a submission that passed the guard, the
    loading flag is off exactly when an error message was appended after
    the message of the user. A request that the main process refuses
    without an error text appends nothing and leaves the flag on. *)
Theorem handleSendMessage_loading_flag (e : SendEnv) (v : View) :
  ~ nothingToSubmit v ->
  let result := handleSendMessage e v in
  (isLoading (fst result) = false <->
   exists content,
     messages (fst result)
     = (messages v ++ [userMessageOf e v; errorMessage e content])%list)
  /\ (forall payloads response,
        serializeAttachments e (pendingAttachments v) = inr payloads ->
        sendMessage e (mkSend (JS.trim (inputValue v)) (some_if_nonempty payloads))
        = inr response ->
        response_success response = false ->
        JS.or_null (response_error response) = None ->
        isLoading (fst result) = true
        /\ List.length (messages (fst result)) = S (List.length (messages v))).
Proof.
  intros Hn. cbv zeta. unfold handleSendMessage.
  rewrite (submission_not_refused v Hn). cbv zeta. fold (userMessageOf e v).
  assert (Hlen : forall (l : list Message) content,
            List.length l = S (List.length (messages v)) ->
            l = (messages v ++ [userMessageOf e v; errorMessage e content])%list -> False).
  { intros l content Hl ->. rewrite length_app in Hl. cbn [List.length] in Hl. lia. }
  assert (Hfailed : forall content,
            exists content',
              ((messages v ++ [userMessageOf e v]) ++ [errorMessage e content])%list
              = (messages v ++ [userMessageOf e v; errorMessage e content'])%list).
  { intros content. exists content. rewrite <- app_assoc. reflexivity. }
  destruct (serializeAttachments e (pendingAttachments v)) as [err|payloads].
  - cbn [fst isLoading messages]. split.
    + split; [intros _; apply Hfailed|reflexivity].
    + intros payloads response Hp. discriminate Hp.
  - split.
    + destruct (sendMessage e _) as [err|response];
        [|destruct (if response_success response then None
                    else JS.or_null (response_error response));
          [|destruct (response_attachments response) as [[|x l]|]]];
        cbn [fst isLoading messages];
        try (split; [intros _; apply Hfailed|reflexivity]);
        (split; [discriminate|]); intros [content H]; exfalso;
        refine (Hlen _ content _ H);
        rewrite ?length_map, length_app; cbn [List.length]; lia.
    + intros payloads' response [= <-] Hs Hok Herr. rewrite Hs, Hok, Herr.
      destruct (response_attachments response) as [[|x l]|];
        cbn [fst isLoading messages];
        (split; [reflexivity|]);
        rewrite ?length_map, length_app; cbn [List.length]; lia.
Qed.

Lemma handleSendMessage_loading_flag_witness :
  isLoading (fst (handleSendMessage silentRefusal greetingView)) = true
  /\ List.length (messages (fst (handleSendMessage silentRefusal greetingView)))
     = S (List.length (messages greetingView)).
Proof.
  assert (Hn : ~ nothingToSubmit greetingView).
  { unfold nothingToSubmit. intros [[_ H]|H]; discriminate H. }
  apply (proj2 (handleSendMessage_loading_flag silentRefusal greetingView Hn)
           [mkPayload "notes.txt" "text/plain" 2048 "bytes"]
           (mkResponse false None None)); reflexivity.
Defined.

(** X30 (handleFilesSelected): the attachment error after a selection of at
    least one file depends on that selection only. It is the rejection of
    the last file over the limit, and it is cleared when no file is over
    it: an error left by an earlier selection never outlives a new one. An
    empty selection changes nothing. *)
Theorem handleFilesSelected_replaces_error
    (limit : Z) (e : FileEnv) (files : list File) (v : View) :
  files <> [] ->
  attachmentError (handleFilesSelected limit e files v)
  = option_map (rejectionFor limit (workspaceDir v)) (lastOversized limit files)
  /\ handleFilesSelected limit e [] v = v.
Proof.
  intros Hf. split; [|reflexivity].
  unfold handleFilesSelected. destruct files as [|f fs]; [congruence|].
  rewrite processFiles_spec. cbn [app List.length].
  destruct (lastOversized limit (f :: fs)) as [file|] eqn:El; cbn [option_map].
  - rewrite rejectionFor_truthy.
    destruct (acceptAll e 0 (filter (withinLimit limit) (f :: fs))); reflexivity.
  - cbn [JS.or_null].
    destruct (acceptAll e 0 (filter (withinLimit limit) (f :: fs))) as [|p ps] eqn:Ea;
      [|reflexivity].
    exfalso.
    assert (Hnone : filter (oversized limit) (f :: fs) = []).
    { unfold lastOversized in El.
      destruct (filter (oversized limit) (f :: fs)) as [|y ys]; [reflexivity|].
      exfalso. revert y El.
      induction ys as [|z zs IH]; intros y El; cbn [map List.last] in El.
      - discriminate El.
      - apply (IH z El). }
    pose proof (acceptAll_files e 0 (filter (withinLimit limit) (f :: fs))) as Hm.
    rewrite Ea in Hm. cbn [map] in Hm.
    assert (Hin : In f (filter (withinLimit limit) (f :: fs)) \/
                  In f (filter (oversized limit) (f :: fs))).
    { unfold withinLimit, oversized.
      destruct (file_size f <=? limit) eqn:E1.
      - left. apply filter_In. split; [left; reflexivity|exact E1].
      - right. apply filter_In. split; [left; reflexivity|].
        apply Z.ltb_lt. apply Z.leb_gt in E1. lia. }
    rewrite <- Hm, Hnone in Hin. destruct Hin as [[]|[]].
Qed.

Lemma handleFilesSelected_replaces_error_witness :
  attachmentError
    (handleFilesSelected sampleLimit readableFiles [smallFile]
       (mkView "" [] (Some "stale") None [] false))
  = option_map (rejectionFor sampleLimit None) (lastOversized sampleLimit [smallFile])
  /\ handleFilesSelected sampleLimit readableFiles []
       (mkView "" [] (Some "stale") None [] false)
     = mkView "" [] (Some "stale") None [] false.
Proof.
  apply (handleFilesSelected_replaces_error sampleLimit readableFiles [smallFile]
           (mkView "" [] (Some "stale") None [] false)).
  discriminate.
Defined.
